(** * rcamera: the camera controller of raylib, embedded in Rocq

    The camera functions of [rcamera.h] are translated one by one over an
    abstract scalar type standing for the C type [float].  Every operation
    the C code applies to a [float] is a field of the class [FloatOps], so
    that a statement proved for every instance holds whatever the rounding
    of the machine arithmetic is.  Statements that depend on the value of
    the arithmetic are proved for the instance of exact real numbers
    (modules [RealModel] and [Exact]), where rounding is left out, and say
    so; what rounding does to them is computed on the instance of IEEE 754
    binary32 (modules [Binary32] and [Binary32Facts]).  The input polling
    of the platform layer is embedded in the module [Platform]. *)

From Stdlib Require Import ZArith QArith Bool Reals Lra Lia.
From Stdlib Require Import Qreals RNsatz.

(** ** Scalars *)

Class FloatOps (F : Type) : Type := {
  lit : Q -> F;                 (* a decimal literal such as [0.001f] *)
  fPI : F;                      (* rl_PI *)
  fadd : F -> F -> F;
  fsub : F -> F -> F;
  fmul : F -> F -> F;
  fdiv : F -> F -> F;
  fneg : F -> F;
  fabsf : F -> F;
  sqrtf : F -> F;
  sinf : F -> F;
  cosf : F -> F;
  atan2f : F -> F -> F;
  flt : F -> F -> bool;         (* a < b *)
  fle : F -> F -> bool;         (* a <= b *)
  feq : F -> F -> bool          (* a == b *)
}.

Declare Scope float_scope.
Delimit Scope float_scope with fl.
Notation "a + b" := (fadd a b) : float_scope.
Notation "a - b" := (fsub a b) : float_scope.
Notation "a * b" := (fmul a b) : float_scope.
Notation "a / b" := (fdiv a b) : float_scope.
Notation "- a" := (fneg a) : float_scope.
Notation "a <? b" := (flt a b) : float_scope.
Notation "a >? b" := (flt b a) : float_scope.
Notation "a <=? b" := (fle a b) : float_scope.
Notation "a >=? b" := (fle b a) : float_scope.
Notation "a =? b" := (feq a b) : float_scope.
Notation "a !=? b" := (negb (feq a b)) (at level 70) : float_scope.

(** ** Data: [rl_Vector2], [rl_Vector3], [rl_Matrix], [rl_Camera3D] *)

Set Implicit Arguments.

Record Vector2 (F : Type) : Type := mkVector2 { x2 : F; y2 : F }.

Record Vector3 (F : Type) : Type := mkVector3 { x : F; y : F; z : F }.

Record Matrix (F : Type) : Type := mkMatrix {
  m0 : F; m4 : F; m8 : F; m12 : F;
  m1 : F; m5 : F; m9 : F; m13 : F;
  m2 : F; m6 : F; m10 : F; m14 : F;
  m3 : F; m7 : F; m11 : F; m15 : F
}.

Record Camera (F : Type) : Type := mkCamera {
  position : Vector3 F;
  target : Vector3 F;
  up : Vector3 F;
  fovy : F;
  projection : Z
}.

(** The camera modes of [rl_CameraMode] (raylib.h); the C functions take
    the mode as an [int]. *)
Definition CAMERA_CUSTOM : Z := 0.
Definition CAMERA_FREE : Z := 1.
Definition CAMERA_ORBITAL : Z := 2.
Definition CAMERA_FIRST_PERSON : Z := 3.
Definition CAMERA_THIRD_PERSON : Z := 4.

(** Key, button and axis codes of raylib.h used by the camera. *)
Definition KEY_A : Z := 65.
Definition KEY_D : Z := 68.
Definition KEY_E : Z := 69.
Definition KEY_Q : Z := 81.
Definition KEY_S : Z := 83.
Definition KEY_W : Z := 87.
Definition KEY_SPACE : Z := 32.
Definition KEY_RIGHT : Z := 262.
Definition KEY_LEFT : Z := 263.
Definition KEY_DOWN : Z := 264.
Definition KEY_UP : Z := 265.
Definition KEY_LEFT_CONTROL : Z := 341.
Definition KEY_KP_SUBTRACT : Z := 333.
Definition KEY_KP_ADD : Z := 334.
Definition MOUSE_BUTTON_MIDDLE : Z := 2.
Definition GAMEPAD_AXIS_LEFT_X : Z := 0.
Definition GAMEPAD_AXIS_LEFT_Y : Z := 1.
Definition GAMEPAD_AXIS_RIGHT_X : Z := 2.
Definition GAMEPAD_AXIS_RIGHT_Y : Z := 3.

(** The input layer read by [rl_UpdateCamera]: the values the raylib
    queries return during one call. *)
Record Input (F : Type) : Type := mkInput {
  rl_GetMouseDelta : Vector2 F;
  rl_GetMouseWheelMove : F;
  rl_GetFrameTime : F;
  rl_IsKeyDown : Z -> bool;
  rl_IsKeyPressed : Z -> bool;
  rl_IsMouseButtonDown : Z -> bool;
  rl_IsGamepadAvailable : Z -> bool;
  rl_GetGamepadAxisMovement : Z -> Z -> F
}.

Unset Implicit Arguments.

Section Camera.

Context {F : Type} {ops : FloatOps F}.

Local Open Scope float_scope.

Local Abbreviation V3 := (Vector3 F).
Local Abbreviation Cam := (Camera F).

Definition rl_DEG2RAD : F := fPI / lit 180.

Definition CAMERA_MOVE_SPEED : F := lit 5.4.
Definition CAMERA_ROTATION_SPEED : F := lit 0.03.
Definition CAMERA_PAN_SPEED : F := lit 0.2.
Definition CAMERA_MOUSE_MOVE_SENSITIVITY : F := lit 0.003.
Definition CAMERA_ORBITAL_SPEED : F := lit 0.5.

(** ** raymath *)

(** Modelled from the spec: Vector3Add of raymath.h, which is not among
    the sources; componentwise addition. *)
Definition Vector3Add (v1 v2 : V3) : V3 :=
  mkVector3 (x v1 + x v2) (y v1 + y v2) (z v1 + z v2).

(** Modelled from the spec: Vector3Subtract of raymath.h; componentwise
    subtraction. *)
Definition Vector3Subtract (v1 v2 : V3) : V3 :=
  mkVector3 (x v1 - x v2) (y v1 - y v2) (z v1 - z v2).

(** Modelled from the spec: Vector3Scale of raymath.h; multiplication of
    every component by a scalar. *)
Definition Vector3Scale (v : V3) (scalar : F) : V3 :=
  mkVector3 (x v * scalar) (y v * scalar) (z v * scalar).

(** Modelled from the spec: Vector3Negate of raymath.h. *)
Definition Vector3Negate (v : V3) : V3 :=
  mkVector3 (- x v) (- y v) (- z v).

(** Modelled from the spec: Vector3CrossProduct of raymath.h. *)
Definition Vector3CrossProduct (v1 v2 : V3) : V3 :=
  mkVector3 (y v1 * z v2 - z v1 * y v2)
            (z v1 * x v2 - x v1 * z v2)
            (x v1 * y v2 - y v1 * x v2).

(** Modelled from the spec: Vector3DotProduct of raymath.h. *)
Definition Vector3DotProduct (v1 v2 : V3) : F :=
  x v1 * x v2 + y v1 * y v2 + z v1 * z v2.

(** Modelled from the spec: Vector3Length of raymath.h. *)
Definition Vector3Length (v : V3) : F :=
  sqrtf (x v * x v + y v * y v + z v * z v).

(** Modelled from the spec: Vector3Distance of raymath.h; the length of
    the difference of the two points. *)
Definition Vector3Distance (v1 v2 : V3) : F :=
  let dx := x v2 - x v1 in
  let dy := y v2 - y v1 in
  let dz := z v2 - z v1 in
  sqrtf (dx * dx + dy * dy + dz * dz).

(** Modelled from the spec: Vector3Normalize of raymath.h; a vector of
    length zero is returned as it is (the safe zero result of the spec). *)
Definition Vector3Normalize (v : V3) : V3 :=
  let length := Vector3Length v in
  if length !=? lit 0 then
    let ilength := lit 1 / length in
    mkVector3 (x v * ilength) (y v * ilength) (z v * ilength)
  else v.

(** Modelled from the spec: Vector3Angle of raymath.h; the angle between
    two vectors in radians, in [0, PI], from the length of their cross
    product and their dot product. *)
Definition Vector3Angle (v1 v2 : V3) : F :=
  let len := Vector3Length (Vector3CrossProduct v1 v2) in
  let dot := Vector3DotProduct v1 v2 in
  atan2f len dot.

(** Modelled from the spec: Vector3RotateByAxisAngle of raymath.h;
    Rodrigues' rotation of [v] about [axis] by [angle], in the
    Euler-Rodrigues form with the half angle: the axis is normalized (a
    zero axis is kept), [w] is the axis scaled by the sine of the half
    angle, and the result is [v + 2a(w x v) + 2(w x (w x v))] with [a] the
    cosine of the half angle. *)
Definition Vector3RotateByAxisAngle (v axis : V3) (angle : F) : V3 :=
  let length := Vector3Length axis in
  let length := if length =? lit 0 then lit 1 else length in
  let ilength := lit 1 / length in
  let axis := Vector3Scale axis ilength in
  let angle := angle / lit 2 in
  let a := sinf angle in
  let w := Vector3Scale axis a in
  let a := cosf angle in
  let wv := Vector3CrossProduct w v in
  let wwv := Vector3CrossProduct w wv in
  let wv := Vector3Scale wv (a * lit 2) in
  let wwv := Vector3Scale wwv (lit 2) in
  Vector3Add (Vector3Add v wv) wwv.

(** Modelled from the spec: MatrixRotate of raymath.h; the rotation
    matrix about an arbitrary axis. *)
Definition MatrixRotate (axis : V3) (angle : F) : Matrix F :=
  let lengthSquared := x axis * x axis + y axis * y axis + z axis * z axis in
  let axis :=
    if (lengthSquared !=? lit 1) && (lengthSquared !=? lit 0) then
      let ilength := lit 1 / sqrtf lengthSquared in
      Vector3Scale axis ilength
    else axis in
  let ax := x axis in
  let ay := y axis in
  let az := z axis in
  let sinres := sinf angle in
  let cosres := cosf angle in
  let t := lit 1 - cosres in
  {| m0 := ax * ax * t + cosres;
     m1 := ay * ax * t + az * sinres;
     m2 := az * ax * t - ay * sinres;
     m3 := lit 0;
     m4 := ax * ay * t - az * sinres;
     m5 := ay * ay * t + cosres;
     m6 := az * ay * t + ax * sinres;
     m7 := lit 0;
     m8 := ax * az * t + ay * sinres;
     m9 := ay * az * t - ax * sinres;
     m10 := az * az * t + cosres;
     m11 := lit 0;
     m12 := lit 0;
     m13 := lit 0;
     m14 := lit 0;
     m15 := lit 1 |}.

(** Modelled from the spec: Vector3Transform of raymath.h; the product of
    a matrix and a point. *)
Definition Vector3Transform (v : V3) (mat : Matrix F) : V3 :=
  mkVector3
    (m0 mat * x v + m4 mat * y v + m8 mat * z v + m12 mat)
    (m1 mat * x v + m5 mat * y v + m9 mat * z v + m13 mat)
    (m2 mat * x v + m6 mat * y v + m10 mat * z v + m14 mat).

(** ** rcamera.h *)

(** Assignments to one field of [*camera]. *)
Definition set_position (camera : Cam) (v : V3) : Cam :=
  mkCamera v (target camera) (up camera) (fovy camera) (projection camera).

Definition set_target (camera : Cam) (v : V3) : Cam :=
  mkCamera (position camera) v (up camera) (fovy camera) (projection camera).

Definition set_up (camera : Cam) (v : V3) : Cam :=
  mkCamera (position camera) (target camera) v (fovy camera) (projection camera).

(** Assignments [v.x = 0], [v.y = 0], [v.z = 0]. *)
Definition zero_x (v : V3) : V3 := mkVector3 (lit 0) (y v) (z v).
Definition zero_y (v : V3) : V3 := mkVector3 (x v) (lit 0) (z v).
Definition zero_z (v : V3) : V3 := mkVector3 (x v) (y v) (lit 0).

Definition GetCameraForward (camera : Cam) : V3 :=
  Vector3Normalize (Vector3Subtract (target camera) (position camera)).

Definition GetCameraUp (camera : Cam) : V3 :=
  Vector3Normalize (up camera).

Definition GetCameraRight (camera : Cam) : V3 :=
  let forward := GetCameraForward camera in
  let up := GetCameraUp camera in
  Vector3Normalize (Vector3CrossProduct forward up).

Definition CameraMoveForward (camera : Cam) (distance : F)
    (moveInWorldPlane : bool) : Cam :=
  let forward := GetCameraForward camera in
  let forward :=
    if moveInWorldPlane then
      let forward :=
        if fabsf (z (up camera)) >? lit 0.7071 then zero_z forward
        else if fabsf (x (up camera)) >? lit 0.7071 then zero_x forward
        else zero_y forward in
      Vector3Normalize forward
    else forward in
  let forward := Vector3Scale forward distance in
  let camera := set_position camera (Vector3Add (position camera) forward) in
  set_target camera (Vector3Add (target camera) forward).

Definition CameraMoveUp (camera : Cam) (distance : F) : Cam :=
  let up := GetCameraUp camera in
  let up := Vector3Scale up distance in
  let camera := set_position camera (Vector3Add (position camera) up) in
  set_target camera (Vector3Add (target camera) up).

Definition CameraMoveRight (camera : Cam) (distance : F)
    (moveInWorldPlane : bool) : Cam :=
  let right := GetCameraRight camera in
  let right :=
    if moveInWorldPlane then
      let right :=
        if fabsf (z (up camera)) >? lit 0.7071 then zero_z right
        else if fabsf (x (up camera)) >? lit 0.7071 then zero_x right
        else zero_y right in
      Vector3Normalize right
    else right in
  let right := Vector3Scale right distance in
  let camera := set_position camera (Vector3Add (position camera) right) in
  set_target camera (Vector3Add (target camera) right).

Definition CameraMoveToTarget (camera : Cam) (delta : F) : Cam :=
  let distance := Vector3Distance (position camera) (target camera) in
  let distance := distance + delta in
  let distance := if distance <=? lit 0 then lit 0.001 else distance in
  let forward := GetCameraForward camera in
  set_position camera
    (Vector3Add (target camera) (Vector3Scale forward (- distance))).

Definition CameraYaw (camera : Cam) (angle : F) (rotateAroundTarget : bool)
    : Cam :=
  let up := GetCameraUp camera in
  let targetPosition := Vector3Subtract (target camera) (position camera) in
  let targetPosition := Vector3RotateByAxisAngle targetPosition up angle in
  if rotateAroundTarget then
    set_position camera (Vector3Subtract (target camera) targetPosition)
  else
    set_target camera (Vector3Add (position camera) targetPosition).

(** The two clamps of [CameraPitch] under [lockView]. *)
Definition pitch_maxAngleUp (camera : Cam) : F :=
  let up := GetCameraUp camera in
  let targetPosition := Vector3Subtract (target camera) (position camera) in
  Vector3Angle up targetPosition - lit 0.001.

Definition pitch_maxAngleDown (camera : Cam) : F :=
  let up := GetCameraUp camera in
  let targetPosition := Vector3Subtract (target camera) (position camera) in
  Vector3Angle (Vector3Negate up) targetPosition * lit (-1) + lit 0.001.

Definition pitch_clamp (camera : Cam) (angle : F) : F :=
  let maxAngleUp := pitch_maxAngleUp camera in
  let angle := if angle >? maxAngleUp then maxAngleUp else angle in
  let maxAngleDown := pitch_maxAngleDown camera in
  if angle <? maxAngleDown then maxAngleDown else angle.

Definition CameraPitch (camera : Cam) (angle : F)
    (lockView rotateAroundTarget rotateUp : bool) : Cam :=
  let targetPosition := Vector3Subtract (target camera) (position camera) in
  let angle := if lockView then pitch_clamp camera angle else angle in
  let right := GetCameraRight camera in
  let targetPosition := Vector3RotateByAxisAngle targetPosition right angle in
  let camera1 :=
    if rotateAroundTarget then
      set_position camera (Vector3Subtract (target camera) targetPosition)
    else
      set_target camera (Vector3Add (position camera) targetPosition) in
  if rotateUp then
    set_up camera1 (Vector3RotateByAxisAngle (up camera1) right angle)
  else camera1.

Definition CameraRoll (camera : Cam) (angle : F) : Cam :=
  let forward := GetCameraForward camera in
  set_up camera (Vector3RotateByAxisAngle (up camera) forward angle).

(** [if (b) camera = f(camera);] *)
Definition when (b : bool) (f : Cam -> Cam) (camera : Cam) : Cam :=
  if b then f camera else camera.

(** The branch of [rl_UpdateCamera] taken when the mode is neither
    CAMERA_CUSTOM nor CAMERA_ORBITAL; [isFree] is the value of the test
    [mode == CAMERA_FREE]. *)
Definition update_shared (inp : Input F) (camera : Cam) (isFree : bool)
    (moveInWorldPlane rotateAroundTarget lockView rotateUp : bool) : Cam :=
  let mousePositionDelta := rl_GetMouseDelta inp in
  let cameraMoveSpeed := CAMERA_MOVE_SPEED * rl_GetFrameTime inp in
  let cameraRotationSpeed := CAMERA_ROTATION_SPEED * rl_GetFrameTime inp in
  let cameraPanSpeed := CAMERA_PAN_SPEED * rl_GetFrameTime inp in
  (* Camera rotation *)
  let camera := when (rl_IsKeyDown inp KEY_DOWN)
    (fun c => CameraPitch c (- cameraRotationSpeed) lockView rotateAroundTarget rotateUp) camera in
  let camera := when (rl_IsKeyDown inp KEY_UP)
    (fun c => CameraPitch c cameraRotationSpeed lockView rotateAroundTarget rotateUp) camera in
  let camera := when (rl_IsKeyDown inp KEY_RIGHT)
    (fun c => CameraYaw c (- cameraRotationSpeed) rotateAroundTarget) camera in
  let camera := when (rl_IsKeyDown inp KEY_LEFT)
    (fun c => CameraYaw c cameraRotationSpeed rotateAroundTarget) camera in
  let camera := when (rl_IsKeyDown inp KEY_Q)
    (fun c => CameraRoll c (- cameraRotationSpeed)) camera in
  let camera := when (rl_IsKeyDown inp KEY_E)
    (fun c => CameraRoll c cameraRotationSpeed) camera in
  (* Camera movement: pan (for CAMERA_FREE) or mouse look *)
  let camera :=
    if isFree && rl_IsMouseButtonDown inp MOUSE_BUTTON_MIDDLE then
      let mouseDelta := rl_GetMouseDelta inp in
      let camera := when (x2 mouseDelta >? lit 0)
        (fun c => CameraMoveRight c cameraPanSpeed moveInWorldPlane) camera in
      let camera := when (x2 mouseDelta <? lit 0)
        (fun c => CameraMoveRight c (- cameraPanSpeed) moveInWorldPlane) camera in
      let camera := when (y2 mouseDelta >? lit 0)
        (fun c => CameraMoveUp c (- cameraPanSpeed)) camera in
      when (y2 mouseDelta <? lit 0)
        (fun c => CameraMoveUp c cameraPanSpeed) camera
    else
      let camera := CameraYaw camera
        (- x2 mousePositionDelta * CAMERA_MOUSE_MOVE_SENSITIVITY) rotateAroundTarget in
      CameraPitch camera
        (- y2 mousePositionDelta * CAMERA_MOUSE_MOVE_SENSITIVITY)
        lockView rotateAroundTarget rotateUp in
  (* Keyboard support *)
  let camera := when (rl_IsKeyDown inp KEY_W)
    (fun c => CameraMoveForward c cameraMoveSpeed moveInWorldPlane) camera in
  let camera := when (rl_IsKeyDown inp KEY_A)
    (fun c => CameraMoveRight c (- cameraMoveSpeed) moveInWorldPlane) camera in
  let camera := when (rl_IsKeyDown inp KEY_S)
    (fun c => CameraMoveForward c (- cameraMoveSpeed) moveInWorldPlane) camera in
  let camera := when (rl_IsKeyDown inp KEY_D)
    (fun c => CameraMoveRight c cameraMoveSpeed moveInWorldPlane) camera in
  (* Gamepad movement *)
  let camera :=
    if rl_IsGamepadAvailable inp 0 then
      let camera := CameraYaw camera
        (- (rl_GetGamepadAxisMovement inp 0 GAMEPAD_AXIS_RIGHT_X * lit 2)
           * CAMERA_MOUSE_MOVE_SENSITIVITY) rotateAroundTarget in
      let camera := CameraPitch camera
        (- (rl_GetGamepadAxisMovement inp 0 GAMEPAD_AXIS_RIGHT_Y * lit 2)
           * CAMERA_MOUSE_MOVE_SENSITIVITY) lockView rotateAroundTarget rotateUp in
      let camera := when (rl_GetGamepadAxisMovement inp 0 GAMEPAD_AXIS_LEFT_Y <=? lit (-0.25))
        (fun c => CameraMoveForward c cameraMoveSpeed moveInWorldPlane) camera in
      let camera := when (rl_GetGamepadAxisMovement inp 0 GAMEPAD_AXIS_LEFT_X <=? lit (-0.25))
        (fun c => CameraMoveRight c (- cameraMoveSpeed) moveInWorldPlane) camera in
      let camera := when (rl_GetGamepadAxisMovement inp 0 GAMEPAD_AXIS_LEFT_Y >=? lit 0.25)
        (fun c => CameraMoveForward c (- cameraMoveSpeed) moveInWorldPlane) camera in
      when (rl_GetGamepadAxisMovement inp 0 GAMEPAD_AXIS_LEFT_X >=? lit 0.25)
        (fun c => CameraMoveRight c cameraMoveSpeed moveInWorldPlane) camera
    else camera in
  if isFree then
    let camera := when (rl_IsKeyDown inp KEY_SPACE)
      (fun c => CameraMoveUp c cameraMoveSpeed) camera in
    when (rl_IsKeyDown inp KEY_LEFT_CONTROL)
      (fun c => CameraMoveUp c (- cameraMoveSpeed)) camera
  else camera.

(** The CAMERA_ORBITAL branch of [rl_UpdateCamera]. *)
Definition update_orbital (inp : Input F) (camera : Cam) : Cam :=
  let cameraOrbitalSpeed := CAMERA_ORBITAL_SPEED * rl_GetFrameTime inp in
  let rotation := MatrixRotate (GetCameraUp camera) cameraOrbitalSpeed in
  let view := Vector3Subtract (position camera) (target camera) in
  let view := Vector3Transform view rotation in
  set_position camera (Vector3Add (target camera) view).

(** The zoom of [rl_UpdateCamera]. *)
Definition update_zoom (inp : Input F) (camera : Cam) : Cam :=
  let camera := CameraMoveToTarget camera (- rl_GetMouseWheelMove inp) in
  let camera := when (rl_IsKeyPressed inp KEY_KP_SUBTRACT)
    (fun c => CameraMoveToTarget c (lit 2)) camera in
  when (rl_IsKeyPressed inp KEY_KP_ADD)
    (fun c => CameraMoveToTarget c (lit (-2))) camera.

Definition rl_UpdateCamera (inp : Input F) (camera : Cam) (mode : Z) : Cam :=
  let moveInWorldPlane :=
    ((mode =? CAMERA_FIRST_PERSON) || (mode =? CAMERA_THIRD_PERSON))%Z in
  let rotateAroundTarget :=
    ((mode =? CAMERA_THIRD_PERSON) || (mode =? CAMERA_ORBITAL))%Z in
  let lockView :=
    ((mode =? CAMERA_FREE) || (mode =? CAMERA_FIRST_PERSON)
     || (mode =? CAMERA_THIRD_PERSON) || (mode =? CAMERA_ORBITAL))%Z in
  let rotateUp := false in
  let camera :=
    if (mode =? CAMERA_CUSTOM)%Z then camera
    else if (mode =? CAMERA_ORBITAL)%Z then update_orbital inp camera
    else update_shared inp camera (mode =? CAMERA_FREE)%Z
           moveInWorldPlane rotateAroundTarget lockView rotateUp in
  if ((mode =? CAMERA_THIRD_PERSON) || (mode =? CAMERA_ORBITAL)
      || (mode =? CAMERA_FREE))%Z
  then update_zoom inp camera
  else camera.

Definition rl_UpdateCameraPro (camera : Cam) (movement rotation : V3)
    (zoom : F) : Cam :=
  let lockView := true in
  let rotateAroundTarget := false in
  let rotateUp := false in
  let moveInWorldPlane := true in
  (* Camera rotation *)
  let camera := CameraPitch camera (- y rotation * rl_DEG2RAD)
                  lockView rotateAroundTarget rotateUp in
  let camera := CameraYaw camera (- x rotation * rl_DEG2RAD) rotateAroundTarget in
  let camera := CameraRoll camera (z rotation * rl_DEG2RAD) in
  (* Camera movement *)
  let camera := CameraMoveForward camera (x movement) moveInWorldPlane in
  let camera := CameraMoveRight camera (y movement) moveInWorldPlane in
  let camera := CameraMoveUp camera (z movement) in
  (* Zoom target distance *)
  CameraMoveToTarget camera zoom.

(** ** The world plane of the movement functions *)

Inductive Axis : Type := AxisX | AxisY | AxisZ.

Definition zero_axis (a : Axis) (v : V3) : V3 :=
  match a with
  | AxisX => zero_x v
  | AxisY => zero_y v
  | AxisZ => zero_z v
  end.

(** The component the code zeroes: z when [|up.z|] is over the threshold,
    otherwise x when [|up.x|] is, otherwise y. *)
Definition world_plane_axis (u : V3) : Axis :=
  if fabsf (z u) >? lit 0.7071 then AxisZ
  else if fabsf (x u) >? lit 0.7071 then AxisX
  else AxisY.

(** The component the specification names: the one most aligned with up,
    that is the component of up of largest magnitude when it is over the
    threshold, and y when no component is. *)
Definition spec_world_plane_axis (u : V3) : Axis :=
  let ax := fabsf (x u) in
  let ay := fabsf (y u) in
  let az := fabsf (z u) in
  if (ay >? lit 0.7071) && (ay >=? ax) && (ay >=? az) then AxisY
  else if (az >? lit 0.7071) && (az >=? ax) then AxisZ
  else if ax >? lit 0.7071 then AxisX
  else AxisY.

(** Translation of position and target by the same vector. *)
Definition translate (camera : Cam) (v : V3) : Cam :=
  mkCamera (Vector3Add (position camera) v) (Vector3Add (target camera) v)
           (up camera) (fovy camera) (projection camera).

(** [CameraMoveForward] and [CameraMoveRight] with the world plane of the
    specification. *)
Definition spec_CameraMoveForward (camera : Cam) (distance : F) : Cam :=
  translate camera
    (Vector3Scale
       (Vector3Normalize
          (zero_axis (spec_world_plane_axis (up camera)) (GetCameraForward camera)))
       distance).

Definition spec_CameraMoveRight (camera : Cam) (distance : F) : Cam :=
  translate camera
    (Vector3Scale
       (Vector3Normalize
          (zero_axis (spec_world_plane_axis (up camera)) (GetCameraRight camera)))
       distance).

(** The direction of CameraMoveForward and of CameraMoveRight. *)
Definition forward_dir (camera : Cam) (moveInWorldPlane : bool) : V3 :=
  if moveInWorldPlane then
    Vector3Normalize
      (zero_axis (world_plane_axis (up camera)) (GetCameraForward camera))
  else GetCameraForward camera.

Definition right_dir (camera : Cam) (moveInWorldPlane : bool) : V3 :=
  if moveInWorldPlane then
    Vector3Normalize
      (zero_axis (world_plane_axis (up camera)) (GetCameraRight camera))
  else GetCameraRight camera.

(** The composition claimed for a pro update that only yaws. *)
Definition yaw_only_update (camera : Cam) (r : F) : Cam :=
  let camera := CameraYaw camera (- r * rl_DEG2RAD) false in
  let camera := CameraMoveForward camera (lit 0) true in
  let camera := CameraMoveRight camera (lit 0) true in
  let camera := CameraMoveUp camera (lit 0) in
  CameraMoveToTarget camera (lit 0).

End Camera.

(** ** Matrix derivation *)

(** The projections of [rl_CameraProjection] (raylib.h). *)
Definition CAMERA_PERSPECTIVE : Z := 0.
Definition CAMERA_ORTHOGRAPHIC : Z := 1.

Section MatrixDerivation.

Context {F : Type} {ops : FloatOps F}.

Local Open Scope float_scope.

(** The matrix constructors of raymath.h and the two culling distances
    (rlgl.h, unless the header is built on its own) are not among the
    sources; the camera code only hands arguments to them, and they are
    taken here as they come.  The scalar type stands for [float] and for
    the [double] of the orthographic bounds alike. *)
Variable MatrixPerspective : F -> F -> F -> F -> Matrix F.
Variable MatrixOrtho : F -> F -> F -> F -> F -> F -> Matrix F.
Variable MatrixIdentity : Matrix F.
Variable CAMERA_CULL_DISTANCE_NEAR : F.
Variable CAMERA_CULL_DISTANCE_FAR : F.

Definition GetCameraProjectionMatrix (camera : Camera F) (aspect : F) : Matrix F :=
  if (projection camera =? CAMERA_PERSPECTIVE)%Z then
    MatrixPerspective (fovy camera * rl_DEG2RAD) aspect
      CAMERA_CULL_DISTANCE_NEAR CAMERA_CULL_DISTANCE_FAR
  else if (projection camera =? CAMERA_ORTHOGRAPHIC)%Z then
    let top := fovy camera / lit 2 in
    let right := top * aspect in
    MatrixOrtho (- right) right (- top) top
      CAMERA_CULL_DISTANCE_NEAR CAMERA_CULL_DISTANCE_FAR
  else MatrixIdentity.

End MatrixDerivation.

(** ** The platform layer: polling the input *)

From Stdlib Require List Strings.Byte.

Module Platform.

Import List Strings.Byte.

Local Open Scope Z_scope.

(** The fields of the global [CORE] that the functions below read or
    write.  The declaration of its type (rcore.c) is not among the sources:
    the fields carry the names the platform files use, and an array is a
    function of the index. *)
Record WindowData : Type := mkWindowData {
  ready : bool;
  shouldClose : bool
}.

Record KeyboardData : Type := mkKeyboardData {
  currentKeyState : Z -> Z;
  previousKeyState : Z -> Z;
  keyRepeatInFrame : Z -> Z;
  keyPressedQueueCount : Z;
  charPressedQueueCount : Z
}.

Record GamepadData : Type := mkGamepadData {
  lastButtonPressed : Z
}.

Record TouchData : Type := mkTouchData {
  currentTouchState : Z -> Z;
  previousTouchState : Z -> Z
}.

Record InputData : Type := mkInputData {
  Keyboard : KeyboardData;
  Gamepad : GamepadData;
  Touch : TouchData
}.

Record CoreData : Type := mkCoreData {
  Window : WindowData;
  Input : InputData
}.

(** [a[i] = v] *)
Definition store (a : Z -> Z) (i v : Z) : Z -> Z :=
  fun j => if j =? i then v else a j.

(** [for (int i = i0; i < i0 + n; i++) body] *)
Fixpoint for_loop {St : Type} (n : nat) (i : Z) (body : Z -> St -> St) (s : St) : St :=
  match n with
  | O => s
  | S n' => for_loop n' (i + 1) body (body i s)
  end.

(** [for (int i = 0; i < bound; i++) body] *)
Definition for_range {St : Type} (bound : Z) (body : Z -> St -> St) (s : St) : St :=
  for_loop (Z.to_nat bound) 0 body s.

(** [keyRepeatInFrame[i] = 0] *)
Definition reset_key_repeat (i : Z) (kb : KeyboardData) : KeyboardData :=
  mkKeyboardData (currentKeyState kb) (previousKeyState kb)
    (store (keyRepeatInFrame kb) i 0)
    (keyPressedQueueCount kb) (charPressedQueueCount kb).

(** [previousTouchState[i] = currentTouchState[i]] *)
Definition register_touch (i : Z) (t : TouchData) : TouchData :=
  mkTouchData (currentTouchState t)
    (store (previousTouchState t) i (currentTouchState t i)).

(** [previousKeyState[i] = currentKeyState[i]; keyRepeatInFrame[i] = 0] *)
Definition register_key (i : Z) (kb : KeyboardData) : KeyboardData :=
  mkKeyboardData (currentKeyState kb)
    (store (previousKeyState kb) i (currentKeyState kb i))
    (store (keyRepeatInFrame kb) i 0)
    (keyPressedQueueCount kb) (charPressedQueueCount kb).

(** The statements of [rl_PollInputEvents] that rcore_template.c and
    rcore_memory.c share, for a build without the gestures system.  The
    sizes MAX_KEYBOARD_KEYS and MAX_TOUCH_POINTS come from the
    configuration, which is not among the sources. *)
Definition poll_registers (MAX_KEYBOARD_KEYS MAX_TOUCH_POINTS : Z)
    (core : CoreData) : CoreData :=
  let kb := Keyboard (Input core) in
  (* Reset keys/chars pressed registered *)
  let kb := mkKeyboardData (currentKeyState kb) (previousKeyState kb)
              (keyRepeatInFrame kb) 0 0 in
  (* Reset key repeats *)
  let kb := for_range MAX_KEYBOARD_KEYS reset_key_repeat kb in
  (* Reset last gamepad button/axis registered state *)
  let gp := mkGamepadData 0 in
  (* Register previous touch states *)
  let touch := for_range MAX_TOUCH_POINTS register_touch (Touch (Input core)) in
  (* Register previous keys states *)
  let kb := for_range 260 register_key kb in
  mkCoreData (Window core) (mkInputData kb gp touch).

(** rcore_template.c *)
Module Template.

Definition rl_PollInputEvents (MAX_KEYBOARD_KEYS MAX_TOUCH_POINTS : Z)
    (core : CoreData) : CoreData :=
  poll_registers MAX_KEYBOARD_KEYS MAX_TOUCH_POINTS core.

End Template.

(** rcore_memory.c, built for a system other than Windows.  The standard
    input is the list of the bytes that wait to be read. *)
Module Memory.

Definition EOF : Z := -1.

Definition getchar (stdin : list byte) : Z * list byte :=
  match stdin with
  | nil => (EOF, nil)
  | b :: rest => (Z.of_N (Byte.to_N b), rest)
  end.

Definition ungetc (ch : Z) (stdin : list byte) : list byte :=
  match Byte.of_N (Z.to_N ch) with
  | Some b => b :: stdin
  | None => stdin
  end.

(** [kbhit] reads without waiting; the terminal settings it changes are put
    back before it returns and are left out. *)
Definition kbhit (stdin : list byte) : Z * list byte :=
  let (ch, stdin) := getchar stdin in
  if negb (ch =? EOF) then (1, ungetc ch stdin) else (0, stdin).

(** The conversion of an [int] to [char], which is signed or not. *)
Definition to_char (char_signed : bool) (c : Z) : Z :=
  if char_signed then (c + 128) mod 256 - 128 else c mod 256.

Definition getch (char_signed : bool) (stdin : list byte) : Z * list byte :=
  let (ch, stdin) := getchar stdin in (to_char char_signed ch, stdin).

Definition rl_WindowShouldClose (core : CoreData) : bool :=
  if ready (Window core) then shouldClose (Window core) else true.

Definition rl_PollInputEvents (MAX_KEYBOARD_KEYS MAX_TOUCH_POINTS : Z)
    (char_signed : bool) (st : CoreData * list byte) : CoreData * list byte :=
  let (core, stdin) := st in
  let core := poll_registers MAX_KEYBOARD_KEYS MAX_TOUCH_POINTS core in
  (* Check for key pressed to exit *)
  let (hit, stdin) := kbhit stdin in
  if negb (hit =? 0) then
    let (key, stdin) := getch char_signed stdin in
    if key =? 27 then
      (mkCoreData (mkWindowData (ready (Window core)) true) (Input core), stdin)
    else (core, stdin)
  else (core, stdin).

(** [n] frames of a loop that polls the input once per frame. *)
Fixpoint poll_frames (MAX_KEYBOARD_KEYS MAX_TOUCH_POINTS : Z)
    (char_signed : bool) (n : nat) (st : CoreData * list byte)
    : CoreData * list byte :=
  match n with
  | O => st
  | S n' =>
      poll_frames MAX_KEYBOARD_KEYS MAX_TOUCH_POINTS char_signed n'
        (rl_PollInputEvents MAX_KEYBOARD_KEYS MAX_TOUCH_POINTS char_signed st)
  end.

End Memory.

End Platform.

(** ** The instance of exact real numbers *)

Module RealModel.

Local Open Scope R_scope.

Definition Rltb (a b : R) : bool := if Rlt_dec a b then true else false.
Definition Rleb (a b : R) : bool := if Rle_dec a b then true else false.
Definition Reqb (a b : R) : bool := if Req_dec_T a b then true else false.

(** The two-argument arc tangent of the C library. *)
Definition Ratan2 (b a : R) : R :=
  if Rlt_dec 0 a then atan (b / a)
  else if Rlt_dec a 0 then
    (if Rle_dec 0 b then atan (b / a) + PI else atan (b / a) - PI)
  else if Rlt_dec 0 b then PI / 2
  else if Rlt_dec b 0 then - (PI / 2)
  else 0.

#[export] Instance RealOps : FloatOps R := {|
  lit := Q2R;
  fPI := PI;
  fadd := Rplus;
  fsub := Rminus;
  fmul := Rmult;
  fdiv := Rdiv;
  fneg := Ropp;
  fabsf := Rabs;
  sqrtf := sqrt;
  sinf := sin;
  cosf := cos;
  atan2f := Ratan2;
  flt := Rltb;
  fle := Rleb;
  feq := Reqb
|}.

Definition vzero : Vector3 R := mkVector3 0 0 0.

(** Squared length of a vector. *)
Definition sqlen (v : Vector3 R) : R := x v * x v + y v * y v + z v * z v.

(** The rotation of the Euler-Rodrigues parameters [(a, w)]. *)
Definition rot (v w : Vector3 R) (a : R) : Vector3 R :=
  Vector3Add
    (Vector3Add v (Vector3Scale (Vector3CrossProduct w v) (a * 2)))
    (Vector3Scale (Vector3CrossProduct w (Vector3CrossProduct w v)) 2).

(** The axis of the pitch of a view vector [v] under the up vector [U],
    and the view vector after the pitch. *)
Definition pitch_axis (U v : Vector3 R) : Vector3 R :=
  Vector3Normalize (Vector3CrossProduct v U).

Definition pitched (U v : Vector3 R) (angle : R) : Vector3 R :=
  Vector3RotateByAxisAngle v (pitch_axis U v) angle.

(** The view vector, from the position to the target. *)
Definition view (c : Camera R) : Vector3 R :=
  Vector3Subtract (target c) (position c).

(** The camera looks neither straight up nor straight down along its up
    vector: the forward vector makes a positive angle with up and with
    its negation. *)
Definition off_poles (c : Camera R) : Prop :=
  0 < Vector3Angle (GetCameraUp c) (GetCameraForward c)
  /\ 0 < Vector3Angle (Vector3Negate (GetCameraUp c)) (GetCameraForward c).

(** The distance CameraMoveToTarget sets. *)
Definition new_distance (c : Camera R) (delta : R) : R :=
  let d := Vector3Distance (position c) (target c) + delta in
  if Rle_dec d 0 then 0.001 else d.


(** The camera of the scenarios of the specification. *)
Definition cam0 : Camera R :=
  mkCamera (mkVector3 0 0 10) (mkVector3 0 0 0) (mkVector3 0 1 0) 45 0.


(** A camera whose up vector (0,2,1) is not of unit length. *)
Definition cam_tilted : Camera R :=
  mkCamera (mkVector3 0 0 0) (mkVector3 0 3 4) (mkVector3 0 2 1) 45 0.

(** A camera whose up vector is of unit length, with two components over
    0.7071. *)
Definition cam_tilted_unit : Camera R :=
  mkCamera (mkVector3 0 0 0) (mkVector3 0 3 4)
           (mkVector3 0 (137904 / 195025) (137903 / 195025)) 45 0.

(** The camera at the origin that looks along its up vector. *)
Definition cam_pole : Camera R :=
  mkCamera (mkVector3 0 0 0) (mkVector3 0 1 0) (mkVector3 0 1 0) 45 0.

(** The camera at the origin that looks 1/2000 off its up vector. *)
Definition cam_near_pole : Camera R :=
  mkCamera (mkVector3 0 0 0) (mkVector3 1 2000 0) (mkVector3 0 1 0) 45 0.

(** An input with the forward key held, no mouse movement, no gamepad and
    a frame time of one second. *)
Definition input_forward : Input R :=
  mkInput (mkVector2 0 0) 0 1
          (fun k => (k =? KEY_W)%Z) (fun _ => false) (fun _ => false)
          (fun _ => false) (fun _ _ => 0).

(** The component of a vector along an axis. *)
Definition axis_component (a : Axis) (v : Vector3 R) : R :=
  match a with
  | AxisX => x v
  | AxisY => y v
  | AxisZ => z v
  end.

(** An input with nothing held, pressed or moved, and a frame time of one
    second. *)
Definition input_idle : Input R :=
  mkInput (mkVector2 0 0) 0 1
          (fun _ => false) (fun _ => false) (fun _ => false)
          (fun _ => false) (fun _ _ => 0).

(** The forward key and the space bar held, the middle mouse button down
    and the wheel turned, with a frame time of one second. *)
Definition input_forward_jump : Input R :=
  mkInput (mkVector2 0 0) 3 1
          (fun k => (k =? KEY_W)%Z || (k =? KEY_SPACE)%Z)
          (fun _ => true) (fun _ => true)
          (fun _ => false) (fun _ _ => 0).

End RealModel.

(** ** The instance of IEEE 754 binary32 *)

From Stdlib Require Floats.SpecFloat.

(** The C type [float] as the binary32 format of IEEE 754, with the
    operations of the standard library's specification of floating-point
    arithmetic (24 bits of mantissa, rounding to nearest, ties to even).
    Addition, subtraction, multiplication, division, square root, negation,
    absolute value and the comparisons are the ones of the standard.  The
    functions [sinf], [cosf] and [atan2f] of the C library are not fixed to
    the bit by any standard: the instance takes them as arguments, and the
    statements made on it hold for every choice of them. *)
Module Binary32.

Import SpecFloat.

Definition prec : Z := 24.
Definition emax : Z := 128.

Definition float32 : Type := spec_float.

(** The conversion of an integer. *)
Definition of_Z (n : Z) : float32 := binary_normalize prec emax n 0 false.

(** A decimal literal [n/d]f, as the rounded quotient of its numerator and
    denominator: this is the float nearest to the literal when both are
    floats, as they are for the literals of rcamera.h. *)
Definition of_Q (q : Q) : float32 :=
  SFdiv prec emax (of_Z (Qnum q)) (of_Z (Zpos (Qden q))).

(** [3.14159265358979323846f] *)
Definition rl_PI : float32 := S754_finite false 13176795 (-22).

Definition Binary32Ops (sinf cosf : float32 -> float32)
    (atan2f : float32 -> float32 -> float32) : FloatOps float32 := {|
  lit := of_Q;
  fPI := rl_PI;
  fadd := SFadd prec emax;
  fsub := SFsub prec emax;
  fmul := SFmul prec emax;
  fdiv := SFdiv prec emax;
  fneg := SFopp;
  fabsf := SFabs;
  sqrtf := SFsqrt prec emax;
  sinf := sinf;
  cosf := cosf;
  atan2f := atan2f;
  flt := SFltb;
  fle := SFleb;
  feq := SFeqb
|}.

(** The camera of the scenarios of the specification. *)
Definition cam0_f32 : Camera float32 :=
  mkCamera (mkVector3 (of_Z 0) (of_Z 0) (of_Z 10))
           (mkVector3 (of_Z 0) (of_Z 0) (of_Z 0))
           (mkVector3 (of_Z 0) (of_Z 1) (of_Z 0)) (of_Z 45) 0.

(** A camera one unit away from its target. *)
Definition cam_near_f32 : Camera float32 :=
  mkCamera (mkVector3 (of_Z 0) (of_Z 0) (of_Z 1))
           (mkVector3 (of_Z 0) (of_Z 0) (of_Z 0))
           (mkVector3 (of_Z 0) (of_Z 1) (of_Z 0)) (of_Z 45) 0.

(** A camera eight units away from a target that is far from the origin. *)
Definition cam_far_f32 : Camera float32 :=
  mkCamera (mkVector3 (of_Z 100008) (of_Z 0) (of_Z 0))
           (mkVector3 (of_Z 100000) (of_Z 0) (of_Z 0))
           (mkVector3 (of_Z 0) (of_Z 1) (of_Z 0)) (of_Z 45) 0.

End Binary32.

(** ** Statements that hold for every arithmetic *)

Section CameraFacts.

Context {F : Type} {ops : FloatOps F}.

Local Open Scope float_scope.

Local Abbreviation V3 := (Vector3 F).
Local Abbreviation Cam := (Camera F).

Lemma CameraMoveForward_translate : forall (camera : Cam) (distance : F) (w : bool),
  CameraMoveForward camera distance w
    = translate camera (Vector3Scale (forward_dir camera w) distance).
Proof.
  intros camera distance w.
  unfold CameraMoveForward, forward_dir, world_plane_axis, translate.
  destruct w; [ | reflexivity ].
  destruct (fabsf (z (up camera)) >? lit 0.7071);
    [ reflexivity | destruct (fabsf (x (up camera)) >? lit 0.7071); reflexivity ].
Qed.

Lemma CameraMoveRight_translate : forall (camera : Cam) (distance : F) (w : bool),
  CameraMoveRight camera distance w
    = translate camera (Vector3Scale (right_dir camera w) distance).
Proof.
  intros camera distance w.
  unfold CameraMoveRight, right_dir, world_plane_axis, translate.
  destruct w; [ | reflexivity ].
  destruct (fabsf (z (up camera)) >? lit 0.7071);
    [ reflexivity | destruct (fabsf (x (up camera)) >? lit 0.7071); reflexivity ].
Qed.

Lemma CameraMoveUp_translate : forall (camera : Cam) (distance : F),
  CameraMoveUp camera distance
    = translate camera (Vector3Scale (GetCameraUp camera) distance).
Proof.
  intros. reflexivity.
Qed.

(** Under lockView the pitch is the pitch by the clamped angle. *)
Lemma CameraPitch_clamped : forall (camera : Cam) (angle : F) (t u : bool),
  CameraPitch camera angle true t u
    = CameraPitch camera (pitch_clamp camera angle) false t u.
Proof.
  intros. reflexivity.
Qed.

(** C6. CameraYaw with rotateAroundTarget = true leaves the target
    unchanged and recomputes only the position; with rotateAroundTarget =
    false it leaves the position unchanged and recomputes only the target;
    up (and fovy and projection) are unchanged in both cases. *)
Theorem CameraYaw_frame : forall (camera : Cam) (angle : F),
  let rotated :=
    Vector3RotateByAxisAngle
      (Vector3Subtract (target camera) (position camera))
      (GetCameraUp camera) angle in
  CameraYaw camera angle true
    = mkCamera (Vector3Subtract (target camera) rotated) (target camera)
               (up camera) (fovy camera) (projection camera)
  /\ CameraYaw camera angle false
    = mkCamera (position camera) (Vector3Add (position camera) rotated)
               (up camera) (fovy camera) (projection camera).
Proof.
  intros camera angle rotated. split; reflexivity.
Qed.

(** C8. CameraRoll leaves position and target (and fovy and projection)
    unchanged; the stored up vector is replaced by its rotation about the
    forward axis by the angle. *)
Theorem CameraRoll_frame : forall (camera : Cam) (angle : F),
  CameraRoll camera angle
    = mkCamera (position camera) (target camera)
               (Vector3RotateByAxisAngle (up camera) (GetCameraForward camera) angle)
               (fovy camera) (projection camera).
Proof.
  intros camera angle. reflexivity.
Qed.

(** C9. rl_UpdateCameraPro applies, in this order, the pitch with
    lockView = true, rotateAroundTarget = false, rotateUp = false, the yaw
    with rotateAroundTarget = false, the roll, the forward and right
    movements with moveInWorldPlane = true, the up movement, and the zoom
    through CameraMoveToTarget; the three rotation components are
    multiplied by rl_DEG2RAD = PI/180, pitch and yaw after negation. *)
Theorem UpdateCameraPro_order : forall (camera : Cam) (movement rotation : V3) (zoom : F),
  rl_UpdateCameraPro camera movement rotation zoom
    = CameraMoveToTarget
        (CameraMoveUp
           (CameraMoveRight
              (CameraMoveForward
                 (CameraRoll
                    (CameraYaw
                       (CameraPitch camera (- y rotation * (fPI / lit 180))
                          true false false)
                       (- x rotation * (fPI / lit 180)) false)
                    (z rotation * (fPI / lit 180)))
                 (x movement) true)
              (y movement) true)
           (z movement))
        zoom.
Proof.
  intros. reflexivity.
Qed.

(** C4 (amended). With moveInWorldPlane = true, CameraMoveForward and
    CameraMoveRight zero one component of the forward (right) vector: z
    when |up.z| > 0.7071, otherwise x when |up.x| > 0.7071, otherwise y;
    they normalize the vector again, scale it by the distance and add it
    to position and target. *)
Theorem CameraMove_world_plane : forall (camera : Cam) (distance : F),
  CameraMoveForward camera distance true
    = translate camera
        (Vector3Scale
           (Vector3Normalize
              (zero_axis (world_plane_axis (up camera)) (GetCameraForward camera)))
           distance)
  /\ CameraMoveRight camera distance true
    = translate camera
        (Vector3Scale
           (Vector3Normalize
              (zero_axis (world_plane_axis (up camera)) (GetCameraRight camera)))
           distance).
Proof.
  intros camera distance. split.
  - apply (CameraMoveForward_translate camera distance true).
  - apply (CameraMoveRight_translate camera distance true).
Qed.

(** The test of the two modes that have a branch of their own. *)
Lemma mode_out_of_range : forall mode : Z,
  (mode < CAMERA_CUSTOM \/ CAMERA_THIRD_PERSON < mode)%Z ->
  (mode =? CAMERA_CUSTOM)%Z = false /\ (mode =? CAMERA_FREE)%Z = false
  /\ (mode =? CAMERA_ORBITAL)%Z = false
  /\ (mode =? CAMERA_FIRST_PERSON)%Z = false
  /\ (mode =? CAMERA_THIRD_PERSON)%Z = false.
Proof.
  unfold CAMERA_CUSTOM, CAMERA_FREE, CAMERA_ORBITAL, CAMERA_FIRST_PERSON,
    CAMERA_THIRD_PERSON.
  intros mode H. repeat split; apply Z.eqb_neq; lia.
Qed.

(** With no key held and no gamepad, the shared branch still applies the
    mouse look. *)
Lemma update_shared_idle : forall (inp : Input F) (camera : Cam)
    (w t l u : bool),
  (forall k, rl_IsKeyDown inp k = false) ->
  rl_IsGamepadAvailable inp 0 = false ->
  update_shared inp camera false w t l u
    = CameraPitch
        (CameraYaw camera
           (- x2 (rl_GetMouseDelta inp) * CAMERA_MOUSE_MOVE_SENSITIVITY) t)
        (- y2 (rl_GetMouseDelta inp) * CAMERA_MOUSE_MOVE_SENSITIVITY) l t u.
Proof.
  intros inp camera w t l u Hk Hg.
  unfold update_shared. rewrite !Hk, Hg. reflexivity.
Qed.

(** C3 (amended). For a mode outside the five values of the enum,
    rl_UpdateCamera takes the branch shared by CAMERA_FREE,
    CAMERA_FIRST_PERSON and CAMERA_THIRD_PERSON, with moveInWorldPlane,
    rotateAroundTarget, lockView and rotateUp all false, without the
    panning and the vertical movement of CAMERA_FREE and without zoom; in
    particular, with no key held and no gamepad it still applies the mouse
    look, a yaw and an unclamped pitch about the position. *)
Theorem UpdateCamera_out_of_range : forall (inp : Input F) (camera : Cam) (mode : Z),
  (mode < CAMERA_CUSTOM \/ CAMERA_THIRD_PERSON < mode)%Z ->
  rl_UpdateCamera inp camera mode
    = update_shared inp camera false false false false false
  /\ ((forall k, rl_IsKeyDown inp k = false) ->
      rl_IsGamepadAvailable inp 0 = false ->
      rl_UpdateCamera inp camera mode
        = CameraPitch
            (CameraYaw camera
               (- x2 (rl_GetMouseDelta inp) * CAMERA_MOUSE_MOVE_SENSITIVITY)
               false)
            (- y2 (rl_GetMouseDelta inp) * CAMERA_MOUSE_MOVE_SENSITIVITY)
            false false false).
Proof.
  intros inp camera mode H.
  destruct (mode_out_of_range mode H) as (H0 & H1 & H2 & H3 & H4).
  assert (E : rl_UpdateCamera inp camera mode
              = update_shared inp camera false false false false false).
  { unfold rl_UpdateCamera. rewrite H0, H1, H2, H3, H4. reflexivity. }
  split; [ exact E | ].
  intros Hk Hg. rewrite E. apply update_shared_idle; assumption.
Qed.

(** CAMERA_CUSTOM is the mode that leaves the camera as it is. *)
Lemma UpdateCamera_custom : forall (inp : Input F) (camera : Cam),
  rl_UpdateCamera inp camera CAMERA_CUSTOM = camera.
Proof.
  intros. reflexivity.
Qed.

(** With only the forward key held and no gamepad, the shared branch
    applies the mouse look and one forward movement. *)
Lemma update_shared_forward_key : forall (inp : Input F) (camera : Cam)
    (w t l u : bool),
  (forall k, rl_IsKeyDown inp k = (k =? KEY_W)%Z) ->
  rl_IsGamepadAvailable inp 0 = false ->
  update_shared inp camera false w t l u
    = CameraMoveForward
        (CameraPitch
           (CameraYaw camera
              (- x2 (rl_GetMouseDelta inp) * CAMERA_MOUSE_MOVE_SENSITIVITY) t)
           (- y2 (rl_GetMouseDelta inp) * CAMERA_MOUSE_MOVE_SENSITIVITY) l t u)
        (CAMERA_MOVE_SPEED * rl_GetFrameTime inp) w.
Proof.
  intros inp camera w t l u Hk Hg.
  unfold update_shared. rewrite !Hk, Hg. reflexivity.
Qed.

(** A pro update with rotation (r, 0, 0), no movement and no zoom is the
    pitch by -0*DEG2RAD under lockView, the yaw by -r*DEG2RAD about the
    position, the roll by 0*DEG2RAD and the four calls with a zero
    delta. *)
Lemma UpdateCameraPro_yaw_only : forall (camera : Cam) (r : F),
  let zero := mkVector3 (lit 0) (lit 0) (lit 0) in
  rl_UpdateCameraPro camera zero (mkVector3 r (lit 0) (lit 0)) (lit 0)
    = CameraMoveToTarget
        (CameraMoveUp
           (CameraMoveRight
              (CameraMoveForward
                 (CameraRoll
                    (CameraYaw
                       (CameraPitch camera (- lit 0 * rl_DEG2RAD) true false false)
                       (- r * rl_DEG2RAD) false)
                    (lit 0 * rl_DEG2RAD))
                 (lit 0) true)
              (lit 0) true)
           (lit 0))
        (lit 0).
Proof.
  intros. reflexivity.
Qed.

End CameraFacts.

(** ** What the updates leave alone *)

Section Frame.

Context {F : Type} {ops : FloatOps F}.

Local Open Scope float_scope.

Local Abbreviation V3 := (Vector3 F).
Local Abbreviation Cam := (Camera F).

Section Observation.

(** An observation of the camera that assignments to position and target
    do not change. *)
Variable X : Type.
Variable P : Cam -> X.
Hypothesis P_position : forall (c : Cam) (v : V3), P (set_position c v) = P c.
Hypothesis P_target : forall (c : Cam) (v : V3), P (set_target c v) = P c.

Lemma frame_when : forall (b : bool) (f : Cam -> Cam) (c : Cam),
  (forall c', P (f c') = P c') -> P (when b f c) = P c.
Proof. intros [] f c H; [ apply H | reflexivity ]. Qed.

Lemma frame_MoveForward : forall (c : Cam) (d : F) (w : bool),
  P (CameraMoveForward c d w) = P c.
Proof. intros. unfold CameraMoveForward. rewrite P_target, P_position. reflexivity. Qed.

Lemma frame_MoveRight : forall (c : Cam) (d : F) (w : bool),
  P (CameraMoveRight c d w) = P c.
Proof. intros. unfold CameraMoveRight. rewrite P_target, P_position. reflexivity. Qed.

Lemma frame_MoveUp : forall (c : Cam) (d : F), P (CameraMoveUp c d) = P c.
Proof. intros. unfold CameraMoveUp. rewrite P_target, P_position. reflexivity. Qed.

Lemma frame_MoveToTarget : forall (c : Cam) (d : F),
  P (CameraMoveToTarget c d) = P c.
Proof. intros. unfold CameraMoveToTarget. apply P_position. Qed.

Lemma frame_Yaw : forall (c : Cam) (a : F) (t : bool),
  P (CameraYaw c a t) = P c.
Proof.
  intros c a t. unfold CameraYaw.
  destruct t; [ apply P_position | apply P_target ].
Qed.

Lemma frame_Pitch : forall (c : Cam) (a : F) (l t : bool),
  P (CameraPitch c a l t false) = P c.
Proof.
  intros c a l t. unfold CameraPitch.
  destruct t; [ apply P_position | apply P_target ].
Qed.

Lemma frame_orbital : forall (inp : Input F) (c : Cam),
  P (update_orbital inp c) = P c.
Proof. intros. unfold update_orbital. apply P_position. Qed.

Lemma frame_zoom : forall (inp : Input F) (c : Cam),
  P (update_zoom inp c) = P c.
Proof.
  intros inp c. unfold update_zoom.
  rewrite !frame_when by (intros; apply frame_MoveToTarget).
  apply frame_MoveToTarget.
Qed.

(** The shared branch, when the roll does not change the observation or
    the two roll keys are up. *)
Lemma frame_shared : forall (inp : Input F) (c : Cam) (isFree w t l : bool),
  (forall (c' : Cam) (a : F), P (CameraRoll c' a) = P c')
  \/ (rl_IsKeyDown inp KEY_Q = false /\ rl_IsKeyDown inp KEY_E = false) ->
  P (update_shared inp c isFree w t l false) = P c.
Proof.
  intros inp c isFree w t l Hroll.
  assert (Hq : forall (a : F) (c' : Cam) (r : X), P c' = r ->
             P (when (rl_IsKeyDown inp KEY_Q) (fun c0 => CameraRoll c0 a) c')
             = r).
  { intros a c' r <-. destruct Hroll as [H | [H _]].
    - apply frame_when. intros. apply H.
    - rewrite H. reflexivity. }
  assert (He : forall (a : F) (c' : Cam) (r : X), P c' = r ->
             P (when (rl_IsKeyDown inp KEY_E) (fun c0 => CameraRoll c0 a) c')
             = r).
  { intros a c' r <-. destruct Hroll as [H | [_ H]].
    - apply frame_when. intros. apply H.
    - rewrite H. reflexivity. }
  unfold update_shared. cbv zeta.
  destruct isFree; cbn [andb];
    [ destruct (rl_IsMouseButtonDown inp MOUSE_BUTTON_MIDDLE) | ];
    destruct (rl_IsGamepadAvailable inp 0);
    repeat
      match goal with
      | |- P (when (rl_IsKeyDown inp KEY_Q) _ _) = _ => apply Hq
      | |- P (when (rl_IsKeyDown inp KEY_E) _ _) = _ => apply He
      | |- P (when ?b ?f ?c0) = _ =>
          transitivity (P c0);
          [ apply frame_when; intros; cbv beta;
            match goal with
            | |- P (CameraMoveForward _ _ _) = _ => apply frame_MoveForward
            | |- P (CameraMoveRight _ _ _) = _ => apply frame_MoveRight
            | |- P (CameraMoveUp _ _) = _ => apply frame_MoveUp
            | |- P (CameraYaw _ _ _) = _ => apply frame_Yaw
            | |- P (CameraPitch _ _ _ _ _) = _ => apply frame_Pitch
            end | ]
      | |- P (CameraYaw ?c0 _ _) = _ =>
          transitivity (P c0); [ apply frame_Yaw | ]
      | |- P (CameraPitch ?c0 _ _ _ _) = _ =>
          transitivity (P c0); [ apply frame_Pitch | ]
      end;
    reflexivity.
Qed.

Lemma frame_UpdateCamera : forall (inp : Input F) (c : Cam) (mode : Z),
  (forall (c' : Cam) (a : F), P (CameraRoll c' a) = P c')
  \/ (rl_IsKeyDown inp KEY_Q = false /\ rl_IsKeyDown inp KEY_E = false) ->
  P (rl_UpdateCamera inp c mode) = P c.
Proof.
  intros inp c mode Hroll. unfold rl_UpdateCamera. cbv zeta.
  assert (H : P (if (mode =? CAMERA_CUSTOM)%Z then c
                 else if (mode =? CAMERA_ORBITAL)%Z then update_orbital inp c
                 else update_shared inp c (mode =? CAMERA_FREE)%Z
                        ((mode =? CAMERA_FIRST_PERSON) || (mode =? CAMERA_THIRD_PERSON))%Z
                        ((mode =? CAMERA_THIRD_PERSON) || (mode =? CAMERA_ORBITAL))%Z
                        ((mode =? CAMERA_FREE) || (mode =? CAMERA_FIRST_PERSON)
                         || (mode =? CAMERA_THIRD_PERSON) || (mode =? CAMERA_ORBITAL))%Z
                        false) = P c).
  { destruct (mode =? CAMERA_CUSTOM)%Z; [ reflexivity | ].
    destruct (mode =? CAMERA_ORBITAL)%Z; [ apply frame_orbital | ].
    apply frame_shared, Hroll. }
  destruct ((mode =? CAMERA_THIRD_PERSON) || (mode =? CAMERA_ORBITAL)
            || (mode =? CAMERA_FREE))%Z.
  - rewrite frame_zoom. exact H.
  - exact H.
Qed.

Lemma frame_UpdateCameraPro : forall (c : Cam) (movement rotation : V3) (zoom : F),
  (forall (c' : Cam) (a : F), P (CameraRoll c' a) = P c') ->
  P (rl_UpdateCameraPro c movement rotation zoom) = P c.
Proof.
  intros c movement rotation zoom Hroll. unfold rl_UpdateCameraPro. cbv zeta.
  rewrite frame_MoveToTarget, frame_MoveUp, frame_MoveRight,
    frame_MoveForward, Hroll, frame_Yaw, frame_Pitch.
  reflexivity.
Qed.

End Observation.

(** rl_UpdateCamera, in every mode and for every input, and
    rl_UpdateCameraPro never change the field of view and the projection
    of the camera. *)
Theorem updates_keep_fovy_and_projection :
  forall (inp : Input F) (c : Cam) (mode : Z) (movement rotation : V3) (zoom : F),
  fovy (rl_UpdateCamera inp c mode) = fovy c
  /\ projection (rl_UpdateCamera inp c mode) = projection c
  /\ fovy (rl_UpdateCameraPro c movement rotation zoom) = fovy c
  /\ projection (rl_UpdateCameraPro c movement rotation zoom) = projection c.
Proof.
  intros inp c mode movement rotation zoom.
  split; [ | split; [ | split ] ].
  - apply (frame_UpdateCamera _ (@fovy F)); try reflexivity. left. reflexivity.
  - apply (frame_UpdateCamera _ (@projection F)); try reflexivity. left. reflexivity.
  - apply (frame_UpdateCameraPro _ (@fovy F)); reflexivity.
  - apply (frame_UpdateCameraPro _ (@projection F)); reflexivity.
Qed.

(** rl_UpdateCamera changes the up vector only through the roll keys:
    when neither KEY_Q nor KEY_E is down, up is unchanged in every mode
    and for every other input. *)
Theorem UpdateCamera_keeps_up : forall (inp : Input F) (c : Cam) (mode : Z),
  rl_IsKeyDown inp KEY_Q = false -> rl_IsKeyDown inp KEY_E = false ->
  up (rl_UpdateCamera inp c mode) = up c.
Proof.
  intros inp c mode Hq He.
  apply (frame_UpdateCamera _ (@up F)); try reflexivity.
  right. split; assumption.
Qed.

(** In CAMERA_ORBITAL mode the update moves only the position, and it
    reads nothing but the frame time, the wheel and the two zoom keys: two
    inputs that agree on these give the same camera, whatever the
    keyboard, the mouse and the gamepad do. *)
Theorem UpdateCamera_orbital_frame : forall (inp inp' : Input F) (c : Cam),
  target (rl_UpdateCamera inp c CAMERA_ORBITAL) = target c
  /\ up (rl_UpdateCamera inp c CAMERA_ORBITAL) = up c
  /\ (rl_GetFrameTime inp = rl_GetFrameTime inp' ->
      rl_GetMouseWheelMove inp = rl_GetMouseWheelMove inp' ->
      rl_IsKeyPressed inp KEY_KP_SUBTRACT = rl_IsKeyPressed inp' KEY_KP_SUBTRACT ->
      rl_IsKeyPressed inp KEY_KP_ADD = rl_IsKeyPressed inp' KEY_KP_ADD ->
      rl_UpdateCamera inp c CAMERA_ORBITAL = rl_UpdateCamera inp' c CAMERA_ORBITAL).
Proof.
  intros inp inp' c.
  change (rl_UpdateCamera inp c CAMERA_ORBITAL)
    with (update_zoom inp (update_orbital inp c)).
  change (rl_UpdateCamera inp' c CAMERA_ORBITAL)
    with (update_zoom inp' (update_orbital inp' c)).
  split; [ | split ].
  - rewrite (frame_zoom _ (@target F)) by reflexivity. reflexivity.
  - rewrite (frame_zoom _ (@up F)) by reflexivity. reflexivity.
  - intros Ht Hw Hs Ha. unfold update_zoom, update_orbital.
    rewrite Ht, Hw, Hs, Ha. reflexivity.
Qed.

End Frame.

(** ** The projection matrix, and the inputs the walking modes read *)

Section Reads.

Context {F : Type} {ops : FloatOps F}.

Local Open Scope float_scope.

Local Abbreviation V3 := (Vector3 F).
Local Abbreviation Cam := (Camera F).

(** The projection matrix is a function of fovy and projection alone, so
    that no update of the camera changes it, whatever the matrix
    constructors and the culling distances are: in particular the zoom,
    which moves the position, does not change the view volume of an
    orthographic camera. *)
Theorem updates_keep_projection_matrix :
  forall (MatrixPerspective : F -> F -> F -> F -> Matrix F)
         (MatrixOrtho : F -> F -> F -> F -> F -> F -> Matrix F)
         (MatrixIdentity : Matrix F) (near far : F)
         (inp : Input F) (c : Cam) (mode : Z) (movement rotation : V3)
         (zoom aspect : F),
  GetCameraProjectionMatrix MatrixPerspective MatrixOrtho MatrixIdentity near far
    (rl_UpdateCamera inp c mode) aspect
  = GetCameraProjectionMatrix MatrixPerspective MatrixOrtho MatrixIdentity near far
      c aspect
  /\ GetCameraProjectionMatrix MatrixPerspective MatrixOrtho MatrixIdentity near far
       (rl_UpdateCameraPro c movement rotation zoom) aspect
     = GetCameraProjectionMatrix MatrixPerspective MatrixOrtho MatrixIdentity near far
         c aspect.
Proof.
  intros MP MO MI near far inp c mode movement rotation zoom aspect.
  assert (H1 : fovy (rl_UpdateCamera inp c mode) = fovy c).
  { apply (frame_UpdateCamera _ (@fovy F)); try reflexivity. left. reflexivity. }
  assert (H2 : projection (rl_UpdateCamera inp c mode) = projection c).
  { apply (frame_UpdateCamera _ (@projection F)); try reflexivity. left. reflexivity. }
  assert (H3 : fovy (rl_UpdateCameraPro c movement rotation zoom) = fovy c).
  { apply (frame_UpdateCameraPro _ (@fovy F)); reflexivity. }
  assert (H4 : projection (rl_UpdateCameraPro c movement rotation zoom) = projection c).
  { apply (frame_UpdateCameraPro _ (@projection F)); reflexivity. }
  unfold GetCameraProjectionMatrix. rewrite H1, H2, H3, H4.
  split; reflexivity.
Qed.

(** CAMERA_FIRST_PERSON and CAMERA_THIRD_PERSON never read the keys of the
    vertical movement, KEY_SPACE and KEY_LEFT_CONTROL, nor the mouse
    buttons, and CAMERA_FIRST_PERSON reads neither the wheel nor the zoom
    keys: two inputs that agree on the rest give the same camera. *)
Theorem walking_modes_ignore : forall (inp inp' : Input F) (c : Cam),
  rl_GetMouseDelta inp = rl_GetMouseDelta inp' ->
  rl_GetFrameTime inp = rl_GetFrameTime inp' ->
  (forall k : Z, k <> KEY_SPACE -> k <> KEY_LEFT_CONTROL ->
     rl_IsKeyDown inp k = rl_IsKeyDown inp' k) ->
  rl_IsGamepadAvailable inp 0 = rl_IsGamepadAvailable inp' 0 ->
  (forall a : Z,
     rl_GetGamepadAxisMovement inp 0 a = rl_GetGamepadAxisMovement inp' 0 a) ->
  rl_UpdateCamera inp c CAMERA_FIRST_PERSON
    = rl_UpdateCamera inp' c CAMERA_FIRST_PERSON
  /\ (rl_GetMouseWheelMove inp = rl_GetMouseWheelMove inp' ->
      rl_IsKeyPressed inp KEY_KP_SUBTRACT = rl_IsKeyPressed inp' KEY_KP_SUBTRACT ->
      rl_IsKeyPressed inp KEY_KP_ADD = rl_IsKeyPressed inp' KEY_KP_ADD ->
      rl_UpdateCamera inp c CAMERA_THIRD_PERSON
        = rl_UpdateCamera inp' c CAMERA_THIRD_PERSON).
Proof.
  intros inp inp' c Hd Ht Hk Hg Ha.
  assert (Hs : forall w t l : bool,
             update_shared inp c false w t l false
             = update_shared inp' c false w t l false).
  { intros w t l. unfold update_shared. cbv zeta. cbn [andb].
    rewrite Hd, Ht, Hg, !Ha.
    rewrite (Hk KEY_DOWN), (Hk KEY_UP), (Hk KEY_RIGHT), (Hk KEY_LEFT),
      (Hk KEY_Q), (Hk KEY_E), (Hk KEY_W), (Hk KEY_A), (Hk KEY_S), (Hk KEY_D)
      by (cbv; discriminate).
    reflexivity. }
  split.
  - change (rl_UpdateCamera inp c CAMERA_FIRST_PERSON)
      with (update_shared inp c false true false true false).
    change (rl_UpdateCamera inp' c CAMERA_FIRST_PERSON)
      with (update_shared inp' c false true false true false).
    apply Hs.
  - intros Hw Hsub Hadd.
    change (rl_UpdateCamera inp c CAMERA_THIRD_PERSON)
      with (update_zoom inp (update_shared inp c false true true true false)).
    change (rl_UpdateCamera inp' c CAMERA_THIRD_PERSON)
      with (update_zoom inp' (update_shared inp' c false true true true false)).
    rewrite Hs. unfold update_zoom. rewrite Hw, Hsub, Hadd. reflexivity.
Qed.

End Reads.

(** ** Statements in exact arithmetic *)

Module Exact.

Import RealModel.

Local Open Scope R_scope.

Local Abbreviation V := (Vector3 R).
Local Abbreviation Cam := (Camera R).

Lemma Rltb_true : forall a b, a < b -> Rltb a b = true.
Proof. intros a b H. unfold Rltb. destruct (Rlt_dec a b); [reflexivity | contradiction]. Qed.

Lemma Rltb_false : forall a b, b <= a -> Rltb a b = false.
Proof. intros a b H. unfold Rltb. destruct (Rlt_dec a b); [lra | reflexivity]. Qed.

Lemma Rleb_true : forall a b, a <= b -> Rleb a b = true.
Proof. intros a b H. unfold Rleb. destruct (Rle_dec a b); [reflexivity | contradiction]. Qed.

Lemma Rleb_false : forall a b, b < a -> Rleb a b = false.
Proof. intros a b H. unfold Rleb. destruct (Rle_dec a b); [lra | reflexivity]. Qed.

Lemma Reqb_true : forall a b, a = b -> Reqb a b = true.
Proof. intros a b H. unfold Reqb. destruct (Req_dec_T a b); [reflexivity | contradiction]. Qed.

Lemma Reqb_false : forall a b, a <> b -> Reqb a b = false.
Proof. intros a b H. unfold Reqb. destruct (Req_dec_T a b); [contradiction | reflexivity]. Qed.

Lemma lit_0 : Q2R 0 = 0.
Proof. lra. Qed.

Lemma lit_1 : Q2R 1 = 1.
Proof. lra. Qed.

Lemma lit_2 : Q2R 2 = 2.
Proof. lra. Qed.

Lemma lit_m1 : Q2R (-1) = -1.
Proof. lra. Qed.

Lemma sqrt_sq : forall a b : R, 0 <= b -> a = b * b -> sqrt a = b.
Proof. intros a b Hb ->. apply sqrt_square, Hb. Qed.

Lemma vec_eq : forall (a b : V), x a = x b -> y a = y b -> z a = z b -> a = b.
Proof. intros [] [] ; simpl; intros; subst; reflexivity. Qed.

Lemma sqlen_nonneg : forall v, 0 <= sqlen v.
Proof. intros v. unfold sqlen. nra. Qed.

Lemma Vector3Length_eq : forall v : V, Vector3Length v = sqrt (sqlen v).
Proof. reflexivity. Qed.

Lemma Vector3Length_nonneg : forall v : V, 0 <= Vector3Length v.
Proof. intros v. apply sqrt_pos. Qed.

Lemma Vector3Length_sqr : forall v : V, Vector3Length v * Vector3Length v = sqlen v.
Proof. intros v. rewrite Vector3Length_eq. apply sqrt_sqrt, sqlen_nonneg. Qed.

Lemma Vector3Length_zero : forall v : V, Vector3Length v = 0 -> v = vzero.
Proof.
  intros v H. rewrite Vector3Length_eq in H.
  apply sqrt_eq_0 in H; [ | apply sqlen_nonneg ].
  unfold sqlen in H. apply vec_eq; simpl; nra.
Qed.

Lemma Vector3Length_pos : forall v : V, v <> vzero -> 0 < Vector3Length v.
Proof.
  intros v H. destruct (Vector3Length_nonneg v) as [Hp | Hz]; [ exact Hp | ].
  exfalso. apply H. apply Vector3Length_zero. symmetry. exact Hz.
Qed.

Lemma sqlen_zero : forall v, sqlen v = 0 -> v = vzero.
Proof. intros v H. unfold sqlen in H. apply vec_eq; simpl; nra. Qed.

Lemma sqlen_pos : forall v, v <> vzero -> 0 < sqlen v.
Proof.
  intros v H. destruct (sqlen_nonneg v) as [Hp | Hz]; [ exact Hp | ].
  exfalso. apply H, sqlen_zero. symmetry. exact Hz.
Qed.

Lemma sqlen_vzero : sqlen vzero = 0.
Proof. unfold sqlen, vzero. simpl. ring. Qed.

Lemma Vector3Length_vzero : Vector3Length vzero = 0.
Proof. rewrite Vector3Length_eq, sqlen_vzero. apply sqrt_0. Qed.

Lemma Vector3Length_unit : forall v : V, sqlen v = 1 -> Vector3Length v = 1.
Proof. intros v H. rewrite Vector3Length_eq, H. apply sqrt_1. Qed.

Lemma Vector3Distance_eq : forall a b : V,
  Vector3Distance a b = Vector3Length (Vector3Subtract b a).
Proof. reflexivity. Qed.

(** Vector3Normalize in the notation of the reals. *)
Lemma Vector3Normalize_eq : forall v : V,
  Vector3Normalize v
    = if Req_dec_T (Vector3Length v) 0 then v
      else Vector3Scale v (/ Vector3Length v).
Proof.
  intros v. unfold Vector3Normalize.
  change (Vector3Length v !=? lit 0)%fl
    with (negb (Reqb (Vector3Length v) (Q2R 0))).
  rewrite lit_0. unfold Reqb.
  destruct (Req_dec_T (Vector3Length v) 0) as [E | E]; simpl.
  - reflexivity.
  - apply vec_eq; simpl; rewrite lit_1; unfold Rdiv; ring.
Qed.

Lemma Vector3Normalize_vzero : Vector3Normalize vzero = vzero.
Proof.
  rewrite Vector3Normalize_eq.
  destruct (Req_dec_T (Vector3Length vzero) 0) as [E | E]; [ reflexivity | ].
  exfalso. apply E, Vector3Length_vzero.
Qed.

Lemma Vector3Normalize_nonzero : forall v : V, v <> vzero ->
  Vector3Normalize v = Vector3Scale v (/ Vector3Length v).
Proof.
  intros v H. rewrite Vector3Normalize_eq.
  destruct (Req_dec_T (Vector3Length v) 0) as [E | E]; [ | reflexivity ].
  exfalso. apply H, Vector3Length_zero, E.
Qed.

Lemma sqlen_scale : forall (v : V) (s : R),
  sqlen (Vector3Scale v s) = s * s * sqlen v.
Proof. intros v s. unfold sqlen. simpl. ring. Qed.

Lemma Vector3Normalize_unit : forall v : V, v <> vzero ->
  sqlen (Vector3Normalize v) = 1.
Proof.
  intros v H. rewrite (Vector3Normalize_nonzero v H), sqlen_scale.
  pose proof (Vector3Length_pos v H) as Hp.
  rewrite <- (Vector3Length_sqr v). field. lra.
Qed.

Lemma Vector3Normalize_zero_iff : forall v : V,
  Vector3Normalize v = vzero <-> v = vzero.
Proof.
  intros v. split; intros H.
  - destruct (Req_dec_T (Vector3Length v) 0) as [E | E].
    + apply Vector3Length_zero, E.
    + assert (Hn : v <> vzero).
      { intros Hv. apply E. rewrite Hv. apply Vector3Length_vzero. }
      pose proof (Vector3Normalize_unit v Hn) as Hu.
      rewrite H, sqlen_vzero in Hu. lra.
  - rewrite H. apply Vector3Normalize_vzero.
Qed.

Lemma Vector3Length_scale : forall (v : V) (s : R), 0 <= s ->
  Vector3Length (Vector3Scale v s) = s * Vector3Length v.
Proof.
  intros v s Hs. rewrite !Vector3Length_eq, sqlen_scale.
  rewrite sqrt_mult; [ | nra | apply sqlen_nonneg ].
  rewrite sqrt_square; [ reflexivity | exact Hs ].
Qed.

Lemma Vector3Normalize_known : forall (v : V) (L : R),
  0 < L -> sqlen v = L * L -> Vector3Normalize v = Vector3Scale v (/ L).
Proof.
  intros v L HL Hs.
  assert (E : Vector3Length v = L).
  { rewrite Vector3Length_eq. apply sqrt_sq; [ lra | exact Hs ]. }
  rewrite Vector3Normalize_eq, E.
  destruct (Req_dec_T L 0); [ lra | reflexivity ].
Qed.

(** ** Vector algebra *)

Lemma sub_add_cancel : forall p t v : V,
  Vector3Subtract (Vector3Add t v) (Vector3Add p v) = Vector3Subtract t p.
Proof. intros. apply vec_eq; simpl; ring. Qed.

Lemma add_sub_cancel : forall p t : V,
  Vector3Add p (Vector3Subtract t p) = t.
Proof. intros p []. apply vec_eq; simpl; ring. Qed.

Lemma sub_sub_cancel : forall t v : V,
  Vector3Subtract t (Vector3Subtract t v) = v.
Proof. intros t []. apply vec_eq; simpl; ring. Qed.

Lemma sub_add_left : forall p v : V,
  Vector3Subtract (Vector3Add p v) p = v.
Proof. intros p []. apply vec_eq; simpl; ring. Qed.

Lemma add_scale_0 : forall p v : V, Vector3Add p (Vector3Scale v 0) = p.
Proof. intros [] v. apply vec_eq; simpl; ring. Qed.

Lemma add_scale_opp : forall (p v : V) (d : R),
  Vector3Add (Vector3Add p (Vector3Scale v d)) (Vector3Scale v (- d)) = p.
Proof. intros [] v d. apply vec_eq; simpl; ring. Qed.

Lemma sub_eq_vzero : forall p t : V, Vector3Subtract t p = vzero <-> p = t.
Proof.
  intros [] []. split; intros H.
  - injection H as H1 H2 H3. simpl in *.
    f_equal; lra.
  - injection H as H1 H2 H3. subst. apply vec_eq; simpl; ring.
Qed.

(** ** Rotation about an axis *)

Lemma Vector3RotateByAxisAngle_eq : forall (v axis : V) (angle : R),
  Vector3RotateByAxisAngle v axis angle
    = rot v (Vector3Scale (Vector3Normalize axis) (sin (angle / 2)))
            (cos (angle / 2)).
Proof.
  intros v axis angle. unfold Vector3RotateByAxisAngle, rot.
  change (Vector3Length axis =? lit 0)%fl with (Reqb (Vector3Length axis) (Q2R 0)).
  change (lit 1) with (Q2R 1). change (lit 2) with (Q2R 2).
  rewrite lit_0, lit_1, lit_2.
  rewrite Vector3Normalize_eq. unfold Reqb.
  destruct (Req_dec_T (Vector3Length axis) 0) as [E | E].
  - pose proof (Vector3Length_zero _ E) as Hz. rewrite Hz.
    apply vec_eq; simpl; unfold Rdiv; ring.
  - apply vec_eq; simpl; unfold Rdiv; ring.
Qed.

Lemma rot_sqlen : forall (v w : V) (a : R),
  a * a + sqlen w = 1 -> sqlen (rot v w a) = sqlen v.
Proof.
  intros [vx vy vz] [wx wy wz] a. unfold sqlen, rot. simpl. intros H. nsatz.
Qed.

Lemma rot_vzero : forall (v : V) (a : R), rot v vzero a = v.
Proof. intros [vx vy vz] a. apply vec_eq; simpl; ring. Qed.

Lemma sin_cos_half : forall t : R, cos t * cos t + sin t * sin t = 1.
Proof. intros t. pose proof (sin2_cos2 t) as H. unfold Rsqr in H. lra. Qed.

(** A rotation keeps the length of the vector, whatever the axis. *)
Lemma Vector3RotateByAxisAngle_sqlen : forall (v axis : V) (angle : R),
  sqlen (Vector3RotateByAxisAngle v axis angle) = sqlen v.
Proof.
  intros v axis angle. rewrite Vector3RotateByAxisAngle_eq.
  destruct (Req_dec_T (Vector3Length axis) 0) as [E | E].
  - rewrite (Vector3Length_zero _ E), Vector3Normalize_vzero.
    replace (Vector3Scale vzero (sin (angle / 2))) with vzero
      by (apply vec_eq; simpl; ring).
    rewrite rot_vzero. reflexivity.
  - apply rot_sqlen. rewrite sqlen_scale, Vector3Normalize_unit.
    + pose proof (sin_cos_half (angle / 2)). lra.
    + intros Hz. apply E. rewrite Hz. apply Vector3Length_vzero.
Qed.

Lemma Vector3RotateByAxisAngle_nonzero : forall (v axis : V) (angle : R),
  v <> vzero -> Vector3RotateByAxisAngle v axis angle <> vzero.
Proof.
  intros v axis angle Hv Hr.
  pose proof (Vector3RotateByAxisAngle_sqlen v axis angle) as H.
  rewrite Hr, sqlen_vzero in H.
  apply Hv, sqlen_zero. symmetry. exact H.
Qed.

(** A rotation by the angle zero is the identity. *)
Lemma Vector3RotateByAxisAngle_0 : forall (v axis : V),
  Vector3RotateByAxisAngle v axis 0 = v.
Proof.
  intros v axis. rewrite Vector3RotateByAxisAngle_eq.
  replace (0 / 2) with 0 by field. rewrite sin_0, cos_0.
  destruct v as [vx vy vz]. apply vec_eq; simpl; ring.
Qed.

(** ** The two-argument arc tangent *)

Lemma Ratan2_b0 : forall a : R, 0 <= a -> Ratan2 0 a = 0.
Proof.
  intros a Ha. unfold Ratan2.
  destruct (Rlt_dec 0 a) as [H | H].
  - replace (0 / a) with 0 by (field; lra). apply atan_0.
  - destruct (Rlt_dec a 0); [ lra | ].
    destruct (Rlt_dec 0 0); [ lra | reflexivity ].
Qed.

Lemma Ratan2_b0_neg : forall a : R, a < 0 -> Ratan2 0 a = PI.
Proof.
  intros a Ha. unfold Ratan2.
  destruct (Rlt_dec 0 a) as [H | H]; [ lra | ].
  destruct (Rlt_dec a 0) as [H' | H']; [ | lra ].
  destruct (Rle_dec 0 0); [ | lra ].
  replace (0 / a) with 0 by (field; lra). rewrite atan_0. ring.
Qed.

(** The angle of the point with polar coordinates [(rho, beta)]. *)
Lemma Ratan2_of_polar : forall rho beta : R,
  0 < rho -> 0 < beta < PI ->
  Ratan2 (rho * sin beta) (rho * cos beta) = beta.
Proof.
  intros rho beta Hr [Hb0 Hb1].
  assert (Hs : 0 < sin beta) by (apply sin_gt_0; assumption).
  unfold Ratan2.
  destruct (Rtotal_order beta (PI / 2)) as [Hlt | [Heq | Hgt]].
  - assert (Hc : 0 < cos beta) by (apply cos_gt_0; lra).
    destruct (Rlt_dec 0 (rho * cos beta)) as [H | H]; [ | exfalso; nra ].
    replace (rho * sin beta / (rho * cos beta)) with (tan beta)
      by (unfold tan; field; lra).
    apply atan_tan. lra.
  - rewrite Heq, cos_PI2, sin_PI2.
    destruct (Rlt_dec 0 (rho * 0)) as [H | H]; [ lra | ].
    destruct (Rlt_dec (rho * 0) 0) as [H' | H']; [ lra | ].
    destruct (Rlt_dec 0 (rho * 1)) as [H'' | H'']; [ reflexivity | lra ].
  - assert (Hc : cos beta < 0) by (apply cos_lt_0; lra).
    destruct (Rlt_dec 0 (rho * cos beta)) as [H | H]; [ exfalso; nra | ].
    destruct (Rlt_dec (rho * cos beta) 0) as [H' | H']; [ | exfalso; nra ].
    destruct (Rle_dec 0 (rho * sin beta)) as [H'' | H'']; [ | exfalso; nra ].
    replace (rho * sin beta / (rho * cos beta)) with (tan (beta - PI)).
    + rewrite atan_tan; lra.
    + unfold tan. rewrite sin_minus, cos_minus, sin_PI, cos_PI. field. lra.
Qed.

(** Polar coordinates of a point of the upper half plane. *)
Lemma Ratan2_polar : forall b a : R,
  0 < b ->
  0 < Ratan2 b a < PI
  /\ b = sqrt (a * a + b * b) * sin (Ratan2 b a)
  /\ a = sqrt (a * a + b * b) * cos (Ratan2 b a).
Proof.
  intros b a Hb.
  pose proof PI_RGT_0 as Hpi.
  assert (Hrho : 0 < sqrt (a * a + b * b)) by (apply sqrt_lt_R0; nra).
  unfold Ratan2.
  destruct (Rlt_dec 0 a) as [Ha | Ha].
  - set (t := b / a).
    assert (Ht : 0 < t) by (unfold t; apply Rdiv_lt_0_compat; assumption).
    assert (Hbt : b = a * t) by (unfold t; field; lra).
    clearbody t.
    assert (Hs : 0 < sqrt (1 + t²)) by (apply sqrt_lt_R0; unfold Rsqr; nra).
    assert (Hrs : sqrt (a * a + b * b) = a * sqrt (1 + t²)).
    { apply sqrt_sq; [ nra | ].
      replace (a * sqrt (1 + t²) * (a * sqrt (1 + t²)))
        with (a * a * (sqrt (1 + t²) * sqrt (1 + t²))) by ring.
      rewrite sqrt_sqrt by (unfold Rsqr; nra).
      rewrite Hbt. unfold Rsqr. ring. }
    split; [ | split ].
    + pose proof (atan_bound t). pose proof (atan_increasing 0 t Ht) as Hi.
      rewrite atan_0 in Hi. lra.
    + rewrite sin_atan, Hrs. rewrite Hbt at 1. field. lra.
    + rewrite cos_atan, Hrs. field. lra.
  - destruct (Rlt_dec a 0) as [Ha' | Ha'].
    + destruct (Rle_dec 0 b) as [Hb' | Hb']; [ | lra ].
      set (t := b / a).
      assert (Ht : t < 0).
      { unfold t. unfold Rdiv.
        assert (/ a < 0) by (apply Rinv_lt_0_compat; assumption). nra. }
      assert (Hbt : b = a * t) by (unfold t; field; lra).
      clearbody t.
      assert (Hs : 0 < sqrt (1 + t²)) by (apply sqrt_lt_R0; unfold Rsqr; nra).
      assert (Hrs : sqrt (a * a + b * b) = - a * sqrt (1 + t²)).
      { apply sqrt_sq; [ nra | ].
        replace (- a * sqrt (1 + t²) * (- a * sqrt (1 + t²)))
          with (a * a * (sqrt (1 + t²) * sqrt (1 + t²))) by ring.
        rewrite sqrt_sqrt by (unfold Rsqr; nra).
        rewrite Hbt. unfold Rsqr. ring. }
      split; [ | split ].
      * pose proof (atan_bound t). pose proof (atan_increasing t 0 Ht) as Hi.
        rewrite atan_0 in Hi. lra.
      * rewrite neg_sin, sin_atan, Hrs. rewrite Hbt at 1. field. lra.
      * rewrite neg_cos, cos_atan, Hrs. field. lra.
    + assert (a = 0) by lra. subst a.
      destruct (Rlt_dec 0 b) as [Hb' | Hb']; [ | lra ].
      rewrite sin_PI2, cos_PI2.
      replace (0 * 0 + b * b) with (b * b) by ring.
      rewrite sqrt_square by lra.
      split; [ lra | split; ring ].
Qed.

Lemma Ratan2_opp : forall b a : R,
  0 < b -> Ratan2 b (- a) = PI - Ratan2 b a.
Proof.
  intros b a Hb.
  destruct (Ratan2_polar b a Hb) as (Hr & Hsin & Hcos).
  assert (Hrho : 0 < sqrt (a * a + b * b)) by (apply sqrt_lt_R0; nra).
  set (rho := sqrt (a * a + b * b)) in *.
  set (beta := Ratan2 b a) in *.
  transitivity (Ratan2 (rho * sin (PI - beta)) (rho * cos (PI - beta))).
  - f_equal.
    + rewrite sin_PI_x. exact Hsin.
    + rewrite Rtrigo_facts.cos_pi_minus. lra.
  - apply Ratan2_of_polar; lra.
Qed.

Lemma Ratan2_scale : forall s b a : R,
  0 < s -> 0 < b -> Ratan2 (s * b) (s * a) = Ratan2 b a.
Proof.
  intros s b a Hs Hb.
  destruct (Ratan2_polar b a Hb) as (Hr & Hsin & Hcos).
  assert (Hrho : 0 < sqrt (a * a + b * b)) by (apply sqrt_lt_R0; nra).
  set (rho := sqrt (a * a + b * b)) in *.
  set (beta := Ratan2 b a) in *.
  transitivity (Ratan2 (s * rho * sin beta) (s * rho * cos beta)).
  - f_equal; nra.
  - apply Ratan2_of_polar; [ nra | lra ].
Qed.

Lemma Ratan2_b0_scale : forall s a : R,
  0 < s -> Ratan2 0 (s * a) = Ratan2 0 a.
Proof.
  intros s a Hs. destruct (Rle_or_lt 0 a) as [Ha | Ha].
  - rewrite !Ratan2_b0; [ reflexivity | lra | nra ].
  - rewrite !Ratan2_b0_neg; [ reflexivity | lra | nra ].
Qed.

(** ** Dot and cross products *)

Lemma lagrange : forall a b : V,
  sqlen (Vector3CrossProduct a b)
    = sqlen a * sqlen b - Vector3DotProduct a b * Vector3DotProduct a b.
Proof. intros [] []. unfold sqlen. cbn. ring. Qed.

Lemma cross_scale_l : forall (a b : V) (s : R),
  Vector3CrossProduct (Vector3Scale a s) b
    = Vector3Scale (Vector3CrossProduct a b) s.
Proof. intros [] [] s. apply vec_eq; cbn; ring. Qed.

Lemma cross_scale_r : forall (a b : V) (s : R),
  Vector3CrossProduct a (Vector3Scale b s)
    = Vector3Scale (Vector3CrossProduct a b) s.
Proof. intros [] [] s. apply vec_eq; cbn; ring. Qed.

Lemma dot_scale_l : forall (a b : V) (s : R),
  Vector3DotProduct (Vector3Scale a s) b = s * Vector3DotProduct a b.
Proof. intros [] [] s. cbn. ring. Qed.

Lemma dot_scale_r : forall (a b : V) (s : R),
  Vector3DotProduct a (Vector3Scale b s) = s * Vector3DotProduct a b.
Proof. intros [] [] s. cbn. ring. Qed.

Lemma cross_negate_l : forall a b : V,
  Vector3CrossProduct (Vector3Negate a) b
    = Vector3Scale (Vector3CrossProduct a b) (-1).
Proof. intros [] []. apply vec_eq; cbn; ring. Qed.

Lemma dot_negate_l : forall a b : V,
  Vector3DotProduct (Vector3Negate a) b = - Vector3DotProduct a b.
Proof. intros [] []. cbn. ring. Qed.

Lemma cross_anticomm_sqlen : forall a b : V,
  sqlen (Vector3CrossProduct a b) = sqlen (Vector3CrossProduct b a).
Proof. intros [] []. unfold sqlen. cbn. ring. Qed.

Lemma scale_vzero : forall s : R, Vector3Scale vzero s = vzero.
Proof. intros s. apply vec_eq; cbn; ring. Qed.

Lemma scale_nonzero : forall (v : V) (s : R),
  v <> vzero -> s <> 0 -> Vector3Scale v s <> vzero.
Proof.
  intros v s Hv Hs E. apply Hv. apply sqlen_zero.
  assert (H : sqlen (Vector3Scale v s) = 0) by (rewrite E; apply sqlen_vzero).
  rewrite sqlen_scale in H.
  assert (Hss : s * s <> 0) by nra.
  apply (Rmult_eq_reg_l (s * s)); [ lra | exact Hss ].
Qed.

Lemma Vector3Length_sqlen_eq : forall a b : V,
  sqlen a = sqlen b -> Vector3Length a = Vector3Length b.
Proof. intros a b H. rewrite !Vector3Length_eq, H. reflexivity. Qed.

Lemma Vector3Length_scale_abs : forall (v : V) (s : R),
  Vector3Length (Vector3Scale v s) = Rabs s * Vector3Length v.
Proof.
  intros v s. rewrite !Vector3Length_eq, sqlen_scale.
  rewrite sqrt_mult; [ | nra | apply sqlen_nonneg ].
  fold (Rsqr s). rewrite sqrt_Rsqr_abs. reflexivity.
Qed.

Lemma Vector3Normalize_scale_pos : forall (v : V) (s : R),
  0 < s -> Vector3Normalize (Vector3Scale v s) = Vector3Normalize v.
Proof.
  intros v s Hs.
  destruct (Req_dec_T (Vector3Length v) 0) as [E | E].
  - rewrite (Vector3Length_zero v E), scale_vzero. reflexivity.
  - assert (Hv : v <> vzero).
    { intros Hz. apply E. rewrite Hz. apply Vector3Length_vzero. }
    pose proof (Vector3Length_pos v Hv) as Hp.
    rewrite (Vector3Normalize_nonzero v Hv).
    rewrite (Vector3Normalize_nonzero (Vector3Scale v s))
      by (apply scale_nonzero; [ exact Hv | lra ]).
    rewrite Vector3Length_scale by lra.
    destruct v as [vx vy vz]. apply vec_eq; cbn [x y z Vector3Scale fmul RealOps];
      field; lra.
Qed.

Lemma Vector3Normalize_unit_id : forall v : V,
  sqlen v = 1 -> Vector3Normalize v = v.
Proof.
  intros v H. rewrite (Vector3Normalize_known v 1); [ | lra | lra ].
  destruct v. apply vec_eq; cbn; field.
Qed.

(** ** The angle between two vectors *)

Lemma Vector3Angle_eq : forall a b : V,
  Vector3Angle a b
    = Ratan2 (Vector3Length (Vector3CrossProduct a b)) (Vector3DotProduct a b).
Proof. reflexivity. Qed.

Lemma Vector3Angle_scale_r : forall (a b : V) (s : R),
  0 < s -> Vector3Angle a (Vector3Scale b s) = Vector3Angle a b.
Proof.
  intros a b s Hs. rewrite !Vector3Angle_eq.
  rewrite cross_scale_r, dot_scale_r, Vector3Length_scale by lra.
  destruct (Vector3Length_nonneg (Vector3CrossProduct a b)) as [Hp | Hz].
  - apply Ratan2_scale; assumption.
  - rewrite <- Hz, Rmult_0_r. apply Ratan2_b0_scale, Hs.
Qed.

Lemma Vector3Angle_scale_l : forall (a b : V) (s : R),
  0 < s -> Vector3Angle (Vector3Scale a s) b = Vector3Angle a b.
Proof.
  intros a b s Hs. rewrite !Vector3Angle_eq.
  rewrite cross_scale_l, dot_scale_l, Vector3Length_scale by lra.
  destruct (Vector3Length_nonneg (Vector3CrossProduct a b)) as [Hp | Hz].
  - apply Ratan2_scale; assumption.
  - rewrite <- Hz, Rmult_0_r. apply Ratan2_b0_scale, Hs.
Qed.

Lemma Vector3Angle_normalize_r : forall a b : V,
  Vector3Angle a (Vector3Normalize b) = Vector3Angle a b.
Proof.
  intros a b. rewrite Vector3Normalize_eq.
  destruct (Req_dec_T (Vector3Length b) 0) as [E | E]; [ reflexivity | ].
  apply Vector3Angle_scale_r. apply Rinv_0_lt_compat.
  pose proof (Vector3Length_nonneg b). lra.
Qed.

Lemma Vector3Angle_normalize_l : forall a b : V,
  Vector3Angle (Vector3Normalize a) b = Vector3Angle a b.
Proof.
  intros a b. rewrite Vector3Normalize_eq.
  destruct (Req_dec_T (Vector3Length a) 0) as [E | E]; [ reflexivity | ].
  apply Vector3Angle_scale_l. apply Rinv_0_lt_compat.
  pose proof (Vector3Length_nonneg a). lra.
Qed.

Lemma Vector3Angle_range : forall a b : V,
  Vector3CrossProduct a b <> vzero -> 0 < Vector3Angle a b < PI.
Proof.
  intros a b H. rewrite Vector3Angle_eq.
  apply Ratan2_polar. apply Vector3Length_pos, H.
Qed.

(** The angle is in [0, PI], as the specification states. *)
Lemma Vector3Angle_bounds : forall a b : V, 0 <= Vector3Angle a b <= PI.
Proof.
  intros a b. pose proof PI_RGT_0 as Hpi.
  destruct (Vector3Length_nonneg (Vector3CrossProduct a b)) as [Hp | Hz].
  - rewrite Vector3Angle_eq.
    destruct (Ratan2_polar _ (Vector3DotProduct a b) Hp) as (Hr & _). lra.
  - rewrite Vector3Angle_eq, <- Hz.
    destruct (Rle_or_lt 0 (Vector3DotProduct a b)) as [Hd | Hd].
    + rewrite Ratan2_b0 by exact Hd. lra.
    + rewrite Ratan2_b0_neg by exact Hd. lra.
Qed.

Lemma Vector3Angle_negate : forall a b : V,
  Vector3CrossProduct a b <> vzero ->
  Vector3Angle (Vector3Negate a) b = PI - Vector3Angle a b.
Proof.
  intros a b H. rewrite !Vector3Angle_eq.
  rewrite cross_negate_l, dot_negate_l, Vector3Length_scale_abs.
  replace (Rabs (-1)) with 1 by (rewrite Rabs_left; lra).
  rewrite Rmult_1_l.
  apply Ratan2_opp. apply Vector3Length_pos, H.
Qed.

(** The two angles to up and to its negation are positive exactly when
    the two vectors are not on one line. *)
Lemma off_poles_iff : forall a b : V,
  (0 < Vector3Angle a b /\ 0 < Vector3Angle (Vector3Negate a) b)
  <-> Vector3CrossProduct a b <> vzero.
Proof.
  intros a b. split.
  - intros [H1 H2] E. rewrite Vector3Angle_eq in H1, H2.
    rewrite cross_negate_l, dot_negate_l, E, scale_vzero in H2.
    rewrite E in H1. rewrite Vector3Length_vzero in H1, H2.
    destruct (Rle_or_lt 0 (Vector3DotProduct a b)) as [Hd | Hd].
    + rewrite Ratan2_b0 in H1 by exact Hd. lra.
    + rewrite Ratan2_b0 in H2 by lra. lra.
  - intros H. pose proof (Vector3Angle_range a b H) as Hr.
    rewrite (Vector3Angle_negate a b H). lra.
Qed.

Lemma Vector3Angle_parallel : forall a b : V,
  Vector3CrossProduct a b = vzero -> 0 <= Vector3DotProduct a b ->
  Vector3Angle a b = 0.
Proof.
  intros a b E Hd. rewrite Vector3Angle_eq, E, Vector3Length_vzero.
  apply Ratan2_b0, Hd.
Qed.

(** ** Rotations keep dot products and angles *)

Lemma rot_dot : forall (p q w : V) (a : R),
  a * a + sqlen w = 1 ->
  Vector3DotProduct (rot p w a) (rot q w a) = Vector3DotProduct p q.
Proof.
  intros [px py pz] [qx qy qz] [wx wy wz] a. unfold sqlen, rot. cbn.
  intros H. nsatz.
Qed.

Lemma Vector3RotateByAxisAngle_dot : forall (p q axis : V) (angle : R),
  Vector3DotProduct (Vector3RotateByAxisAngle p axis angle)
                    (Vector3RotateByAxisAngle q axis angle)
    = Vector3DotProduct p q.
Proof.
  intros p q axis angle. rewrite !Vector3RotateByAxisAngle_eq.
  destruct (Req_dec_T (Vector3Length axis) 0) as [E | E].
  - rewrite (Vector3Length_zero _ E), Vector3Normalize_vzero, scale_vzero.
    rewrite !rot_vzero. reflexivity.
  - apply rot_dot. rewrite sqlen_scale, Vector3Normalize_unit.
    + pose proof (sin_cos_half (angle / 2)). lra.
    + intros Hz. apply E. rewrite Hz. apply Vector3Length_vzero.
Qed.

Lemma Vector3RotateByAxisAngle_angle : forall (p q axis : V) (angle : R),
  Vector3Angle (Vector3RotateByAxisAngle p axis angle)
               (Vector3RotateByAxisAngle q axis angle)
    = Vector3Angle p q.
Proof.
  intros p q axis angle. rewrite !Vector3Angle_eq.
  rewrite Vector3RotateByAxisAngle_dot. f_equal.
  apply Vector3Length_sqlen_eq.
  rewrite !lagrange, !Vector3RotateByAxisAngle_sqlen.
  rewrite Vector3RotateByAxisAngle_dot. reflexivity.
Qed.

Lemma Vector3RotateByAxisAngle_cross_nonzero : forall (p q axis : V) (angle : R),
  Vector3CrossProduct p q <> vzero ->
  Vector3CrossProduct (Vector3RotateByAxisAngle p axis angle)
                      (Vector3RotateByAxisAngle q axis angle) <> vzero.
Proof.
  intros p q axis angle H E. apply H. apply sqlen_zero.
  rewrite lagrange.
  rewrite <- (Vector3RotateByAxisAngle_sqlen p axis angle).
  rewrite <- (Vector3RotateByAxisAngle_sqlen q axis angle).
  rewrite <- (Vector3RotateByAxisAngle_dot p q axis angle).
  rewrite <- lagrange, E. apply sqlen_vzero.
Qed.

(** ** The rotation of the pitch *)

(** About a unit axis [k] orthogonal to [v], the rotation turns [v] in
    the plane of [v] and [k x v]. *)
Lemma rot_orthogonal : forall (v k : V) (s a : R),
  sqlen k = 1 -> Vector3DotProduct k v = 0 ->
  rot v (Vector3Scale k s) a
    = Vector3Add (Vector3Scale v (1 - 2 * (s * s)))
                 (Vector3Scale (Vector3CrossProduct k v) (2 * (a * s))).
Proof.
  intros [vx vy vz] [kx ky kz] s a. unfold sqlen, rot. cbn.
  intros H1 H2. apply vec_eq; cbn; nsatz.
Qed.

(** About a unit axis the rotation is the one of Rodrigues' formula. *)
Lemma rot_rodrigues : forall (v k : V) (s a : R),
  sqlen k = 1 ->
  rot v (Vector3Scale k s) a
    = Vector3Add
        (Vector3Add (Vector3Scale v (1 - 2 * (s * s)))
                    (Vector3Scale (Vector3CrossProduct k v) (2 * (a * s))))
        (Vector3Scale k (Vector3DotProduct k v * (2 * (s * s)))).
Proof.
  intros [vx vy vz] [kx ky kz] s a. unfold sqlen, rot. cbn.
  intros H1. apply vec_eq; cbn; nsatz.
Qed.

Lemma sin_double_half : forall t : R, sin t = 2 * (cos (t / 2) * sin (t / 2)).
Proof.
  intros t. replace t with (2 * (t / 2)) at 1 by field.
  rewrite sin_2a. ring.
Qed.

Lemma cos_double_half : forall t : R,
  cos t = 1 - 2 * (sin (t / 2) * sin (t / 2)).
Proof.
  intros t. replace t with (2 * (t / 2)) at 1 by field.
  rewrite cos_2a_sin. ring.
Qed.

Lemma Vector3RotateByAxisAngle_rodrigues : forall (v k : V) (angle : R),
  sqlen k = 1 ->
  Vector3RotateByAxisAngle v k angle
    = Vector3Add
        (Vector3Add (Vector3Scale v (cos angle))
                    (Vector3Scale (Vector3CrossProduct k v) (sin angle)))
        (Vector3Scale k (Vector3DotProduct k v * (1 - cos angle))).
Proof.
  intros v k angle Hk. rewrite Vector3RotateByAxisAngle_eq.
  rewrite (Vector3Normalize_unit_id k Hk), (rot_rodrigues v k _ _ Hk).
  rewrite <- sin_double_half, (cos_double_half angle).
  f_equal. f_equal. ring.
Qed.

Lemma scale_inv_scale : forall (w : V) (m : R),
  m <> 0 -> w = Vector3Scale (Vector3Scale w (/ m)) m.
Proof. intros [] m Hm. apply vec_eq; cbn; field; exact Hm. Qed.

Section PitchGeometry.

Variables (U v : V).
Hypothesis U_unit : sqlen U = 1.
Hypothesis not_parallel : Vector3CrossProduct v U <> vzero.

Local Abbreviation pn := (Vector3CrossProduct v U).
Local Abbreviation pM := (Vector3Length (Vector3CrossProduct v U)).
Local Abbreviation pE := (Vector3DotProduct U v).
Local Abbreviation pk := (pitch_axis U v).

Lemma pitch_M_pos : 0 < pM.
Proof. apply Vector3Length_pos, not_parallel. Qed.

Lemma pitch_k_eq : pk = Vector3Scale pn (/ pM).
Proof. unfold pitch_axis. apply Vector3Normalize_nonzero, not_parallel. Qed.

Lemma pitch_k_unit : sqlen pk = 1.
Proof. unfold pitch_axis. apply Vector3Normalize_unit, not_parallel. Qed.

Lemma pitch_k_perp_v : Vector3DotProduct pk v = 0.
Proof.
  rewrite pitch_k_eq, dot_scale_l.
  replace (Vector3DotProduct pn v) with 0; [ ring | ].
  generalize U v. intros [] []. cbn. ring.
Qed.

Lemma pitch_k_perp_U : Vector3DotProduct U pk = 0.
Proof.
  rewrite pitch_k_eq, dot_scale_r.
  replace (Vector3DotProduct U pn) with 0; [ ring | ].
  generalize U v. intros [] []. cbn. ring.
Qed.

Lemma pitch_MM : pM * pM = sqlen pn.
Proof. apply Vector3Length_sqr. Qed.

Lemma pitched_eq : forall angle : R,
  pitched U v angle
    = Vector3Add (Vector3Scale v (cos angle))
                 (Vector3Scale (Vector3CrossProduct pk v) (sin angle)).
Proof.
  intros angle. unfold pitched. rewrite Vector3RotateByAxisAngle_eq.
  rewrite (Vector3Normalize_unit_id pk pitch_k_unit).
  rewrite (rot_orthogonal v pk _ _ pitch_k_unit pitch_k_perp_v).
  rewrite <- cos_double_half, <- sin_double_half. reflexivity.
Qed.

Lemma triple_self : forall a b : V,
  sqlen a = 1 ->
  Vector3DotProduct a (Vector3CrossProduct (Vector3CrossProduct b a) b)
    = sqlen (Vector3CrossProduct b a).
Proof.
  intros [ax ay az] [bx b_y bz]. unfold sqlen. cbn. intros Ha. nsatz.
Qed.

Lemma pitched_dot : forall angle : R,
  Vector3DotProduct U (pitched U v angle) = pE * cos angle + pM * sin angle.
Proof.
  intros angle. rewrite pitched_eq, pitch_k_eq.
  assert (H : Vector3DotProduct U
                (Vector3CrossProduct (Vector3Scale pn (/ pM)) v) = pM).
  { rewrite cross_scale_l, dot_scale_r, (triple_self U v U_unit).
    rewrite <- pitch_MM. field. pose proof pitch_M_pos. lra. }
  revert H. generalize (Vector3CrossProduct (Vector3Scale pn (/ pM)) v).
  intros c H. rewrite <- H.
  generalize U v c. intros [] [] []. cbn. ring.
Qed.

Lemma double_cross : forall a b c : V,
  Vector3DotProduct a c = 0 ->
  Vector3CrossProduct a (Vector3CrossProduct c b)
    = Vector3Scale c (Vector3DotProduct a b).
Proof.
  intros [ax ay az] [bx b_y bz] [cx cy cz]. cbn. intros Hac.
  apply vec_eq; cbn; nsatz.
Qed.

Lemma pitched_cross : forall angle : R,
  Vector3CrossProduct U (pitched U v angle)
    = Vector3Scale pk (- (pM * cos angle - pE * sin angle)).
Proof.
  intros angle. rewrite pitched_eq.
  assert (Hn : pn = Vector3Scale pk pM).
  { rewrite pitch_k_eq. apply scale_inv_scale.
    pose proof pitch_M_pos. lra. }
  assert (H1 : Vector3CrossProduct U v = Vector3Scale pk (- pM)).
  { transitivity (Vector3Scale pn (-1)).
    - generalize U v. intros [] []. apply vec_eq; cbn; ring.
    - rewrite Hn at 1. generalize pk. intros []. apply vec_eq; cbn; ring. }
  pose proof (double_cross U v pk pitch_k_perp_U) as H2.
  revert H1 H2.
  generalize (Vector3CrossProduct pk v). intros c H1 H2.
  transitivity
    (Vector3Add (Vector3Scale (Vector3CrossProduct U v) (cos angle))
                (Vector3Scale (Vector3CrossProduct U c) (sin angle))).
  - generalize U v c. intros [] [] []. apply vec_eq; cbn; ring.
  - rewrite H1, H2. generalize pk. intros []. apply vec_eq; cbn; ring.
Qed.

(** The pitch by [angle] lowers the angle between up and the view vector
    by [angle], as long as the result stays strictly between the poles. *)
Lemma pitched_angle : forall angle : R,
  0 < Vector3Angle U v - angle < PI ->
  Vector3Angle U (pitched U v angle) = Vector3Angle U v - angle.
Proof.
  intros angle Hr.
  assert (Hlen : Vector3Length (Vector3CrossProduct U v) = pM).
  { apply Vector3Length_sqlen_eq. apply cross_anticomm_sqlen. }
  pose proof pitch_M_pos as HM.
  assert (Ha : Vector3Angle U v = Ratan2 pM pE).
  { rewrite Vector3Angle_eq, Hlen. reflexivity. }
  destruct (Ratan2_polar pM pE HM) as (Hrange & Hsin & Hcos).
  assert (Hrho : 0 < sqrt (pE * pE + pM * pM)) by (apply sqrt_lt_R0; nra).
  rewrite Ha in *.
  rewrite Vector3Angle_eq, pitched_dot, pitched_cross.
  rewrite Vector3Length_scale_abs, (Vector3Length_unit pk pitch_k_unit).
  revert Hr Hrange Hsin Hcos Hrho HM.
  generalize (sqrt (pE * pE + pM * pM)). generalize (Ratan2 pM pE).
  generalize pM. generalize pE.
  intros e m alpha rho Hr Hrange Hsin Hcos Hrho HM.
  assert (Hs : 0 < sin (alpha - angle)) by (apply sin_gt_0; lra).
  assert (Hmc : m * cos angle - e * sin angle = rho * sin (alpha - angle)).
  { rewrite sin_minus. rewrite Hsin at 1. rewrite Hcos at 1. ring. }
  assert (Hdc : e * cos angle + m * sin angle = rho * cos (alpha - angle)).
  { rewrite cos_minus. rewrite Hsin at 1. rewrite Hcos at 1. ring. }
  rewrite Rabs_Ropp, Hmc, Hdc, Rmult_1_r.
  rewrite Rabs_right by (apply Rle_ge; nra).
  apply Ratan2_of_polar; assumption.
Qed.

End PitchGeometry.

(** ** Movement *)

Lemma translate_tp : forall (c : Cam) (v : V),
  Vector3Subtract (target (translate c v)) (position (translate c v))
    = Vector3Subtract (target c) (position c).
Proof. intros c v. unfold translate. simpl. apply sub_add_cancel. Qed.

Lemma translate_forward : forall (c : Cam) (v : V),
  GetCameraForward (translate c v) = GetCameraForward c.
Proof. intros c v. unfold GetCameraForward. rewrite translate_tp. reflexivity. Qed.

Lemma translate_forward_dir : forall (c : Cam) (v : V) (w : bool),
  forward_dir (translate c v) w = forward_dir c w.
Proof.
  intros c v w. unfold forward_dir. rewrite translate_forward. reflexivity.
Qed.

Lemma translate_back : forall (c : Cam) (v : V) (d : R),
  translate (translate c (Vector3Scale v d)) (Vector3Scale v (- d)) = c.
Proof.
  intros [p t u f pr] v d. unfold translate. simpl.
  rewrite !add_scale_opp. reflexivity.
Qed.

Lemma translate_0 : forall (c : Cam) (v : V),
  translate c (Vector3Scale v 0) = c.
Proof.
  intros [p t u f pr] v. unfold translate. simpl.
  rewrite !add_scale_0. reflexivity.
Qed.

Lemma translate_distinct : forall (c : Cam) (v : V),
  position c <> target c ->
  position (translate c v) <> target (translate c v).
Proof.
  intros c v H E. apply H. apply sub_eq_vzero.
  rewrite <- (translate_tp c v). apply sub_eq_vzero. exact E.
Qed.

Lemma new_distance_pos : forall c delta, 0 < new_distance c delta.
Proof.
  intros c delta. unfold new_distance.
  destruct (Rle_dec (Vector3Distance (position c) (target c) + delta) 0); lra.
Qed.

Lemma CameraMoveToTarget_eq : forall (c : Cam) (delta : R),
  CameraMoveToTarget c delta
    = set_position c
        (Vector3Add (target c)
           (Vector3Scale (GetCameraForward c) (- new_distance c delta))).
Proof.
  intros c delta. unfold CameraMoveToTarget, new_distance.
  change (?a <=? lit 0)%fl with (Rleb a (Q2R 0)).
  change (lit 0.001) with (Q2R 0.001).
  rewrite lit_0. unfold Rleb.
  change (fadd ?a ?b) with (a + b).
  destruct (Rle_dec (Vector3Distance (position c) (target c) + delta) 0);
    reflexivity.
Qed.

Lemma GetCameraForward_unit : forall c : Cam,
  position c <> target c -> sqlen (GetCameraForward c) = 1.
Proof.
  intros c H. unfold GetCameraForward. apply Vector3Normalize_unit.
  intros E. apply H. apply sub_eq_vzero. exact E.
Qed.

Lemma CameraMoveToTarget_distance : forall (c : Cam) (delta : R),
  position c <> target c ->
  Vector3Distance (position (CameraMoveToTarget c delta))
                  (target (CameraMoveToTarget c delta))
    = new_distance c delta.
Proof.
  intros c delta H. rewrite CameraMoveToTarget_eq.
  unfold set_position. cbn [position target].
  rewrite Vector3Distance_eq.
  replace (Vector3Subtract (target c)
             (Vector3Add (target c)
                (Vector3Scale (GetCameraForward c) (- new_distance c delta))))
    with (Vector3Scale (GetCameraForward c) (new_distance c delta))
    by (apply vec_eq; simpl; ring).
  rewrite Vector3Length_scale by (pose proof (new_distance_pos c delta); lra).
  rewrite (Vector3Length_unit _ (GetCameraForward_unit c H)). ring.
Qed.

Lemma translate_target_0 : forall (c : Cam) (v : V),
  target (translate c (Vector3Scale v 0)) = target c.
Proof. intros c v. rewrite translate_0. reflexivity. Qed.

(** ** Rotations by the angle zero *)

Lemma CameraYaw_0 : forall (c : Cam) (angle : R) (t : bool),
  angle = 0 -> CameraYaw c angle t = c.
Proof.
  intros [p tg u f pr] angle t ->. unfold CameraYaw.
  rewrite Vector3RotateByAxisAngle_0. cbn [position target].
  destruct t; unfold set_position, set_target; cbn [position target up fovy projection].
  - rewrite sub_sub_cancel. reflexivity.
  - rewrite add_sub_cancel. reflexivity.
Qed.

Lemma CameraPitch_0 : forall (c : Cam) (angle : R) (t u : bool),
  angle = 0 -> CameraPitch c angle false t u = c.
Proof.
  intros [p tg up0 f pr] angle t u ->. unfold CameraPitch.
  rewrite Vector3RotateByAxisAngle_0. cbn [position target].
  destruct t, u; unfold set_position, set_target, set_up;
    cbn [position target up fovy projection];
    rewrite ?Vector3RotateByAxisAngle_0, ?sub_sub_cancel, ?add_sub_cancel;
    reflexivity.
Qed.

Lemma CameraRoll_0 : forall (c : Cam) (angle : R),
  angle = 0 -> CameraRoll c angle = c.
Proof.
  intros [p tg up0 f pr] angle ->. unfold CameraRoll, set_up.
  rewrite Vector3RotateByAxisAngle_0. reflexivity.
Qed.

(** ** The camera of the scenarios of the specification *)

Lemma cam0_apart : position cam0 <> target cam0.
Proof. unfold cam0. cbn [position target]. intros H. injection H as H. lra. Qed.

Lemma cam0_distance : Vector3Distance (position cam0) (target cam0) = 10.
Proof.
  unfold Vector3Distance, cam0. cbn [position target x y z].
  apply sqrt_sq; [ lra | ]. cbn [fadd fsub fmul RealOps]. ring.
Qed.

Lemma cam0_forward : GetCameraForward cam0 = mkVector3 0 0 (-1).
Proof.
  unfold GetCameraForward. rewrite Vector3Normalize_eq.
  assert (HL : Vector3Length (Vector3Subtract (target cam0) (position cam0)) = 10)
    by (rewrite <- Vector3Distance_eq; apply cam0_distance).
  rewrite HL.
  destruct (Req_dec_T 10 0) as [E | E]; [ lra | ].
  apply vec_eq; cbn; lra.
Qed.


(** The scenarios of the specification for CameraMoveForward and
    CameraYaw, in exact arithmetic. *)
Example scenario_move_forward :
  position (CameraMoveForward cam0 5 false) = mkVector3 0 0 5
  /\ target (CameraMoveForward cam0 5 false) = mkVector3 0 0 (-5).
Proof.
  rewrite CameraMoveForward_translate. unfold forward_dir, translate.
  rewrite cam0_forward. split; apply vec_eq; cbn; lra.
Qed.

Example scenario_yaw_quarter_turn :
  target (CameraYaw cam0 (PI / 2) true) = mkVector3 0 0 0
  /\ position (CameraYaw cam0 (PI / 2) true) = mkVector3 10 0 0.
Proof.
  split; [ reflexivity | ].
  unfold CameraYaw, set_position. cbn [position target].
  assert (Hu : GetCameraUp cam0 = mkVector3 0 1 0).
  { unfold GetCameraUp. apply Vector3Normalize_unit_id.
    unfold sqlen. cbn. ring. }
  rewrite Hu.
  rewrite Vector3RotateByAxisAngle_rodrigues by (unfold sqlen; cbn; ring).
  rewrite cos_PI2, sin_PI2. apply vec_eq; cbn; lra.
Qed.

(** ** C7: moving forward and back *)

(** C7 (amended). In exact arithmetic CameraMoveForward by [d] followed by
    CameraMoveForward by [-d], under the same moveInWorldPlane, gives back
    the camera it started from: position and target have their original
    values (and up, fovy and projection were never touched).  This holds
    for every [d], in particular for every non-zero one. *)
Theorem CameraMoveForward_round_trip : forall (c : Cam) (d : R) (w : bool),
  let c' := CameraMoveForward (CameraMoveForward c d w) (- d) w in
  position c' = position c /\ target c' = target c /\ c' = c.
Proof.
  intros c d w c'.
  assert (E : c' = c).
  { unfold c'. rewrite (CameraMoveForward_translate c d w).
    rewrite CameraMoveForward_translate, translate_forward_dir.
    apply translate_back. }
  rewrite E. repeat split.
Qed.

(** ** C2: the distance set by CameraMoveToTarget *)

Lemma CameraMoveToTarget_degenerate : forall (c : Cam) (delta : R),
  position c = target c ->
  position (CameraMoveToTarget c delta) = target c.
Proof.
  intros c delta E. rewrite CameraMoveToTarget_eq.
  unfold set_position, GetCameraForward. cbn [position].
  replace (Vector3Subtract (target c) (position c)) with vzero
    by (symmetry; apply sub_eq_vzero; exact E).
  rewrite Vector3Normalize_vzero, scale_vzero.
  destruct (target c). apply vec_eq; cbn; ring.
Qed.

Lemma Vector3Distance_same : forall p : V, Vector3Distance p p = 0.
Proof.
  intros p. rewrite Vector3Distance_eq.
  replace (Vector3Subtract p p) with vzero
    by (symmetry; apply sub_eq_vzero; reflexivity).
  apply Vector3Length_vzero.
Qed.




(** ** C5: position and target stay apart *)

Lemma apart_iff : forall c : Cam,
  0 < Vector3Distance (position c) (target c) <-> position c <> target c.
Proof.
  intros c. rewrite Vector3Distance_eq. split.
  - intros H E. rewrite E in H.
    replace (Vector3Subtract (target c) (target c)) with vzero in H
      by (apply vec_eq; cbn; lra).
    rewrite Vector3Length_vzero in H. lra.
  - intros H. apply Vector3Length_pos. intros E. apply H.
    apply sub_eq_vzero. exact E.
Qed.

Lemma rotated_view_apart : forall (c : Cam) (v : V) (t : bool),
  v <> vzero ->
  let c' := if t then set_position c (Vector3Subtract (target c) v)
            else set_target c (Vector3Add (position c) v) in
  position c' <> target c'.
Proof.
  intros c v t Hv c' E. apply Hv.
  apply sub_eq_vzero in E. rewrite <- E. unfold c'.
  destruct t; unfold set_position, set_target; cbn [position target].
  - rewrite sub_sub_cancel. reflexivity.
  - rewrite sub_add_left. reflexivity.
Qed.

Lemma CameraYaw_apart : forall (c : Cam) (angle : R) (t : bool),
  position c <> target c ->
  position (CameraYaw c angle t) <> target (CameraYaw c angle t).
Proof.
  intros c angle t H. unfold CameraYaw.
  apply (rotated_view_apart c _ t).
  apply Vector3RotateByAxisAngle_nonzero.
  intros E. apply H. apply sub_eq_vzero. exact E.
Qed.

Lemma CameraPitch_apart : forall (c : Cam) (angle : R) (l t u : bool),
  position c <> target c ->
  position (CameraPitch c angle l t u) <> target (CameraPitch c angle l t u).
Proof.
  intros c angle l t u H. unfold CameraPitch.
  set (a := if l then pitch_clamp c angle else angle).
  set (v := Vector3RotateByAxisAngle _ _ a).
  assert (Hv : v <> vzero).
  { apply Vector3RotateByAxisAngle_nonzero.
    intros E. apply H. apply sub_eq_vzero. exact E. }
  pose proof (rotated_view_apart c v t Hv) as Ha. cbv zeta in Ha.
  destruct u; [ | exact Ha ].
  destruct t; exact Ha.
Qed.

Lemma CameraMoveToTarget_apart : forall (c : Cam) (delta : R),
  position c <> target c ->
  position (CameraMoveToTarget c delta) <> target (CameraMoveToTarget c delta).
Proof.
  intros c delta H. apply apart_iff.
  rewrite (CameraMoveToTarget_distance c delta H). apply new_distance_pos.
Qed.

(** C5 (amended). In exact arithmetic every camera operation keeps position and
    target apart when they were apart before the call: the distance stays
    strictly positive after CameraMoveForward, CameraMoveUp,
    CameraMoveRight, CameraMoveToTarget, CameraYaw, CameraPitch and
    CameraRoll, and CameraMoveToTarget sets it to 0.001 when the delta
    would bring it to zero or below. *)
Theorem camera_operations_keep_apart : forall c : Cam,
  position c <> target c ->
  let dist (c' : Cam) := Vector3Distance (position c') (target c') in
  (forall d w, 0 < dist (CameraMoveForward c d w))
  /\ (forall d, 0 < dist (CameraMoveUp c d))
  /\ (forall d w, 0 < dist (CameraMoveRight c d w))
  /\ (forall delta, 0 < dist (CameraMoveToTarget c delta))
  /\ (forall delta, dist c + delta <= 0 -> dist (CameraMoveToTarget c delta) = 0.001)
  /\ (forall angle t, 0 < dist (CameraYaw c angle t))
  /\ (forall angle l t u, 0 < dist (CameraPitch c angle l t u))
  /\ (forall angle, 0 < dist (CameraRoll c angle)).
Proof.
  intros c H dist. unfold dist. repeat split.
  - intros d w. apply apart_iff. rewrite CameraMoveForward_translate.
    apply translate_distinct, H.
  - intros d. apply apart_iff. rewrite CameraMoveUp_translate.
    apply translate_distinct, H.
  - intros d w. apply apart_iff. rewrite CameraMoveRight_translate.
    apply translate_distinct, H.
  - intros delta. apply apart_iff. apply CameraMoveToTarget_apart, H.
  - intros delta Hd. rewrite (CameraMoveToTarget_distance c delta H).
    unfold new_distance.
    destruct (Rle_dec (Vector3Distance (position c) (target c) + delta) 0);
      [ reflexivity | lra ].
  - intros angle t. apply apart_iff. apply CameraYaw_apart, H.
  - intros angle l t u. apply apart_iff. apply CameraPitch_apart, H.
  - intros angle. apply apart_iff. exact H.
Qed.

Lemma camera_operations_keep_apart_witness :
  position cam0 <> target cam0
  /\ 0 < Vector3Distance (position (CameraMoveToTarget cam0 (-20)))
                         (target (CameraMoveToTarget cam0 (-20))).
Proof.
  split; [ exact cam0_apart | ].
  destruct (camera_operations_keep_apart cam0 cam0_apart)
    as (_ & _ & _ & Hzoom & _).
  exact (Hzoom (-20)).
Defined.

(** ** C4: the world plane *)

Lemma world_plane_axis_eq : forall u : V,
  world_plane_axis u
    = if Rlt_dec 0.7071 (Rabs (z u)) then AxisZ
      else if Rlt_dec 0.7071 (Rabs (x u)) then AxisX
      else AxisY.
Proof.
  intros u. unfold world_plane_axis.
  change (fabsf ?a >? lit 0.7071)%fl with (Rltb 0.7071 (Rabs a)).
  unfold Rltb.
  destruct (Rlt_dec 0.7071 (Rabs (z u))); [ reflexivity | ].
  destruct (Rlt_dec 0.7071 (Rabs (x u))); reflexivity.
Qed.

(** When at most one component of up is over the threshold, the
    component the code zeroes is the one the specification names. *)
Lemma world_plane_axis_agrees : forall u : V,
  ~ (0.7071 < Rabs (x u) /\ 0.7071 < Rabs (y u)) ->
  ~ (0.7071 < Rabs (x u) /\ 0.7071 < Rabs (z u)) ->
  ~ (0.7071 < Rabs (y u) /\ 0.7071 < Rabs (z u)) ->
  world_plane_axis u = spec_world_plane_axis u.
Proof.
  intros u Hxy Hxz Hyz. rewrite world_plane_axis_eq.
  unfold spec_world_plane_axis.
  change (fabsf ?a) with (Rabs a).
  change (lit 0.7071) with 0.7071.
  change (flt ?a ?b) with (Rltb a b). change (fle ?a ?b) with (Rleb a b).
  unfold Rltb, Rleb.
  destruct (Rlt_dec 0.7071 (Rabs (z u))) as [Hz | Hz];
  destruct (Rlt_dec 0.7071 (Rabs (x u))) as [Hx | Hx];
  destruct (Rlt_dec 0.7071 (Rabs (y u))) as [Hy | Hy];
  destruct (Rle_dec (Rabs (x u)) (Rabs (y u)));
  destruct (Rle_dec (Rabs (z u)) (Rabs (y u)));
  destruct (Rle_dec (Rabs (x u)) (Rabs (z u)));
  cbn [andb]; try reflexivity; try (exfalso; tauto); exfalso; lra.
Qed.

(** Cameras at the origin that look at (0,3,4). *)
Lemma forward_3_4 : forall (u : V) (f : R) (p : Z),
  GetCameraForward (mkCamera (mkVector3 0 0 0) (mkVector3 0 3 4) u f p)
    = mkVector3 0 (3/5) (4/5).
Proof.
  intros u f p. unfold GetCameraForward.
  rewrite (Vector3Normalize_known _ 5); [ | lra | unfold sqlen; cbn; lra ].
  apply vec_eq; cbn; lra.
Qed.

Lemma move_zeroing_z : forall (u : V) (f : R) (p : Z),
  world_plane_axis u = AxisZ ->
  position (CameraMoveForward
              (mkCamera (mkVector3 0 0 0) (mkVector3 0 3 4) u f p) 1 true)
    = mkVector3 0 1 0.
Proof.
  intros u f p Hz. rewrite CameraMoveForward_translate. unfold forward_dir.
  rewrite forward_3_4. cbn [up]. rewrite Hz.
  unfold zero_axis, zero_z. cbn [x y z].
  rewrite (Vector3Normalize_known _ (3/5)); [ | lra | unfold sqlen; cbn; lra ].
  apply vec_eq; cbn; lra.
Qed.

Lemma spec_move_zeroing_y : forall (u : V) (f : R) (p : Z),
  spec_world_plane_axis u = AxisY ->
  position (spec_CameraMoveForward
              (mkCamera (mkVector3 0 0 0) (mkVector3 0 3 4) u f p) 1)
    = mkVector3 0 0 1.
Proof.
  intros u f p Hy. unfold spec_CameraMoveForward.
  rewrite forward_3_4. cbn [up]. rewrite Hy.
  unfold zero_axis, zero_y. cbn [x y z].
  rewrite (Vector3Normalize_known _ (4/5)); [ | lra | unfold sqlen; cbn; lra ].
  apply vec_eq; cbn; lra.
Qed.

Lemma code_axis_z : forall a b c : R,
  0.7071 < c -> world_plane_axis (mkVector3 a b c) = AxisZ.
Proof.
  intros a b c Hc. rewrite world_plane_axis_eq. cbn [x y z].
  rewrite (Rabs_right c) by lra.
  destruct (Rlt_dec 0.7071 c); [ reflexivity | lra ].
Qed.

Lemma spec_axis_y : forall b c : R,
  0.7071 < b -> 0 <= c <= b -> spec_world_plane_axis (mkVector3 0 b c) = AxisY.
Proof.
  intros b c Hb Hc. unfold spec_world_plane_axis. cbn [x y z].
  change (fabsf ?a) with (Rabs a).
  change (lit 0.7071) with 0.7071.
  change (flt ?a ?b) with (Rltb a b). change (fle ?a ?b) with (Rleb a b).
  rewrite Rabs_R0, (Rabs_right b), (Rabs_right c) by lra.
  rewrite (Rltb_true 0.7071 b), (Rleb_true 0 b), (Rleb_true c b) by lra.
  reflexivity.
Qed.

(** C4 (counterexample).  For up = (0,2,1) the component of up of largest
    magnitude is y, and it is over the threshold; the specification zeroes
    the y component of the movement, while CameraMoveForward zeroes z and
    moves the camera by one unit along y.  The same happens for the unit
    up vector (0, 137904/195025, 137903/195025), whose y and z components
    are both over the threshold. *)
Lemma CameraMoveForward_not_most_aligned :
  (0.7071 < Rabs (y (up cam_tilted))
   /\ Rabs (x (up cam_tilted)) < Rabs (y (up cam_tilted))
   /\ Rabs (z (up cam_tilted)) < Rabs (y (up cam_tilted))
   /\ position (CameraMoveForward cam_tilted 1 true) = mkVector3 0 1 0
   /\ position (spec_CameraMoveForward cam_tilted 1) = mkVector3 0 0 1
   /\ CameraMoveForward cam_tilted 1 true <> spec_CameraMoveForward cam_tilted 1)
  /\ (sqlen (up cam_tilted_unit) = 1
      /\ 0.7071 < Rabs (y (up cam_tilted_unit))
      /\ Rabs (x (up cam_tilted_unit)) < Rabs (y (up cam_tilted_unit))
      /\ Rabs (z (up cam_tilted_unit)) < Rabs (y (up cam_tilted_unit))
      /\ position (CameraMoveForward cam_tilted_unit 1 true) = mkVector3 0 1 0
      /\ position (spec_CameraMoveForward cam_tilted_unit 1) = mkVector3 0 0 1
      /\ CameraMoveForward cam_tilted_unit 1 true
         <> spec_CameraMoveForward cam_tilted_unit 1).
Proof.
  assert (Hc : position (CameraMoveForward cam_tilted 1 true) = mkVector3 0 1 0).
  { apply move_zeroing_z, code_axis_z. lra. }
  assert (Hs : position (spec_CameraMoveForward cam_tilted 1) = mkVector3 0 0 1).
  { apply spec_move_zeroing_y, spec_axis_y; lra. }
  assert (Hc' : position (CameraMoveForward cam_tilted_unit 1 true)
                = mkVector3 0 1 0).
  { apply move_zeroing_z, code_axis_z. lra. }
  assert (Hs' : position (spec_CameraMoveForward cam_tilted_unit 1)
                = mkVector3 0 0 1).
  { apply spec_move_zeroing_y, spec_axis_y; lra. }
  split.
  - cbn [up cam_tilted x y z].
    rewrite Rabs_R0, Rabs_R1, (Rabs_right 2) by lra.
    repeat split; try lra; try assumption.
    intros E. rewrite E, Hs in Hc. injection Hc as Hy Hz. lra.
  - cbn [up cam_tilted_unit x y z].
    rewrite Rabs_R0, (Rabs_right (137904 / 195025)),
      (Rabs_right (137903 / 195025)) by lra.
    repeat split; try lra; try assumption.
    + unfold sqlen. cbn [x y z]. lra.
    + intros E. rewrite E, Hs' in Hc'. injection Hc' as Hy Hz. lra.
Qed.

(** ** C3: a mode outside the enum *)

(** C3 (counterexample).  With the mode 5, which is none of the five
    modes, the forward key held and a frame time of one second,
    rl_UpdateCamera moves the camera from (0,0,10) to (0,0,4.6): the
    update is not the no-op of CAMERA_CUSTOM. *)
Lemma UpdateCamera_mode_5_moves :
  position (rl_UpdateCamera input_forward cam0 5) = mkVector3 0 0 4.6
  /\ rl_UpdateCamera input_forward cam0 5 <> cam0
  /\ rl_UpdateCamera input_forward cam0 5
     <> rl_UpdateCamera input_forward cam0 CAMERA_CUSTOM.
Proof.
  assert (E : position (rl_UpdateCamera input_forward cam0 5) = mkVector3 0 0 4.6).
  { change (rl_UpdateCamera input_forward cam0 5)
      with (update_shared input_forward cam0 false false false false false).
    rewrite update_shared_forward_key; [ | reflexivity | reflexivity ].
    rewrite (CameraYaw_0 cam0) by (cbn; lra).
    rewrite (CameraPitch_0 cam0) by (cbn; lra).
    rewrite CameraMoveForward_translate. unfold forward_dir.
    rewrite cam0_forward. apply vec_eq; cbn; lra. }
  split; [ exact E | ].
  split; intros H; rewrite H in E; cbn in E; injection E as E; lra.
Qed.

Lemma UpdateCamera_out_of_range_witness :
  (5 < CAMERA_CUSTOM \/ CAMERA_THIRD_PERSON < 5)%Z
  /\ rl_UpdateCamera input_forward cam0 5
     = update_shared input_forward cam0 false false false false false.
Proof.
  assert (H : (5 < CAMERA_CUSTOM \/ CAMERA_THIRD_PERSON < 5)%Z)
    by (right; reflexivity).
  split; [ exact H | ].
  exact (proj1 (UpdateCamera_out_of_range input_forward cam0 5 H)).
Defined.

(** ** C1: the pitch under lockView *)

Lemma cross_vzero_l : forall b : V, Vector3CrossProduct vzero b = vzero.
Proof. intros []. apply vec_eq; cbn; ring. Qed.

Lemma cross_vzero_r : forall a : V, Vector3CrossProduct a vzero = vzero.
Proof. intros []. apply vec_eq; cbn; ring. Qed.

Lemma cross_swap_nonzero : forall a b : V,
  Vector3CrossProduct a b <> vzero -> Vector3CrossProduct b a <> vzero.
Proof.
  intros a b H E. apply H, sqlen_zero.
  rewrite cross_anticomm_sqlen, E. apply sqlen_vzero.
Qed.

Lemma cross_nonzero_l : forall a b : V,
  Vector3CrossProduct a b <> vzero -> a <> vzero.
Proof. intros a b H E. apply H. rewrite E. apply cross_vzero_l. Qed.

Lemma cross_nonzero_r : forall a b : V,
  Vector3CrossProduct a b <> vzero -> b <> vzero.
Proof. intros a b H E. apply H. rewrite E. apply cross_vzero_r. Qed.

Lemma cross_normalize_l : forall a b : V,
  Vector3CrossProduct (Vector3Normalize a) b <> vzero
  <-> Vector3CrossProduct a b <> vzero.
Proof.
  intros a b. rewrite Vector3Normalize_eq.
  destruct (Req_dec_T (Vector3Length a) 0) as [E | E]; [ tauto | ].
  rewrite cross_scale_l.
  assert (Hi : / Vector3Length a <> 0) by (apply Rinv_neq_0_compat, E).
  split; intros H.
  - intros Hz. apply H. rewrite Hz. apply scale_vzero.
  - apply scale_nonzero; assumption.
Qed.

Lemma cross_normalize_r : forall a b : V,
  Vector3CrossProduct a (Vector3Normalize b) <> vzero
  <-> Vector3CrossProduct a b <> vzero.
Proof.
  intros a b. split; intros H; apply cross_swap_nonzero;
    apply cross_swap_nonzero in H; apply (cross_normalize_l b a); exact H.
Qed.

Lemma normalize_cross_normalize_l : forall a b : V,
  Vector3Normalize (Vector3CrossProduct (Vector3Normalize a) b)
    = Vector3Normalize (Vector3CrossProduct a b).
Proof.
  intros a b. rewrite (Vector3Normalize_eq a).
  destruct (Req_dec_T (Vector3Length a) 0) as [E | E]; [ reflexivity | ].
  rewrite cross_scale_l. apply Vector3Normalize_scale_pos.
  apply Rinv_0_lt_compat. pose proof (Vector3Length_nonneg a). lra.
Qed.

Lemma GetCameraRight_eq : forall c : Cam,
  GetCameraRight c
    = Vector3Normalize (Vector3CrossProduct (view c) (GetCameraUp c)).
Proof.
  intros c. unfold GetCameraRight, GetCameraForward.
  apply normalize_cross_normalize_l.
Qed.

Lemma negate_normalize : forall a : V,
  Vector3Negate (Vector3Normalize a) = Vector3Normalize (Vector3Negate a).
Proof.
  intros a. rewrite !Vector3Normalize_eq.
  assert (HL : Vector3Length (Vector3Negate a) = Vector3Length a).
  { apply Vector3Length_sqlen_eq. destruct a. unfold sqlen. cbn. ring. }
  rewrite HL.
  destruct (Req_dec_T (Vector3Length a) 0); [ reflexivity | ].
  destruct a. apply vec_eq; cbn; ring.
Qed.

Lemma off_poles_cross : forall c : Cam,
  off_poles c <-> Vector3CrossProduct (up c) (view c) <> vzero.
Proof.
  intros c. unfold off_poles. rewrite off_poles_iff.
  unfold GetCameraUp, GetCameraForward. fold (view c).
  rewrite cross_normalize_l, cross_normalize_r. reflexivity.
Qed.

Lemma pitch_maxAngleUp_eq : forall c : Cam,
  pitch_maxAngleUp c = Vector3Angle (GetCameraUp c) (view c) - 0.001.
Proof. reflexivity. Qed.

Lemma pitch_maxAngleDown_eq : forall c : Cam,
  pitch_maxAngleDown c
    = - Vector3Angle (Vector3Negate (GetCameraUp c)) (view c) + 0.001.
Proof.
  intros c. unfold pitch_maxAngleDown. fold (view c).
  change (lit (-1)) with (Q2R (-1)). change (lit 0.001) with 0.001.
  change (fadd ?a ?b) with (a + b). change (fmul ?a ?b) with (a * b).
  rewrite lit_m1. ring.
Qed.

Lemma pitch_clamp_eq : forall (c : Cam) (angle : R),
  pitch_clamp c angle
    = let a1 := if Rlt_dec (pitch_maxAngleUp c) angle
                then pitch_maxAngleUp c else angle in
      if Rlt_dec a1 (pitch_maxAngleDown c) then pitch_maxAngleDown c else a1.
Proof.
  intros c angle. unfold pitch_clamp. cbv zeta.
  cbn [flt RealOps]. unfold Rltb.
  destruct (Rlt_dec (pitch_maxAngleUp c) angle); cbv iota;
    match goal with
    | |- context [Rlt_dec ?a ?b] => destruct (Rlt_dec a b)
    end; reflexivity.
Qed.

Lemma pitch_clamp_bounds : forall (c : Cam) (angle : R),
  pitch_maxAngleDown c <= pitch_maxAngleUp c ->
  pitch_maxAngleDown c <= pitch_clamp c angle <= pitch_maxAngleUp c.
Proof.
  intros c angle H. rewrite pitch_clamp_eq. cbv zeta.
  destruct (Rlt_dec (pitch_maxAngleUp c) angle) as [H1 | H1];
    match goal with
    | |- context [Rlt_dec ?a ?b] => destruct (Rlt_dec a b)
    end; lra.
Qed.

Lemma pitch_clamp_id : forall (c : Cam) (angle : R),
  pitch_maxAngleDown c <= angle <= pitch_maxAngleUp c ->
  pitch_clamp c angle = angle.
Proof.
  intros c angle H. rewrite pitch_clamp_eq. cbv zeta.
  destruct (Rlt_dec (pitch_maxAngleUp c) angle) as [H1 | H1]; [ lra | ].
  destruct (Rlt_dec angle (pitch_maxAngleDown c)); [ lra | reflexivity ].
Qed.

(** The view vector and the up vector after a pitch. *)
Lemma CameraPitch_view : forall (c : Cam) (angle : R) (t u : bool),
  view (CameraPitch c angle false t u)
    = Vector3RotateByAxisAngle (view c) (GetCameraRight c) angle.
Proof.
  intros c angle t u. unfold CameraPitch, view.
  destruct t, u; unfold set_position, set_target, set_up;
    cbn [position target up]; rewrite ?sub_sub_cancel, ?sub_add_left;
    reflexivity.
Qed.

Lemma CameraPitch_up : forall (c : Cam) (angle : R) (t u : bool),
  up (CameraPitch c angle false t u)
    = if u then Vector3RotateByAxisAngle (up c) (GetCameraRight c) angle
      else up c.
Proof.
  intros c angle t u. unfold CameraPitch.
  destruct t, u; reflexivity.
Qed.

Section PitchOffPoles.

Variable c : Cam.
Hypothesis H : Vector3CrossProduct (up c) (view c) <> vzero.

Lemma pitch_up_unit : sqlen (GetCameraUp c) = 1.
Proof. apply Vector3Normalize_unit. exact (cross_nonzero_l _ _ H). Qed.

Lemma pitch_not_parallel :
  Vector3CrossProduct (view c) (GetCameraUp c) <> vzero.
Proof.
  apply cross_swap_nonzero. unfold GetCameraUp.
  apply cross_normalize_l, H.
Qed.

Lemma pitch_angles :
  0 < Vector3Angle (GetCameraUp c) (view c) < PI
  /\ Vector3Angle (Vector3Negate (GetCameraUp c)) (view c)
     = PI - Vector3Angle (GetCameraUp c) (view c).
Proof.
  assert (Hc : Vector3CrossProduct (GetCameraUp c) (view c) <> vzero)
    by (apply cross_swap_nonzero, pitch_not_parallel).
  split; [ apply Vector3Angle_range, Hc | apply Vector3Angle_negate, Hc ].
Qed.

Lemma pitch_clamp_range : forall angle : R,
  pitch_maxAngleDown c <= pitch_clamp c angle <= pitch_maxAngleUp c
  /\ 0.001 <= Vector3Angle (GetCameraUp c) (view c) - pitch_clamp c angle
           <= PI - 0.001.
Proof.
  intros angle. destruct pitch_angles as (Hr & Hn).
  pose proof PI2_1 as Hpi.
  assert (Hb : pitch_maxAngleDown c <= pitch_maxAngleUp c).
  { rewrite pitch_maxAngleUp_eq, pitch_maxAngleDown_eq, Hn. lra. }
  pose proof (pitch_clamp_bounds c angle Hb) as Hcl.
  split; [ exact Hcl | ].
  rewrite pitch_maxAngleUp_eq, pitch_maxAngleDown_eq, Hn in Hcl. lra.
Qed.

(** Without rotateUp the angle between up and the view vector goes down
    by the angle of the pitch. *)
Lemma CameraPitch_angle : forall (angle : R) (t : bool),
  0 < Vector3Angle (GetCameraUp c) (view c) - angle < PI ->
  Vector3Angle (GetCameraUp c) (view (CameraPitch c angle false t false))
    = Vector3Angle (GetCameraUp c) (view c) - angle.
Proof.
  intros angle t Hr. rewrite CameraPitch_view, GetCameraRight_eq.
  apply (pitched_angle (GetCameraUp c) (view c) pitch_up_unit
           pitch_not_parallel angle Hr).
Qed.

Lemma Vector3Angle_cross_zero : forall a b : V,
  Vector3CrossProduct a b = vzero ->
  Vector3Angle a b = 0 \/ Vector3Angle a b = PI.
Proof.
  intros a b E. rewrite Vector3Angle_eq, E, Vector3Length_vzero.
  destruct (Rle_or_lt 0 (Vector3DotProduct a b)) as [Hd | Hd].
  - left. apply Ratan2_b0, Hd.
  - right. apply Ratan2_b0_neg, Hd.
Qed.

Lemma CameraPitch_keeps_off_poles : forall (angle : R) (t u : bool),
  0 < Vector3Angle (GetCameraUp c) (view c) - angle < PI ->
  Vector3CrossProduct (up (CameraPitch c angle false t u))
                      (view (CameraPitch c angle false t u)) <> vzero.
Proof.
  intros angle t u Hr. rewrite CameraPitch_up.
  destruct u.
  - rewrite CameraPitch_view.
    apply Vector3RotateByAxisAngle_cross_nonzero, H.
  - rewrite (CameraPitch_view c angle t false).
    rewrite <- (CameraPitch_view c angle t false).
    apply (cross_normalize_l (up c)). fold (GetCameraUp c).
    intros E. pose proof (CameraPitch_angle angle t Hr) as Ha.
    destruct (Vector3Angle_cross_zero _ _ E) as [E0 | E0];
      rewrite E0 in Ha; lra.
Qed.

End PitchOffPoles.

Lemma CameraPitch_GetCameraUp : forall (c : Cam) (angle : R) (t : bool),
  GetCameraUp (CameraPitch c angle false t false) = GetCameraUp c.
Proof. intros c angle t. unfold GetCameraUp. rewrite CameraPitch_up. reflexivity. Qed.

(** C1 (amended).  In exact arithmetic, for a camera that looks neither
    straight up nor straight down, CameraPitch with lockView = true clamps
    the angle into [-(angle between -Up and forward) + 0.001, (angle
    between Up and forward) - 0.001]: a request within the interval is
    taken as it is, a request above it is replaced by the upper bound and a
    request below it by the lower bound.  It applies the pitch by the
    clamped angle and leaves the camera off the poles: the forward vector
    of the result makes a positive angle with Up and with -Up.  Without
    rotateUp the angle to Up is the former one minus the clamped angle,
    between 0.001 and PI - 0.001. *)
Theorem CameraPitch_lockView_off_poles : forall (c : Cam) (angle : R) (t u : bool),
  off_poles c ->
  let c' := CameraPitch c angle true t u in
  pitch_maxAngleDown c <= pitch_clamp c angle <= pitch_maxAngleUp c
  /\ c' = CameraPitch c (pitch_clamp c angle) false t u
  /\ off_poles c'
  /\ (u = false ->
      Vector3Angle (GetCameraUp c') (GetCameraForward c')
        = Vector3Angle (GetCameraUp c) (GetCameraForward c) - pitch_clamp c angle
      /\ 0.001 <= Vector3Angle (GetCameraUp c') (GetCameraForward c') <= PI - 0.001)
  /\ pitch_maxAngleUp c
     = Vector3Angle (GetCameraUp c) (GetCameraForward c) - 0.001
  /\ pitch_maxAngleDown c
     = - Vector3Angle (Vector3Negate (GetCameraUp c)) (GetCameraForward c) + 0.001
  /\ (pitch_maxAngleDown c <= angle <= pitch_maxAngleUp c ->
      pitch_clamp c angle = angle)
  /\ (pitch_maxAngleUp c < angle -> pitch_clamp c angle = pitch_maxAngleUp c)
  /\ (angle < pitch_maxAngleDown c -> pitch_clamp c angle = pitch_maxAngleDown c).
Proof.
  intros c angle t u Hoff c'.
  apply off_poles_cross in Hoff.
  destruct (pitch_clamp_range c Hoff angle) as (Hcl & Hr).
  assert (Hr' : 0 < Vector3Angle (GetCameraUp c) (view c) - pitch_clamp c angle < PI)
    by lra.
  assert (Ec : c' = CameraPitch c (pitch_clamp c angle) false t u)
    by (apply CameraPitch_clamped).
  split; [ exact Hcl | ]. split; [ exact Ec | ]. split.
  { apply off_poles_cross. rewrite Ec.
    apply CameraPitch_keeps_off_poles; assumption. }
  split.
  { intros ->. rewrite Ec. unfold GetCameraForward.
    fold (view (CameraPitch c (pitch_clamp c angle) false t false)).
    fold (view c). rewrite !Vector3Angle_normalize_r.
    rewrite CameraPitch_GetCameraUp.
    rewrite (CameraPitch_angle c Hoff _ t Hr'). split; [ reflexivity | exact Hr ]. }
  split.
  { rewrite pitch_maxAngleUp_eq. unfold GetCameraForward. fold (view c).
    rewrite Vector3Angle_normalize_r. reflexivity. }
  split.
  { rewrite pitch_maxAngleDown_eq. unfold GetCameraForward. fold (view c).
    rewrite Vector3Angle_normalize_r. reflexivity. }
  split; [ apply pitch_clamp_id | ].
  split.
  - intros Ha. rewrite pitch_clamp_eq. cbv zeta.
    destruct (Rlt_dec (pitch_maxAngleUp c) angle); [ | lra ].
    destruct (Rlt_dec (pitch_maxAngleUp c) (pitch_maxAngleDown c));
      [ lra | reflexivity ].
  - intros Ha. rewrite pitch_clamp_eq. cbv zeta.
    destruct (Rlt_dec (pitch_maxAngleUp c) angle); [ lra | ].
    destruct (Rlt_dec angle (pitch_maxAngleDown c)); [ reflexivity | lra ].
Qed.

Lemma cam0_off_poles : off_poles cam0.
Proof.
  apply off_poles_cross. intros E.
  apply (f_equal (@x R)) in E. cbn in E. lra.
Qed.

Lemma CameraPitch_lockView_off_poles_witness :
  off_poles cam0
  /\ off_poles (CameraPitch cam0 10 true false false).
Proof.
  split; [ exact cam0_off_poles | ].
  destruct (CameraPitch_lockView_off_poles cam0 10 false false cam0_off_poles)
    as (_ & _ & H & _).
  exact H.
Defined.

(** A camera on the pole stays where it is: the right axis is the zero
    vector and the rotation about it is the identity. *)
Lemma Vector3RotateByAxisAngle_vzero : forall (v : V) (angle : R),
  Vector3RotateByAxisAngle v vzero angle = v.
Proof.
  intros v angle. rewrite Vector3RotateByAxisAngle_eq.
  rewrite Vector3Normalize_vzero, scale_vzero. apply rot_vzero.
Qed.

Lemma GetCameraRight_on_pole : forall c : Cam,
  Vector3CrossProduct (up c) (view c) = vzero -> GetCameraRight c = vzero.
Proof.
  intros c E. rewrite GetCameraRight_eq.
  assert (Hz : Vector3CrossProduct (view c) (GetCameraUp c) = vzero).
  { apply sqlen_zero. rewrite cross_anticomm_sqlen.
    destruct (Req_dec_T (sqlen (Vector3CrossProduct (GetCameraUp c) (view c))) 0)
      as [Hz | Hz]; [ exact Hz | ].
    exfalso.
    assert (Hn : Vector3CrossProduct (GetCameraUp c) (view c) <> vzero).
    { intros Hc. apply Hz. rewrite Hc. apply sqlen_vzero. }
    unfold GetCameraUp in Hn.
    apply (proj1 (cross_normalize_l (up c) (view c))) in Hn. exact (Hn E). }
  rewrite Hz. apply Vector3Normalize_vzero.
Qed.

Lemma CameraPitch_on_pole : forall (c : Cam) (angle : R) (l t u : bool),
  Vector3CrossProduct (up c) (view c) = vzero ->
  CameraPitch c angle l t u = c.
Proof.
  intros c angle l t u E. unfold CameraPitch.
  rewrite (GetCameraRight_on_pole c E), Vector3RotateByAxisAngle_vzero.
  destruct c as [p tg up0 f pr].
  destruct t, u; unfold set_position, set_target, set_up;
    cbn [position target up fovy projection];
    rewrite ?Vector3RotateByAxisAngle_vzero, ?sub_sub_cancel, ?add_sub_cancel;
    reflexivity.
Qed.

Lemma cam_pole_cross : Vector3CrossProduct (up cam_pole) (view cam_pole) = vzero.
Proof. apply vec_eq; cbn; ring. Qed.

(** C1 (counterexample).  The camera at the origin that looks along its
    up vector (0,1,0) is left as it is by CameraPitch with lockView = true:
    the forward vector of the result makes the angle 0 with Up. *)
Lemma CameraPitch_lockView_on_pole :
  CameraPitch cam_pole 0.5 true false false = cam_pole
  /\ Vector3Angle (GetCameraUp (CameraPitch cam_pole 0.5 true false false))
                  (GetCameraForward (CameraPitch cam_pole 0.5 true false false))
     = 0
  /\ Vector3Angle (GetCameraUp (CameraPitch cam_pole 0.5 true false false))
                  (GetCameraForward (CameraPitch cam_pole 0.5 true false false))
     <= 0
  /\ ~ off_poles (CameraPitch cam_pole 0.5 true false false).
Proof.
  set (c' := CameraPitch cam_pole 0.5 true false false).
  assert (Ec : c' = cam_pole) by (apply CameraPitch_on_pole, cam_pole_cross).
  assert (Ea : Vector3Angle (GetCameraUp c') (GetCameraForward c') = 0).
  { rewrite Ec. unfold GetCameraUp, GetCameraForward. fold (view cam_pole).
    rewrite Vector3Angle_normalize_l, Vector3Angle_normalize_r.
    apply Vector3Angle_parallel; [ exact cam_pole_cross | cbn; lra ]. }
  split; [ exact Ec | ]. split; [ exact Ea | ]. split; [ lra | ].
  intros [Hp _]. lra.
Qed.

(** ** C10: a pro update that only yaws *)

Lemma sin_0001 : 0.0005 < sin 0.001.
Proof.
  pose proof PI2_1 as Hpi.
  assert (H : sin_lb 0.001 <= sin 0.001) by (apply SIN; lra).
  unfold sin_lb, sin_approx, sin_term, sum_f_R0 in H.
  rewrite !INR_IZR_INZ in H.
  change (Z.of_nat (fact (2 * 0 + 1))) with 1%Z in H.
  change (Z.of_nat (fact (2 * 1 + 1))) with 6%Z in H.
  change (Z.of_nat (fact (2 * 2 + 1))) with 120%Z in H.
  change (Z.of_nat (fact (2 * 3 + 1))) with 5040%Z in H.
  simpl pow in H. lra.
Qed.

(** A direction within a slope of 1/2000 of the axis is within 0.001
    radians of it. *)
Lemma Ratan2_small : forall b a : R,
  0 < b -> 2000 * b <= a -> 0 < Ratan2 b a < 0.001.
Proof.
  intros b a Hb Ha.
  destruct (Ratan2_polar b a Hb) as (Hr & Hsin & Hcos).
  assert (Hrho : 0 < sqrt (a * a + b * b)) by (apply sqrt_lt_R0; nra).
  set (rho := sqrt (a * a + b * b)) in *.
  set (alpha := Ratan2 b a) in *.
  pose proof PI2_1 as Hpi. pose proof sin_0001 as Hs.
  split; [ lra | ].
  assert (Hc : 0 < cos alpha) by nra.
  assert (Hlt : alpha < PI / 2).
  { destruct (Rlt_or_le alpha (PI / 2)) as [H1 | H1]; [ exact H1 | ].
    pose proof (cos_le_0 alpha H1). lra. }
  assert (Hsa : sin alpha < sin 0.001).
  { assert (Hc1 : cos alpha <= 1) by apply COS_bound.
    assert (H2 : 2000 * sin alpha <= cos alpha) by nra. lra. }
  apply sin_increasing_0; lra.
Qed.

Lemma CameraMoveForward_0 : forall (c : Cam) (d : R) (w : bool),
  d = 0 -> CameraMoveForward c d w = c.
Proof. intros c d w ->. rewrite CameraMoveForward_translate. apply translate_0. Qed.

Lemma CameraMoveRight_0 : forall (c : Cam) (d : R) (w : bool),
  d = 0 -> CameraMoveRight c d w = c.
Proof. intros c d w ->. rewrite CameraMoveRight_translate. apply translate_0. Qed.

Lemma CameraMoveUp_0 : forall (c : Cam) (d : R),
  d = 0 -> CameraMoveUp c d = c.
Proof. intros c d ->. rewrite CameraMoveUp_translate. apply translate_0. Qed.

Lemma deg2rad_0 : - 0 * rl_DEG2RAD = 0 /\ 0 * rl_DEG2RAD = 0.
Proof. split; ring. Qed.

Lemma yaw_only_update_eq : forall (c : Cam) (r : R),
  yaw_only_update c r
    = CameraMoveToTarget (CameraYaw c (- r * rl_DEG2RAD) false) 0.
Proof.
  intros c r. unfold yaw_only_update.
  change (lit 0) with (Q2R 0). rewrite lit_0.
  rewrite CameraMoveForward_0, CameraMoveRight_0, CameraMoveUp_0;
    reflexivity.
Qed.

Lemma UpdateCameraPro_yaw_only_eq : forall (c : Cam) (r : R),
  rl_UpdateCameraPro c (mkVector3 0 0 0) (mkVector3 r 0 0) 0
    = CameraMoveToTarget
        (CameraYaw (CameraPitch c (pitch_clamp c 0) false false false)
                   (- r * rl_DEG2RAD) false) 0.
Proof.
  intros c r. unfold rl_UpdateCameraPro. cbn [x y z].
  rewrite CameraPitch_clamped.
  change (fmul (fneg 0) rl_DEG2RAD) with (- 0 * rl_DEG2RAD).
  change (fmul 0 rl_DEG2RAD) with (0 * rl_DEG2RAD).
  rewrite (proj1 deg2rad_0), (proj2 deg2rad_0).
  rewrite CameraRoll_0 by reflexivity.
  rewrite CameraMoveForward_0, CameraMoveRight_0, CameraMoveUp_0;
    reflexivity.
Qed.

(** C10 (amended).  For a camera whose forward vector is at least 0.001
    radians away from Up and from -Up, so that the pitch by zero is not
    clamped, a pro update with rotation (r, 0, 0), no movement and no zoom
    is CameraYaw by -r*DEG2RAD about the position followed by the
    movement and zoom calls with a zero delta (exact arithmetic). *)
Theorem UpdateCameraPro_yaw_only_unclamped : forall (c : Cam) (r : R),
  0.001 <= Vector3Angle (GetCameraUp c) (GetCameraForward c) ->
  0.001 <= Vector3Angle (Vector3Negate (GetCameraUp c)) (GetCameraForward c) ->
  rl_UpdateCameraPro c (mkVector3 0 0 0) (mkVector3 r 0 0) 0
    = yaw_only_update c r.
Proof.
  intros c r Hup Hdown.
  unfold GetCameraForward in Hup, Hdown. fold (view c) in Hup, Hdown.
  rewrite Vector3Angle_normalize_r in Hup, Hdown.
  rewrite UpdateCameraPro_yaw_only_eq, yaw_only_update_eq.
  rewrite pitch_clamp_id.
  - rewrite CameraPitch_0 by reflexivity. reflexivity.
  - rewrite pitch_maxAngleUp_eq, pitch_maxAngleDown_eq. lra.
Qed.

Lemma cam0_angles :
  Vector3Angle (GetCameraUp cam0) (GetCameraForward cam0) = PI / 2
  /\ Vector3Angle (Vector3Negate (GetCameraUp cam0)) (GetCameraForward cam0)
     = PI / 2.
Proof.
  assert (Hc : Vector3CrossProduct (GetCameraUp cam0) (GetCameraForward cam0)
               <> vzero).
  { unfold GetCameraUp, GetCameraForward. fold (view cam0).
    apply cross_normalize_l, cross_normalize_r.
    apply off_poles_cross, cam0_off_poles. }
  assert (Ha : Vector3Angle (GetCameraUp cam0) (GetCameraForward cam0) = PI / 2).
  { unfold GetCameraUp, GetCameraForward. fold (view cam0).
    rewrite Vector3Angle_normalize_l, Vector3Angle_normalize_r.
    rewrite Vector3Angle_eq.
    replace (Vector3DotProduct (up cam0) (view cam0)) with 0 by (cbn; ring).
    pose proof (Vector3Length_pos _ (proj1 (off_poles_cross cam0) cam0_off_poles))
      as Hp.
    unfold Ratan2.
    destruct (Rlt_dec 0 0); [ lra | ].
    destruct (Rlt_dec 0 (Vector3Length (Vector3CrossProduct (up cam0) (view cam0))));
      [ reflexivity | contradiction ]. }
  split; [ exact Ha | ].
  rewrite (Vector3Angle_negate _ _ Hc), Ha. field.
Qed.

Lemma UpdateCameraPro_yaw_only_unclamped_witness :
  0.001 <= Vector3Angle (GetCameraUp cam0) (GetCameraForward cam0)
  /\ 0.001 <= Vector3Angle (Vector3Negate (GetCameraUp cam0)) (GetCameraForward cam0)
  /\ rl_UpdateCameraPro cam0 (mkVector3 0 0 0) (mkVector3 90 0 0) 0
     = yaw_only_update cam0 90.
Proof.
  destruct cam0_angles as (Ha & Hb). pose proof PI2_1 as Hpi.
  assert (H1 : 0.001 <= Vector3Angle (GetCameraUp cam0) (GetCameraForward cam0))
    by (rewrite Ha; lra).
  assert (H2 : 0.001 <= Vector3Angle (Vector3Negate (GetCameraUp cam0))
                           (GetCameraForward cam0))
    by (rewrite Hb; lra).
  split; [ exact H1 | ]. split; [ exact H2 | ].
  exact (UpdateCameraPro_yaw_only_unclamped cam0 90 H1 H2).
Defined.

Lemma cam_near_pole_cross :
  Vector3CrossProduct (up cam_near_pole) (view cam_near_pole) <> vzero.
Proof.
  intros E. apply (f_equal (@z R)) in E. cbn in E. lra.
Qed.

Lemma cam_near_pole_up : GetCameraUp cam_near_pole = mkVector3 0 1 0.
Proof.
  unfold GetCameraUp. apply Vector3Normalize_unit_id.
  unfold sqlen. cbn. ring.
Qed.

Lemma cam_near_pole_angle :
  0 < Vector3Angle (GetCameraUp cam_near_pole) (view cam_near_pole) < 0.001.
Proof.
  rewrite cam_near_pole_up, Vector3Angle_eq.
  assert (HL : Vector3Length
                 (Vector3CrossProduct (mkVector3 0 1 0) (view cam_near_pole)) = 1).
  { rewrite Vector3Length_eq. apply sqrt_sq; [ lra | ]. unfold sqlen. cbn. ring. }
  rewrite HL. apply Ratan2_small; [ lra | ]. cbn. lra.
Qed.

Lemma cam_near_pole_clamp :
  pitch_clamp cam_near_pole 0
    = Vector3Angle (GetCameraUp cam_near_pole) (view cam_near_pole) - 0.001.
Proof.
  pose proof cam_near_pole_angle as Ha.
  destruct (pitch_angles cam_near_pole cam_near_pole_cross) as (Hr & Hn).
  pose proof PI2_1 as Hpi.
  rewrite pitch_clamp_eq. cbv zeta.
  rewrite pitch_maxAngleUp_eq, pitch_maxAngleDown_eq, Hn.
  destruct (Rlt_dec _ 0) as [H1 | H1]; [ | lra ].
  destruct (Rlt_dec _ _) as [H2 | H2]; [ lra | reflexivity ].
Qed.

(** C10 (counterexample).  For the camera at the origin with target
    (1,2000,0) and up (0,1,0), less than 0.001 radians off the pole, the
    pro update with rotation (0,0,0), no movement and no zoom pitches the
    camera down to 0.001 radians from Up and so changes the target, while
    the composition of CameraYaw and the zero-delta calls leaves the
    target where it was. *)
Lemma UpdateCameraPro_yaw_only_clamped :
  target (yaw_only_update cam_near_pole 0) = target cam_near_pole
  /\ target (rl_UpdateCameraPro cam_near_pole (mkVector3 0 0 0) (mkVector3 0 0 0) 0)
     <> target cam_near_pole
  /\ rl_UpdateCameraPro cam_near_pole (mkVector3 0 0 0) (mkVector3 0 0 0) 0
     <> yaw_only_update cam_near_pole 0.
Proof.
  assert (Hy : target (yaw_only_update cam_near_pole 0) = target cam_near_pole).
  { rewrite yaw_only_update_eq.
    rewrite CameraYaw_0 by apply (proj1 deg2rad_0). reflexivity. }
  assert (Hp : target (rl_UpdateCameraPro cam_near_pole (mkVector3 0 0 0)
                         (mkVector3 0 0 0) 0) <> target cam_near_pole).
  { rewrite UpdateCameraPro_yaw_only_eq.
    rewrite CameraYaw_0 by apply (proj1 deg2rad_0).
    change (target (CameraMoveToTarget ?c 0)) with (target c).
    set (c1 := CameraPitch cam_near_pole (pitch_clamp cam_near_pole 0)
                 false false false).
    intros E.
    assert (Ev : view c1 = view cam_near_pole).
    { unfold view. rewrite E. reflexivity. }
    pose proof cam_near_pole_angle as Ha.
    pose proof PI2_1 as Hpi.
    assert (Hang : Vector3Angle (GetCameraUp cam_near_pole) (view c1)
                   = Vector3Angle (GetCameraUp cam_near_pole) (view cam_near_pole)
                     - pitch_clamp cam_near_pole 0).
    { apply (CameraPitch_angle cam_near_pole cam_near_pole_cross).
      rewrite cam_near_pole_clamp. lra. }
    rewrite Ev, cam_near_pole_clamp in Hang. lra. }
  split; [ exact Hy | ]. split; [ exact Hp | ].
  intros E. apply Hp. rewrite E. exact Hy.
Qed.

(** ** Composition of rotations about one axis *)

Lemma rodrigues_compose : forall (v k : V) (a b : R),
  sqlen k = 1 ->
  Vector3RotateByAxisAngle (Vector3RotateByAxisAngle v k a) k b
    = Vector3RotateByAxisAngle v k (a + b).
Proof.
  intros v k a b Hk.
  rewrite !(Vector3RotateByAxisAngle_rodrigues _ k _ Hk).
  rewrite cos_plus, sin_plus.
  pose proof (sin_cos_half a) as Ha. pose proof (sin_cos_half b) as Hb.
  revert Ha Hb. generalize (cos a) (sin a) (cos b) (sin b).
  intros ca sa cb sb Ha Hb.
  destruct v as [vx vy vz], k as [kx ky kz]. unfold sqlen in Hk. cbn in Hk.
  apply vec_eq; cbn; nsatz.
Qed.

Lemma Vector3RotateByAxisAngle_compose : forall (v axis : V) (a b : R),
  Vector3RotateByAxisAngle (Vector3RotateByAxisAngle v axis a) axis b
    = Vector3RotateByAxisAngle v axis (a + b).
Proof.
  intros v axis a b.
  destruct (Req_dec_T (Vector3Length axis) 0) as [E | E].
  - rewrite (Vector3Length_zero _ E), !Vector3RotateByAxisAngle_vzero.
    reflexivity.
  - assert (Hn : axis <> vzero).
    { intros Hz. apply E. rewrite Hz. apply Vector3Length_vzero. }
    assert (Hk : sqlen (Vector3Normalize axis) = 1)
      by (apply Vector3Normalize_unit, Hn).
    assert (Hr : forall w t, Vector3RotateByAxisAngle w axis t
                   = Vector3RotateByAxisAngle w (Vector3Normalize axis) t).
    { intros w t. rewrite !Vector3RotateByAxisAngle_eq.
      rewrite (Vector3Normalize_unit_id _ Hk). reflexivity. }
    rewrite !Hr. apply rodrigues_compose, Hk.
Qed.

(** A rotation fixes its axis. *)
Lemma Vector3RotateByAxisAngle_axis : forall (axis : V) (s angle : R),
  Vector3RotateByAxisAngle (Vector3Scale axis s) axis angle
    = Vector3Scale axis s.
Proof.
  intros axis s angle. rewrite Vector3RotateByAxisAngle_eq.
  rewrite Vector3Normalize_eq.
  destruct (Req_dec_T (Vector3Length axis) 0) as [E | E];
    destruct axis as [kx ky kz]; unfold rot; apply vec_eq; cbn; ring.
Qed.

(** ** The camera basis *)

Lemma dot_cross_l : forall a b : V,
  Vector3DotProduct (Vector3CrossProduct a b) a = 0.
Proof. intros [] []. cbn. ring. Qed.

Lemma dot_cross_r : forall a b : V,
  Vector3DotProduct (Vector3CrossProduct a b) b = 0.
Proof. intros [] []. cbn. ring. Qed.

Lemma dot_normalize_l : forall a b : V,
  Vector3DotProduct a b = 0 -> Vector3DotProduct (Vector3Normalize a) b = 0.
Proof.
  intros a b H. rewrite Vector3Normalize_eq.
  destruct (Req_dec_T (Vector3Length a) 0); [ exact H | ].
  rewrite dot_scale_l, H. ring.
Qed.

Lemma GetCameraUp_unit : forall c : Cam,
  up c <> vzero -> sqlen (GetCameraUp c) = 1.
Proof. intros c H. apply Vector3Normalize_unit, H. Qed.

(** The forward, up and right vectors are unit vectors, and the right
    vector is orthogonal to the other two, for a camera that looks neither
    along its up vector nor against it; on the poles, and when position and
    target coincide, the right vector is the zero vector. *)
Theorem camera_basis : forall c : Cam,
  (position c <> target c -> sqlen (GetCameraForward c) = 1)
  /\ (up c <> vzero -> sqlen (GetCameraUp c) = 1)
  /\ Vector3DotProduct (GetCameraRight c) (GetCameraForward c) = 0
  /\ Vector3DotProduct (GetCameraRight c) (GetCameraUp c) = 0
  /\ (off_poles c -> sqlen (GetCameraRight c) = 1)
  /\ (~ off_poles c -> GetCameraRight c = vzero).
Proof.
  intros c. split; [ apply GetCameraForward_unit | ].
  split; [ apply GetCameraUp_unit | ].
  split; [ unfold GetCameraRight; apply dot_normalize_l, dot_cross_l | ].
  split; [ unfold GetCameraRight; apply dot_normalize_l, dot_cross_r | ].
  split.
  - intros H. apply off_poles_cross in H.
    rewrite GetCameraRight_eq. apply Vector3Normalize_unit.
    apply (pitch_not_parallel c H).
  - intros H. apply GetCameraRight_on_pole.
    destruct (Req_dec_T (sqlen (Vector3CrossProduct (up c) (view c))) 0)
      as [Hz | Hz]; [ apply sqlen_zero, Hz | ].
    exfalso. apply H, off_poles_cross. intros E. apply Hz.
    rewrite E. apply sqlen_vzero.
Qed.

(** ** Yaw *)

Lemma CameraYaw_view : forall (c : Cam) (angle : R) (t : bool),
  view (CameraYaw c angle t)
    = Vector3RotateByAxisAngle (view c) (GetCameraUp c) angle.
Proof.
  intros c angle t. unfold CameraYaw, view.
  destruct t; unfold set_position, set_target; cbn [position target];
    rewrite ?sub_sub_cancel, ?sub_add_left; reflexivity.
Qed.

Lemma CameraYaw_up : forall (c : Cam) (angle : R) (t : bool),
  up (CameraYaw c angle t) = up c.
Proof. intros c angle []; reflexivity. Qed.

Lemma CameraYaw_fixed_point : forall (c : Cam) (angle : R),
  target (CameraYaw c angle true) = target c
  /\ position (CameraYaw c angle false) = position c.
Proof. intros; split; reflexivity. Qed.

(** Two yaws add up, and a yaw followed by the opposite yaw gives the
    camera back. *)
Theorem CameraYaw_compose : forall (c : Cam) (a b : R) (t : bool),
  CameraYaw (CameraYaw c a t) b t = CameraYaw c (a + b) t
  /\ CameraYaw (CameraYaw c a t) (- a) t = c.
Proof.
  intros c a b t.
  assert (H : forall b', CameraYaw (CameraYaw c a t) b' t = CameraYaw c (a + b') t).
  { intros b'. unfold CameraYaw at 1. fold (view (CameraYaw c a t)).
    unfold GetCameraUp. rewrite CameraYaw_up, CameraYaw_view.
    fold (GetCameraUp c). rewrite Vector3RotateByAxisAngle_compose.
    unfold CameraYaw. fold (view c).
    destruct t; unfold set_position, set_target; reflexivity. }
  split; [ apply H | ].
  rewrite H. apply CameraYaw_0. ring.
Qed.

Lemma rotate_own_axis : forall (k : V) (angle : R),
  Vector3RotateByAxisAngle k k angle = k.
Proof.
  intros k angle.
  replace k with (Vector3Scale k 1) at 1 3
    by (destruct k; apply vec_eq; cbn; ring).
  apply Vector3RotateByAxisAngle_axis.
Qed.

(** A yaw keeps the distance between position and target and the angle
    between the up vector and the view direction. *)
Theorem CameraYaw_keeps_distance_and_pitch : forall (c : Cam) (angle : R) (t : bool),
  Vector3Distance (position (CameraYaw c angle t)) (target (CameraYaw c angle t))
    = Vector3Distance (position c) (target c)
  /\ Vector3Angle (GetCameraUp (CameraYaw c angle t))
                  (GetCameraForward (CameraYaw c angle t))
     = Vector3Angle (GetCameraUp c) (GetCameraForward c).
Proof.
  intros c angle t. split.
  - rewrite !Vector3Distance_eq. fold (view (CameraYaw c angle t)) (view c).
    rewrite CameraYaw_view. apply Vector3Length_sqlen_eq.
    apply Vector3RotateByAxisAngle_sqlen.
  - unfold GetCameraForward. fold (view (CameraYaw c angle t)) (view c).
    rewrite !Vector3Angle_normalize_r.
    unfold GetCameraUp at 1. rewrite CameraYaw_up. fold (GetCameraUp c).
    rewrite CameraYaw_view.
    transitivity
      (Vector3Angle
         (Vector3RotateByAxisAngle (GetCameraUp c) (GetCameraUp c) angle)
         (Vector3RotateByAxisAngle (view c) (GetCameraUp c) angle)).
    + rewrite rotate_own_axis. reflexivity.
    + apply Vector3RotateByAxisAngle_angle.
Qed.

(** ** Roll *)

(** Two rolls add up, and a roll followed by the opposite roll gives the
    camera back. *)
Theorem CameraRoll_compose : forall (c : Cam) (a b : R),
  CameraRoll (CameraRoll c a) b = CameraRoll c (a + b)
  /\ CameraRoll (CameraRoll c a) (- a) = c.
Proof.
  intros c a b.
  assert (H : forall b', CameraRoll (CameraRoll c a) b' = CameraRoll c (a + b')).
  { intros b'. unfold CameraRoll, set_up, GetCameraForward.
    cbn [position target up fovy projection].
    rewrite Vector3RotateByAxisAngle_compose. reflexivity. }
  split; [ apply H | ].
  rewrite H. apply CameraRoll_0. ring.
Qed.

(** A roll keeps the length of the up vector and its angle to the forward
    vector. *)
Theorem CameraRoll_keeps_up_length_and_pitch : forall (c : Cam) (angle : R),
  Vector3Length (up (CameraRoll c angle)) = Vector3Length (up c)
  /\ GetCameraForward (CameraRoll c angle) = GetCameraForward c
  /\ Vector3Angle (GetCameraUp (CameraRoll c angle))
                  (GetCameraForward (CameraRoll c angle))
     = Vector3Angle (GetCameraUp c) (GetCameraForward c).
Proof.
  intros c angle. split; [ | split ].
  - unfold CameraRoll, set_up. cbn [up].
    apply Vector3Length_sqlen_eq, Vector3RotateByAxisAngle_sqlen.
  - reflexivity.
  - change (GetCameraForward (CameraRoll c angle)) with (GetCameraForward c).
    unfold GetCameraUp. rewrite !Vector3Angle_normalize_l.
    unfold CameraRoll, set_up. cbn [up].
    transitivity
      (Vector3Angle
         (Vector3RotateByAxisAngle (up c) (GetCameraForward c) angle)
         (Vector3RotateByAxisAngle (GetCameraForward c) (GetCameraForward c) angle)).
    + rewrite rotate_own_axis. reflexivity.
    + apply Vector3RotateByAxisAngle_angle.
Qed.

(** ** Movement: composition *)

Lemma translate_translate : forall (c : Cam) (v : V) (d1 d2 : R),
  translate (translate c (Vector3Scale v d1)) (Vector3Scale v d2)
    = translate c (Vector3Scale v (d1 + d2)).
Proof.
  intros [p t u f pr] [vx vy vz] d1 d2. unfold translate.
  cbn [position target up fovy projection].
  f_equal; apply vec_eq; cbn; ring.
Qed.

Lemma translate_comm : forall (c : Cam) (v w : V),
  translate (translate c v) w = translate (translate c w) v.
Proof.
  intros [p t u f pr] [vx vy vz] [wx wy wz]. unfold translate.
  cbn [position target up fovy projection].
  f_equal; apply vec_eq; cbn; ring.
Qed.

Lemma translate_right : forall (c : Cam) (v : V),
  GetCameraRight (translate c v) = GetCameraRight c.
Proof.
  intros c v. unfold GetCameraRight. rewrite translate_forward. reflexivity.
Qed.

Lemma translate_right_dir : forall (c : Cam) (v : V) (w : bool),
  right_dir (translate c v) w = right_dir c w.
Proof.
  intros c v w. unfold right_dir. rewrite translate_right. reflexivity.
Qed.

Lemma translate_up : forall (c : Cam) (v : V),
  GetCameraUp (translate c v) = GetCameraUp c.
Proof. reflexivity. Qed.

(** The three movements are translations of position and target by the
    same vector: they keep the view vector, and with it the forward and
    right vectors and the distance, and they never touch up. *)
Theorem movement_keeps_view : forall (c : Cam) (d : R) (w : bool),
  let keeps (c' : Cam) :=
    view c' = view c /\ up c' = up c
    /\ GetCameraForward c' = GetCameraForward c
    /\ GetCameraRight c' = GetCameraRight c
    /\ Vector3Distance (position c') (target c')
       = Vector3Distance (position c) (target c) in
  keeps (CameraMoveForward c d w) /\ keeps (CameraMoveRight c d w)
  /\ keeps (CameraMoveUp c d).
Proof.
  intros c d w keeps.
  assert (H : forall v, keeps (translate c v)).
  { intros v. unfold keeps. split; [ apply translate_tp | ].
    split; [ reflexivity | ]. split; [ apply translate_forward | ].
    split; [ apply translate_right | ].
    rewrite !Vector3Distance_eq. fold (view (translate c v)) (view c).
    unfold view. rewrite translate_tp. reflexivity. }
  rewrite CameraMoveForward_translate, CameraMoveRight_translate,
    CameraMoveUp_translate.
  split; [ | split ]; apply H.
Qed.

(** Two movements of the same kind add up. *)
Theorem movement_adds : forall (c : Cam) (d1 d2 : R) (w : bool),
  CameraMoveForward (CameraMoveForward c d1 w) d2 w
    = CameraMoveForward c (d1 + d2) w
  /\ CameraMoveRight (CameraMoveRight c d1 w) d2 w
     = CameraMoveRight c (d1 + d2) w
  /\ CameraMoveUp (CameraMoveUp c d1) d2 = CameraMoveUp c (d1 + d2).
Proof.
  intros c d1 d2 w. split; [ | split ].
  - rewrite (CameraMoveForward_translate c d1 w).
    rewrite !CameraMoveForward_translate, translate_forward_dir.
    apply translate_translate.
  - rewrite (CameraMoveRight_translate c d1 w).
    rewrite !CameraMoveRight_translate, translate_right_dir.
    apply translate_translate.
  - rewrite (CameraMoveUp_translate c d1).
    rewrite !CameraMoveUp_translate, translate_up.
    apply translate_translate.
Qed.

(** CameraMoveRight and CameraMoveUp followed by the opposite movement
    give the camera back. *)
Theorem CameraMoveRight_Up_round_trip : forall (c : Cam) (d : R) (w : bool),
  CameraMoveRight (CameraMoveRight c d w) (- d) w = c
  /\ CameraMoveUp (CameraMoveUp c d) (- d) = c.
Proof.
  intros c d w. split.
  - rewrite (CameraMoveRight_translate c d w).
    rewrite CameraMoveRight_translate, translate_right_dir.
    apply translate_back.
  - rewrite (CameraMoveUp_translate c d).
    rewrite CameraMoveUp_translate, translate_up.
    apply translate_back.
Qed.

(** The three movements commute with each other. *)
Theorem movement_commutes : forall (c : Cam) (a b : R) (w1 w2 : bool),
  CameraMoveRight (CameraMoveForward c a w1) b w2
    = CameraMoveForward (CameraMoveRight c b w2) a w1
  /\ CameraMoveUp (CameraMoveForward c a w1) b
     = CameraMoveForward (CameraMoveUp c b) a w1
  /\ CameraMoveUp (CameraMoveRight c a w1) b
     = CameraMoveRight (CameraMoveUp c b) a w1.
Proof.
  intros c a b w1 w2. split; [ | split ].
  - rewrite (CameraMoveForward_translate c a w1),
      (CameraMoveRight_translate c b w2).
    rewrite CameraMoveRight_translate, CameraMoveForward_translate.
    rewrite translate_right_dir, translate_forward_dir. apply translate_comm.
  - rewrite (CameraMoveForward_translate c a w1), (CameraMoveUp_translate c b).
    rewrite CameraMoveUp_translate, CameraMoveForward_translate.
    rewrite translate_up, translate_forward_dir. apply translate_comm.
  - rewrite (CameraMoveRight_translate c a w1), (CameraMoveUp_translate c b).
    rewrite CameraMoveUp_translate, CameraMoveRight_translate.
    rewrite translate_up, translate_right_dir. apply translate_comm.
Qed.

(** ** Movement in the world plane *)

Lemma zeroed_component : forall (a : Axis) (v : V),
  axis_component a (Vector3Normalize (zero_axis a v)) = 0.
Proof.
  intros a v. rewrite Vector3Normalize_eq.
  destruct (Req_dec_T (Vector3Length (zero_axis a v)) 0);
    destruct a; cbn; lra.
Qed.

Lemma translate_component : forall (a : Axis) (c : Cam) (v : V) (d : R),
  axis_component a v = 0 ->
  axis_component a (position (translate c (Vector3Scale v d)))
    = axis_component a (position c)
  /\ axis_component a (target (translate c (Vector3Scale v d)))
     = axis_component a (target c).
Proof.
  intros a c v d H. unfold translate. cbn [position target].
  destruct a; cbn in *; rewrite H; split; ring.
Qed.


(** ** Zoom *)

Lemma CameraMoveToTarget_view : forall (c : Cam) (delta : R),
  view (CameraMoveToTarget c delta)
    = Vector3Scale (GetCameraForward c) (new_distance c delta).
Proof.
  intros c delta. rewrite CameraMoveToTarget_eq. unfold view, set_position.
  cbn [position target].
  destruct (target c), (GetCameraForward c). apply vec_eq; cbn; ring.
Qed.

Lemma CameraMoveToTarget_forward : forall (c : Cam) (delta : R),
  position c <> target c ->
  GetCameraForward (CameraMoveToTarget c delta) = GetCameraForward c.
Proof.
  intros c delta H. unfold GetCameraForward at 1.
  fold (view (CameraMoveToTarget c delta)). rewrite CameraMoveToTarget_view.
  rewrite Vector3Normalize_scale_pos by apply new_distance_pos.
  apply Vector3Normalize_unit_id, GetCameraForward_unit, H.
Qed.

Lemma forward_times_distance : forall c : Cam,
  Vector3Scale (GetCameraForward c) (Vector3Distance (position c) (target c))
    = view c.
Proof.
  intros c. unfold GetCameraForward. fold (view c).
  rewrite Vector3Distance_eq. fold (view c). rewrite Vector3Normalize_eq.
  destruct (Req_dec_T (Vector3Length (view c)) 0) as [E | E].
  - rewrite E. rewrite (Vector3Length_zero _ E). apply scale_vzero.
  - destruct (view c). apply vec_eq; cbn; field; exact E.
Qed.

Lemma CameraMoveToTarget_0 : forall (c : Cam) (delta : R),
  position c <> target c -> delta = 0 -> CameraMoveToTarget c delta = c.
Proof.
  intros c delta H ->.
  pose proof (proj2 (apart_iff c) H) as Hd.
  rewrite CameraMoveToTarget_eq. unfold new_distance.
  destruct (Rle_dec (Vector3Distance (position c) (target c) + 0) 0);
    [ lra | ].
  replace (Vector3Distance (position c) (target c) + 0)
    with (Vector3Distance (position c) (target c)) by ring.
  destruct c as [p t u f pr]. unfold set_position.
  cbn [position target up fovy projection]. f_equal.
  set (c := mkCamera p t u f pr).
  transitivity (Vector3Subtract t (view c)).
  - rewrite <- (forward_times_distance c).
    change (position c) with p. change (target c) with t.
    destruct t, (GetCameraForward c). apply vec_eq; cbn; ring.
  - unfold view, c. cbn [position target]. apply sub_sub_cancel.
Qed.

(** For a camera whose position is not its target, CameraMoveToTarget
    moves the position along the line of sight: target, up and the forward
    vector are unchanged; a zero delta changes nothing; and two zooms add
    up as long as the first one is not cut off at 0.001. *)
Theorem CameraMoveToTarget_along_sight : forall (c : Cam) (d1 d2 : R),
  position c <> target c ->
  target (CameraMoveToTarget c d1) = target c
  /\ up (CameraMoveToTarget c d1) = up c
  /\ GetCameraForward (CameraMoveToTarget c d1) = GetCameraForward c
  /\ CameraMoveToTarget c 0 = c
  /\ (0 < Vector3Distance (position c) (target c) + d1 ->
      CameraMoveToTarget (CameraMoveToTarget c d1) d2
        = CameraMoveToTarget c (d1 + d2)).
Proof.
  intros c d1 d2 H.
  pose proof (proj2 (apart_iff c) H) as Hd.
  split; [ reflexivity | ]. split; [ reflexivity | ].
  split; [ apply CameraMoveToTarget_forward, H | ]. split.
  - apply CameraMoveToTarget_0; [ exact H | reflexivity ].
  - intros Hpos.
    pose proof (CameraMoveToTarget_apart c d1 H) as H1.
    rewrite (CameraMoveToTarget_eq (CameraMoveToTarget c d1) d2).
    rewrite (CameraMoveToTarget_forward c d1 H).
    rewrite (CameraMoveToTarget_eq c (d1 + d2)).
    change (target (CameraMoveToTarget c d1)) with (target c).
    assert (Hn : new_distance (CameraMoveToTarget c d1) d2
                 = new_distance c (d1 + d2)).
    { unfold new_distance at 1.
      rewrite (CameraMoveToTarget_distance c d1 H).
      unfold new_distance.
      destruct (Rle_dec (Vector3Distance (position c) (target c) + d1) 0);
        [ lra | ].
      destruct (Rle_dec (Vector3Distance (position c) (target c) + d1 + d2) 0);
        destruct (Rle_dec (Vector3Distance (position c) (target c) + (d1 + d2)) 0);
        lra. }
    rewrite Hn. rewrite CameraMoveToTarget_eq. reflexivity.
Qed.

(** ** Pitch *)

Lemma CameraPitch_unlocked_eq : forall (c : Cam) (angle : R) (t : bool),
  CameraPitch c angle false t false
    = if t then
        set_position c
          (Vector3Subtract (target c)
             (Vector3RotateByAxisAngle (view c) (GetCameraRight c) angle))
      else
        set_target c
          (Vector3Add (position c)
             (Vector3RotateByAxisAngle (view c) (GetCameraRight c) angle)).
Proof. intros c angle []; reflexivity. Qed.

Lemma CameraPitch_any_view : forall (c : Cam) (angle : R) (l t u : bool),
  view (CameraPitch c angle l t u)
    = Vector3RotateByAxisAngle (view c) (GetCameraRight c)
        (if l then pitch_clamp c angle else angle).
Proof.
  intros c angle l t u. destruct l.
  - rewrite CameraPitch_clamped. apply CameraPitch_view.
  - apply CameraPitch_view.
Qed.

(** A pitch, clamped or not, keeps the distance between position and
    target and the length of the up vector. *)
Theorem CameraPitch_keeps_lengths : forall (c : Cam) (angle : R) (l t u : bool),
  Vector3Distance (position (CameraPitch c angle l t u))
                  (target (CameraPitch c angle l t u))
    = Vector3Distance (position c) (target c)
  /\ Vector3Length (up (CameraPitch c angle l t u)) = Vector3Length (up c).
Proof.
  intros c angle l t u. split.
  - rewrite !Vector3Distance_eq. fold (view (CameraPitch c angle l t u)) (view c).
    rewrite CameraPitch_any_view. apply Vector3Length_sqlen_eq.
    apply Vector3RotateByAxisAngle_sqlen.
  - destruct l; [ rewrite CameraPitch_clamped | ]; rewrite CameraPitch_up;
      (destruct u; [ | reflexivity ]);
      apply Vector3Length_sqlen_eq, Vector3RotateByAxisAngle_sqlen.
Qed.

(** Under lockView and without rotateUp, for a camera off the poles, a
    pitch request beyond the upper limit stops exactly 0.001 radians from
    Up, a request beyond the lower limit stops exactly
    0.001 radians from -Up, and a request within the limits is applied as
    it is. *)
Theorem CameraPitch_lockView_saturates : forall (c : Cam) (angle : R) (t : bool),
  off_poles c ->
  let c' := CameraPitch c angle true t false in
  (pitch_maxAngleUp c <= angle ->
   Vector3Angle (GetCameraUp c') (GetCameraForward c') = 0.001)
  /\ (angle <= pitch_maxAngleDown c ->
      Vector3Angle (GetCameraUp c') (GetCameraForward c') = PI - 0.001)
  /\ (pitch_maxAngleDown c <= angle <= pitch_maxAngleUp c ->
      c' = CameraPitch c angle false t false).
Proof.
  intros c angle t Hoff c'.
  apply off_poles_cross in Hoff.
  destruct (pitch_angles c Hoff) as (Hr & Hn).
  destruct (pitch_clamp_range c Hoff angle) as (Hcl & Hcr).
  pose proof PI2_1 as Hpi.
  assert (Ec : c' = CameraPitch c (pitch_clamp c angle) false t false)
    by apply CameraPitch_clamped.
  assert (Ha : Vector3Angle (GetCameraUp c') (GetCameraForward c')
               = Vector3Angle (GetCameraUp c) (view c) - pitch_clamp c angle).
  { rewrite Ec. unfold GetCameraForward.
    fold (view (CameraPitch c (pitch_clamp c angle) false t false)).
    rewrite Vector3Angle_normalize_r, CameraPitch_GetCameraUp.
    apply (CameraPitch_angle c Hoff). lra. }
  assert (Hup : pitch_maxAngleUp c = Vector3Angle (GetCameraUp c) (view c) - 0.001)
    by apply pitch_maxAngleUp_eq.
  assert (Hdown : pitch_maxAngleDown c
                  = Vector3Angle (GetCameraUp c) (view c) - PI + 0.001)
    by (rewrite pitch_maxAngleDown_eq, Hn; ring).
  split; [ | split ].
  - intros H. rewrite Ha. rewrite pitch_clamp_eq. cbv zeta.
    destruct (Rlt_dec (pitch_maxAngleUp c) angle) as [H1 | H1].
    + destruct (Rlt_dec (pitch_maxAngleUp c) (pitch_maxAngleDown c)); lra.
    + assert (angle = pitch_maxAngleUp c) by lra. subst angle.
      destruct (Rlt_dec (pitch_maxAngleUp c) (pitch_maxAngleDown c)); lra.
  - intros H. rewrite Ha. rewrite pitch_clamp_eq. cbv zeta.
    destruct (Rlt_dec (pitch_maxAngleUp c) angle) as [H1 | H1]; [ lra | ].
    destruct (Rlt_dec angle (pitch_maxAngleDown c)); lra.
  - intros H. rewrite Ec, pitch_clamp_id by exact H. reflexivity.
Qed.

Lemma CameraPitch_lockView_saturates_witness :
  off_poles cam0
  /\ (pitch_maxAngleUp cam0 <= 10 ->
      Vector3Angle (GetCameraUp (CameraPitch cam0 10 true false false))
                   (GetCameraForward (CameraPitch cam0 10 true false false))
        = 0.001).
Proof.
  split; [ exact cam0_off_poles | ].
  destruct (CameraPitch_lockView_saturates cam0 10 false cam0_off_poles)
    as (H & _).
  exact H.
Defined.

(** The right axis is the same after a pitch that stays between the
    poles. *)
Lemma pitched_axis : forall (U v : V) (angle : R),
  sqlen U = 1 -> Vector3CrossProduct v U <> vzero ->
  0 < Vector3Angle U v - angle < PI ->
  pitch_axis U (pitched U v angle) = pitch_axis U v.
Proof.
  intros U v angle HU Hn Hr.
  pose proof (pitched_cross U v HU Hn angle) as Hc.
  pose proof (pitch_M_pos U v Hn) as HM.
  assert (Hlen : Vector3Length (Vector3CrossProduct U v)
                 = Vector3Length (Vector3CrossProduct v U)).
  { apply Vector3Length_sqlen_eq, cross_anticomm_sqlen. }
  rewrite Vector3Angle_eq, Hlen in Hr.
  destruct (Ratan2_polar _ (Vector3DotProduct U v) HM) as (Hrange & Hsin & Hcos).
  assert (Hrho : 0 < sqrt (Vector3DotProduct U v * Vector3DotProduct U v
                           + Vector3Length (Vector3CrossProduct v U)
                             * Vector3Length (Vector3CrossProduct v U)))
    by (apply sqrt_lt_R0; nra).
  assert (Hs : 0 < Vector3Length (Vector3CrossProduct v U) * cos angle
                   - Vector3DotProduct U v * sin angle).
  { revert Hr Hrange Hsin Hcos Hrho.
    generalize (sqrt (Vector3DotProduct U v * Vector3DotProduct U v
                      + Vector3Length (Vector3CrossProduct v U)
                        * Vector3Length (Vector3CrossProduct v U))).
    generalize (Ratan2 (Vector3Length (Vector3CrossProduct v U))
                       (Vector3DotProduct U v)).
    generalize (Vector3Length (Vector3CrossProduct v U)).
    generalize (Vector3DotProduct U v).
    intros e m alpha rho Hr Hrange Hsin Hcos Hrho.
    assert (H1 : 0 < sin (alpha - angle)) by (apply sin_gt_0; lra).
    replace (m * cos angle - e * sin angle) with (rho * sin (alpha - angle)).
    - nra.
    - rewrite sin_minus. rewrite Hsin at 1. rewrite Hcos at 1. ring. }
  unfold pitch_axis at 1.
  replace (Vector3CrossProduct (pitched U v angle) U)
    with (Vector3Scale (pitch_axis U v)
            (Vector3Length (Vector3CrossProduct v U) * cos angle
             - Vector3DotProduct U v * sin angle)).
  - rewrite Vector3Normalize_scale_pos by exact Hs.
    apply Vector3Normalize_unit_id, (pitch_k_unit U v Hn).
  - transitivity (Vector3Scale (Vector3CrossProduct U (pitched U v angle)) (-1)).
    + rewrite Hc. destruct (pitch_axis U v). apply vec_eq; cbn; ring.
    + generalize (pitched U v angle). intros p.
      destruct U, p. apply vec_eq; cbn; ring.
Qed.

(** Without lockView and rotateUp, two pitches add up as long as the
    first one keeps the camera between the poles, and a pitch followed by
    the opposite pitch gives the camera back. *)
Theorem CameraPitch_compose : forall (c : Cam) (a b : R) (t : bool),
  off_poles c ->
  0 < Vector3Angle (GetCameraUp c) (GetCameraForward c) - a < PI ->
  CameraPitch (CameraPitch c a false t false) b false t false
    = CameraPitch c (a + b) false t false
  /\ CameraPitch (CameraPitch c a false t false) (- a) false t false = c.
Proof.
  intros c a b t Hoff Hr.
  apply off_poles_cross in Hoff.
  unfold GetCameraForward in Hr. fold (view c) in Hr.
  rewrite Vector3Angle_normalize_r in Hr.
  set (c1 := CameraPitch c a false t false).
  assert (Hv : view c1
               = Vector3RotateByAxisAngle (view c) (GetCameraRight c) a)
    by apply CameraPitch_view.
  assert (Hright : GetCameraRight c1 = GetCameraRight c).
  { rewrite !GetCameraRight_eq. unfold c1. rewrite CameraPitch_GetCameraUp.
    fold c1. rewrite Hv, GetCameraRight_eq.
    apply (pitched_axis (GetCameraUp c) (view c) a
             (pitch_up_unit c Hoff) (pitch_not_parallel c Hoff) Hr). }
  assert (H : forall b', CameraPitch c1 b' false t false
                         = CameraPitch c (a + b') false t false).
  { intros b'. rewrite (CameraPitch_unlocked_eq c1), (CameraPitch_unlocked_eq c).
    rewrite Hright, Hv, Vector3RotateByAxisAngle_compose.
    unfold c1. rewrite (CameraPitch_unlocked_eq c a t).
    destruct t; unfold set_position, set_target;
      cbn [position target up fovy projection]; reflexivity. }
  split; [ apply H | ].
  rewrite H. apply CameraPitch_0. ring.
Qed.

Lemma CameraPitch_compose_witness :
  off_poles cam0
  /\ 0 < Vector3Angle (GetCameraUp cam0) (GetCameraForward cam0) - 1 < PI
  /\ CameraPitch (CameraPitch cam0 1 false false false) (- 1) false false false
     = cam0.
Proof.
  assert (Hr : 0 < Vector3Angle (GetCameraUp cam0) (GetCameraForward cam0) - 1 < PI).
  { rewrite (proj1 cam0_angles). pose proof PI2_1. lra. }
  split; [ exact cam0_off_poles | ]. split; [ exact Hr | ].
  exact (proj2 (CameraPitch_compose cam0 1 0 false cam0_off_poles Hr)).
Defined.

(** ** The orbital mode *)

Lemma MatrixRotate_transform : forall (v k : V) (angle : R),
  sqlen k = 1 ->
  Vector3Transform v (MatrixRotate k angle)
    = Vector3RotateByAxisAngle v k angle.
Proof.
  intros v k angle Hk.
  rewrite (Vector3RotateByAxisAngle_rodrigues v k angle Hk).
  unfold MatrixRotate.
  change (x k * x k + y k * y k + z k * z k)%fl with (sqlen k).
  rewrite Hk. change (lit 1) with (Q2R 1). change (lit 0) with (Q2R 0).
  rewrite lit_1, lit_0.
  change (1 =? 1)%fl with (Reqb 1 1). rewrite (Reqb_true 1 1 eq_refl).
  cbn [negb andb]. cbv zeta.
  destruct v as [vx vy vz], k as [kx ky kz]. apply vec_eq; cbn; ring.
Qed.

Lemma rotate_opposite : forall (v k : V) (angle : R),
  Vector3RotateByAxisAngle (Vector3Scale v (-1)) k angle
    = Vector3Scale (Vector3RotateByAxisAngle v k angle) (-1).
Proof.
  intros v k angle. rewrite !Vector3RotateByAxisAngle_eq. unfold rot.
  generalize (Vector3Scale (Vector3Normalize k) (sin (angle / 2))).
  intros w. destruct v, w. apply vec_eq; cbn; ring.
Qed.

Lemma update_orbital_yaw : forall (inp : Input R) (c : Cam),
  up c <> vzero ->
  update_orbital inp c
    = CameraYaw c (CAMERA_ORBITAL_SPEED * rl_GetFrameTime inp) true.
Proof.
  intros inp c Hup. unfold update_orbital, CameraYaw.
  change (fmul CAMERA_ORBITAL_SPEED (rl_GetFrameTime inp))
    with (CAMERA_ORBITAL_SPEED * rl_GetFrameTime inp).
  rewrite (MatrixRotate_transform _ _ _ (GetCameraUp_unit c Hup)).
  f_equal.
  replace (Vector3Subtract (position c) (target c))
    with (Vector3Scale (Vector3Subtract (target c) (position c)) (-1))
    by (destruct (position c), (target c); apply vec_eq; cbn; ring).
  rewrite rotate_opposite.
  generalize (Vector3RotateByAxisAngle
                (Vector3Subtract (target c) (position c)) (GetCameraUp c)
                (CAMERA_ORBITAL_SPEED * rl_GetFrameTime inp)).
  intros r. destruct (target c), r. apply vec_eq; cbn; ring.
Qed.

(** In CAMERA_ORBITAL mode, for a camera with a non-zero up vector, the
    update is a yaw about the target by half a radian per second of frame
    time, followed by the zoom. *)
Theorem UpdateCamera_orbital_is_yaw : forall (inp : Input R) (c : Cam),
  up c <> vzero ->
  rl_UpdateCamera inp c CAMERA_ORBITAL
    = update_zoom inp (CameraYaw c (0.5 * rl_GetFrameTime inp) true).
Proof.
  intros inp c Hup.
  change (rl_UpdateCamera inp c CAMERA_ORBITAL)
    with (update_zoom inp (update_orbital inp c)).
  rewrite (update_orbital_yaw inp c Hup). reflexivity.
Qed.

Lemma UpdateCamera_orbital_is_yaw_witness :
  up cam0 <> vzero
  /\ rl_UpdateCamera input_forward cam0 CAMERA_ORBITAL
     = update_zoom input_forward
         (CameraYaw cam0 (0.5 * rl_GetFrameTime input_forward) true).
Proof.
  assert (H : up cam0 <> vzero).
  { intros E. apply (f_equal (@y R)) in E. cbn in E. lra. }
  split; [ exact H | ].
  exact (UpdateCamera_orbital_is_yaw input_forward cam0 H).
Defined.

(** ** Frames without input *)

Lemma away_from_poles : forall c : Cam,
  0.001 <= Vector3Angle (GetCameraUp c) (GetCameraForward c) ->
  0.001 <= Vector3Angle (Vector3Negate (GetCameraUp c)) (GetCameraForward c) ->
  position c <> target c /\ pitch_clamp c 0 = 0.
Proof.
  intros c Hup Hdown.
  assert (Hoff : off_poles c) by (split; lra).
  apply off_poles_cross in Hoff. split.
  - intros E. apply (cross_nonzero_r _ _ Hoff). apply sub_eq_vzero, E.
  - unfold GetCameraForward in Hup, Hdown. fold (view c) in Hup, Hdown.
    rewrite Vector3Angle_normalize_r in Hup, Hdown.
    apply pitch_clamp_id.
    rewrite pitch_maxAngleUp_eq, pitch_maxAngleDown_eq. lra.
Qed.

Lemma look_by_nothing : forall (c : Cam) (a b : R) (t : bool),
  pitch_clamp c 0 = 0 -> a = 0 -> b = 0 ->
  CameraPitch (CameraYaw c a t) b true t false = c.
Proof.
  intros c a b t Hc -> ->.
  rewrite CameraYaw_0 by reflexivity.
  rewrite CameraPitch_clamped, Hc. apply CameraPitch_0. reflexivity.
Qed.

Section IdleInput.

Variable inp : Input R.
Hypothesis no_key_down : forall k, rl_IsKeyDown inp k = false.
Hypothesis no_key_pressed : forall k, rl_IsKeyPressed inp k = false.
Hypothesis no_gamepad : rl_IsGamepadAvailable inp 0 = false.
Hypothesis no_mouse_move : rl_GetMouseDelta inp = mkVector2 0 0.
Hypothesis no_wheel : rl_GetMouseWheelMove inp = 0.

Lemma update_shared_without_input : forall (c : Cam) (isFree w t : bool),
  pitch_clamp c 0 = 0 ->
  update_shared inp c isFree w t true false = c.
Proof.
  intros c isFree w t Hc. unfold update_shared.
  rewrite !no_key_down, no_gamepad, no_mouse_move.
  cbn [x2 y2]. unfold when.
  change (flt ?a ?b) with (Rltb a b). change (lit 0) with (Q2R 0).
  rewrite lit_0, (Rltb_false 0 0) by lra.
  assert (Hlook : CameraPitch
                    (CameraYaw c (- 0 * CAMERA_MOUSE_MOVE_SENSITIVITY)%fl t)
                    (- 0 * CAMERA_MOUSE_MOVE_SENSITIVITY)%fl true t false = c).
  { apply look_by_nothing; [ exact Hc | | ];
      change (- 0 * CAMERA_MOUSE_MOVE_SENSITIVITY = 0); ring. }
  destruct isFree; cbn [andb];
    [ destruct (rl_IsMouseButtonDown inp MOUSE_BUTTON_MIDDLE) | ];
    rewrite ?Hlook; reflexivity.
Qed.

Lemma update_zoom_without_input : forall c : Cam,
  position c <> target c -> update_zoom inp c = c.
Proof.
  intros c H. unfold update_zoom. rewrite !no_key_pressed, no_wheel.
  unfold when. apply CameraMoveToTarget_0; [ exact H | ].
  change (- 0 = 0). ring.
Qed.

(** In the modes CAMERA_FREE, CAMERA_FIRST_PERSON and CAMERA_THIRD_PERSON,
    a frame with no key held or pressed, no gamepad, no mouse movement and
    no wheel movement leaves a camera unchanged when its forward vector is
    at least 0.001 radians away from Up and from -Up. *)
Theorem UpdateCamera_without_input : forall (c : Cam) (mode : Z),
  mode = CAMERA_FREE \/ mode = CAMERA_FIRST_PERSON
    \/ mode = CAMERA_THIRD_PERSON ->
  0.001 <= Vector3Angle (GetCameraUp c) (GetCameraForward c) ->
  0.001 <= Vector3Angle (Vector3Negate (GetCameraUp c)) (GetCameraForward c) ->
  rl_UpdateCamera inp c mode = c.
Proof.
  intros c mode Hmode Hup Hdown.
  destruct (away_from_poles c Hup Hdown) as (Hd & Hc).
  destruct Hmode as [-> | [-> | ->]].
  - change (rl_UpdateCamera inp c CAMERA_FREE)
      with (update_zoom inp (update_shared inp c true false false true false)).
    rewrite update_shared_without_input by exact Hc.
    apply update_zoom_without_input, Hd.
  - change (rl_UpdateCamera inp c CAMERA_FIRST_PERSON)
      with (update_shared inp c false true false true false).
    apply update_shared_without_input, Hc.
  - change (rl_UpdateCamera inp c CAMERA_THIRD_PERSON)
      with (update_zoom inp (update_shared inp c false true true true false)).
    rewrite update_shared_without_input by exact Hc.
    apply update_zoom_without_input, Hd.
Qed.

End IdleInput.

(** rl_UpdateCameraPro with zero movement, zero rotation and zero zoom
    leaves a camera unchanged when its forward vector is at least 0.001
    radians away from Up and from -Up. *)
Theorem UpdateCameraPro_without_input : forall c : Cam,
  0.001 <= Vector3Angle (GetCameraUp c) (GetCameraForward c) ->
  0.001 <= Vector3Angle (Vector3Negate (GetCameraUp c)) (GetCameraForward c) ->
  rl_UpdateCameraPro c (mkVector3 0 0 0) (mkVector3 0 0 0) 0 = c.
Proof.
  intros c Hup Hdown.
  destruct (away_from_poles c Hup Hdown) as (Hd & Hc).
  rewrite UpdateCameraPro_yaw_only_eq, Hc.
  rewrite CameraPitch_0 by reflexivity.
  rewrite CameraYaw_0 by apply (proj1 deg2rad_0).
  apply CameraMoveToTarget_0; [ exact Hd | reflexivity ].
Qed.

(** ** Instances on the concrete cameras *)

Lemma camera_basis_witness :
  off_poles cam0 /\ sqlen (GetCameraRight cam0) = 1.
Proof.
  split; [ exact cam0_off_poles | ].
  destruct (camera_basis cam0) as (_ & _ & _ & _ & H & _).
  exact (H cam0_off_poles).
Defined.

Lemma CameraMoveToTarget_along_sight_witness :
  position cam0 <> target cam0
  /\ GetCameraForward (CameraMoveToTarget cam0 (-3)) = GetCameraForward cam0.
Proof.
  split; [ exact cam0_apart | ].
  destruct (CameraMoveToTarget_along_sight cam0 (-3) 0 cam0_apart)
    as (_ & _ & H & _).
  exact H.
Defined.

Lemma cam0_away_from_poles :
  0.001 <= Vector3Angle (GetCameraUp cam0) (GetCameraForward cam0)
  /\ 0.001 <= Vector3Angle (Vector3Negate (GetCameraUp cam0))
                           (GetCameraForward cam0).
Proof.
  destruct cam0_angles as [H1 H2]. rewrite H1, H2.
  pose proof PI2_1. lra.
Qed.

Lemma UpdateCamera_without_input_witness :
  rl_UpdateCamera input_idle cam0 CAMERA_FREE = cam0.
Proof.
  apply (UpdateCamera_without_input input_idle);
    [ intros k; reflexivity | intros k; reflexivity | reflexivity
    | reflexivity | reflexivity | left; reflexivity
    | exact (proj1 cam0_away_from_poles)
    | exact (proj2 cam0_away_from_poles) ].
Defined.

Lemma UpdateCameraPro_without_input_witness :
  rl_UpdateCameraPro cam0 (mkVector3 0 0 0) (mkVector3 0 0 0) 0 = cam0.
Proof.
  apply UpdateCameraPro_without_input;
    [ exact (proj1 cam0_away_from_poles)
    | exact (proj2 cam0_away_from_poles) ].
Defined.

Lemma UpdateCamera_keeps_up_witness :
  up (rl_UpdateCamera input_forward cam0 CAMERA_FREE) = up cam0.
Proof. apply UpdateCamera_keeps_up; reflexivity. Defined.

Lemma UpdateCamera_orbital_frame_witness :
  rl_UpdateCamera input_forward cam0 CAMERA_ORBITAL
    = rl_UpdateCamera input_idle cam0 CAMERA_ORBITAL.
Proof.
  destruct (UpdateCamera_orbital_frame input_forward input_idle cam0)
    as (_ & _ & H).
  apply H; reflexivity.
Defined.

(** ** What the walking modes keep *)

Section Invariant.

(** A property of the camera that the movements and rotations of the
    shared branch keep; the roll keeps it too, or the roll keys are up. *)
Variable inp : Input R.
Variable Inv : Cam -> Prop.
Variables w t l : bool.
Hypothesis Inv_roll :
  (forall (c : Cam) (a : R), Inv c -> Inv (CameraRoll c a))
  \/ (rl_IsKeyDown inp KEY_Q = false /\ rl_IsKeyDown inp KEY_E = false).
Hypothesis Inv_forward : forall (c : Cam) (d : R),
  Inv c -> Inv (CameraMoveForward c d w).
Hypothesis Inv_right : forall (c : Cam) (d : R),
  Inv c -> Inv (CameraMoveRight c d w).
Hypothesis Inv_yaw : forall (c : Cam) (a : R),
  Inv c -> Inv (CameraYaw c a t).
Hypothesis Inv_pitch : forall (c : Cam) (a : R),
  Inv c -> Inv (CameraPitch c a l t false).

Lemma inv_when : forall (b : bool) (f : Cam -> Cam) (c : Cam),
  (forall c', Inv c' -> Inv (f c')) -> Inv c -> Inv (when b f c).
Proof. intros [] f c H Hc; [ apply H, Hc | exact Hc ]. Qed.

Lemma inv_shared : forall c : Cam,
  Inv c -> Inv (update_shared inp c false w t l false).
Proof.
  intros c Hc.
  assert (Hq : forall (a : R) (c' : Cam), Inv c' ->
             Inv (when (rl_IsKeyDown inp KEY_Q) (fun c0 => CameraRoll c0 a) c')).
  { intros a c' H. destruct Inv_roll as [Hr | [Hr _]].
    - apply inv_when; [ intros; apply Hr; assumption | exact H ].
    - rewrite Hr. exact H. }
  assert (He : forall (a : R) (c' : Cam), Inv c' ->
             Inv (when (rl_IsKeyDown inp KEY_E) (fun c0 => CameraRoll c0 a) c')).
  { intros a c' H. destruct Inv_roll as [Hr | [_ Hr]].
    - apply inv_when; [ intros; apply Hr; assumption | exact H ].
    - rewrite Hr. exact H. }
  unfold update_shared. cbv zeta. cbn [andb].
  destruct (rl_IsGamepadAvailable inp 0);
    repeat
      match goal with
      | |- Inv (when (rl_IsKeyDown inp KEY_Q) _ _) => apply Hq
      | |- Inv (when (rl_IsKeyDown inp KEY_E) _ _) => apply He
      | |- Inv (when _ _ _) =>
          apply inv_when;
          [ intros c' Hc'; cbv beta;
            match goal with
            | |- Inv (CameraMoveForward _ _ _) => apply Inv_forward
            | |- Inv (CameraMoveRight _ _ _) => apply Inv_right
            | |- Inv (CameraYaw _ _ _) => apply Inv_yaw
            | |- Inv (CameraPitch _ _ _ _ _) => apply Inv_pitch
            end; exact Hc' | ]
      | |- Inv (CameraYaw _ _ _) => apply Inv_yaw
      | |- Inv (CameraPitch _ _ _ _ _) => apply Inv_pitch
      end;
    exact Hc.
Qed.

End Invariant.

Lemma level_movement : forall (c0 c : Cam) (d : R),
  up c = up c0 ->
  let a := world_plane_axis (up c0) in
  (up (CameraMoveForward c d true) = up c0
   /\ axis_component a (position (CameraMoveForward c d true))
      = axis_component a (position c)
   /\ axis_component a (target (CameraMoveForward c d true))
      = axis_component a (target c))
  /\ (up (CameraMoveRight c d true) = up c0
      /\ axis_component a (position (CameraMoveRight c d true))
         = axis_component a (position c)
      /\ axis_component a (target (CameraMoveRight c d true))
         = axis_component a (target c)).
Proof.
  intros c0 c d Hu a.
  rewrite CameraMoveForward_translate, CameraMoveRight_translate.
  unfold forward_dir, right_dir. rewrite Hu. fold a.
  destruct (translate_component a c _ d (zeroed_component a (GetCameraForward c)))
    as (H1 & H2).
  destruct (translate_component a c _ d (zeroed_component a (GetCameraRight c)))
    as (H3 & H4).
  split; (split; [ exact Hu | split; assumption ]).
Qed.

(** With the roll keys up, CAMERA_FIRST_PERSON keeps the eye level and
    CAMERA_THIRD_PERSON keeps the target level: the coordinate of the
    position, respectively of the target, along the world axis picked from
    the up vector is the same after the update, whatever the other keys,
    the mouse, the wheel and the gamepad do. *)
Theorem walking_modes_stay_level : forall (inp : Input R) (c : Cam),
  rl_IsKeyDown inp KEY_Q = false ->
  rl_IsKeyDown inp KEY_E = false ->
  let a := world_plane_axis (up c) in
  axis_component a (position (rl_UpdateCamera inp c CAMERA_FIRST_PERSON))
    = axis_component a (position c)
  /\ axis_component a (target (rl_UpdateCamera inp c CAMERA_THIRD_PERSON))
     = axis_component a (target c).
Proof.
  intros inp c HQ HE a. split.
  - change (rl_UpdateCamera inp c CAMERA_FIRST_PERSON)
      with (update_shared inp c false true false true false).
    assert (H : (fun c' : Cam =>
                   up c' = up c
                   /\ axis_component a (position c') = axis_component a (position c))
                (update_shared inp c false true false true false)).
    { apply inv_shared.
      - right. split; assumption.
      - intros c' d [Hu Hp].
        destruct (level_movement c c' d Hu) as ((A & B & _) & _).
        split; [ exact A | ]. fold a in B. rewrite B. exact Hp.
      - intros c' d [Hu Hp].
        destruct (level_movement c c' d Hu) as (_ & (A & B & _)).
        split; [ exact A | ]. fold a in B. rewrite B. exact Hp.
      - intros c' a0 H. exact H.
      - intros c' a0 H. exact H.
      - split; reflexivity. }
    exact (proj2 H).
  - change (rl_UpdateCamera inp c CAMERA_THIRD_PERSON)
      with (update_zoom inp (update_shared inp c false true true true false)).
    rewrite (frame_zoom _ (@target R)) by reflexivity.
    assert (H : (fun c' : Cam =>
                   up c' = up c
                   /\ axis_component a (target c') = axis_component a (target c))
                (update_shared inp c false true true true false)).
    { apply inv_shared.
      - right. split; assumption.
      - intros c' d [Hu Hp].
        destruct (level_movement c c' d Hu) as ((A & _ & B) & _).
        split; [ exact A | ]. fold a in B. rewrite B. exact Hp.
      - intros c' d [Hu Hp].
        destruct (level_movement c c' d Hu) as (_ & (A & _ & B)).
        split; [ exact A | ]. fold a in B. rewrite B. exact Hp.
      - intros c' a0 H. exact H.
      - intros c' a0 H. exact H.
      - split; reflexivity. }
    exact (proj2 H).
Qed.

Lemma walking_modes_stay_level_witness :
  axis_component (world_plane_axis (up cam0))
    (position (rl_UpdateCamera input_forward cam0 CAMERA_FIRST_PERSON))
  = axis_component (world_plane_axis (up cam0)) (position cam0).
Proof.
  destruct (walking_modes_stay_level input_forward cam0 eq_refl eq_refl)
    as [H _].
  exact H.
Defined.

Lemma walking_modes_ignore_witness :
  rl_UpdateCamera input_forward cam0 CAMERA_FIRST_PERSON
    = rl_UpdateCamera input_forward_jump cam0 CAMERA_FIRST_PERSON.
Proof.
  refine (proj1 (walking_modes_ignore input_forward input_forward_jump cam0
                   eq_refl eq_refl _ eq_refl (fun _ => eq_refl))).
  intros k H1 H2. unfold input_forward, input_forward_jump.
  cbn [rl_IsKeyDown].
  destruct (Z.eqb_spec k KEY_SPACE) as [E | E]; [ contradiction | ].
  rewrite orb_false_r. reflexivity.
Defined.

(** ** What every rotation and movement keeps *)

Lemma distance_translate : forall (c : Cam) (v : V),
  Vector3Distance (position (translate c v)) (target (translate c v))
    = Vector3Distance (position c) (target c).
Proof.
  intros c v. rewrite !Vector3Distance_eq, translate_tp. reflexivity.
Qed.

Lemma distance_yaw : forall (c : Cam) (angle : R) (t : bool),
  Vector3Distance (position (CameraYaw c angle t)) (target (CameraYaw c angle t))
    = Vector3Distance (position c) (target c).
Proof.
  intros c angle t. rewrite !Vector3Distance_eq.
  fold (view (CameraYaw c angle t)) (view c).
  rewrite CameraYaw_view.
  apply Vector3Length_sqlen_eq, Vector3RotateByAxisAngle_sqlen.
Qed.

Lemma distance_pitch : forall (c : Cam) (angle : R) (l t u : bool),
  Vector3Distance (position (CameraPitch c angle l t u))
                  (target (CameraPitch c angle l t u))
    = Vector3Distance (position c) (target c).
Proof.
  intros c angle l t u. rewrite !Vector3Distance_eq.
  fold (view (CameraPitch c angle l t u)) (view c).
  rewrite CameraPitch_any_view.
  apply Vector3Length_sqlen_eq, Vector3RotateByAxisAngle_sqlen.
Qed.

Lemma distance_zoom_0 : forall c : Cam,
  Vector3Distance (position (CameraMoveToTarget c 0))
                  (target (CameraMoveToTarget c 0))
    = Vector3Distance (position c) (target c).
Proof.
  intros c.
  destruct (Req_dec_T (Vector3Distance (position c) (target c)) 0) as [E | E].
  - assert (Hpt : position c = target c).
    { apply sub_eq_vzero, Vector3Length_zero.
      rewrite <- Vector3Distance_eq. exact E. }
    change (target (CameraMoveToTarget c 0)) with (target c).
    rewrite (CameraMoveToTarget_degenerate c 0 Hpt), Vector3Distance_same.
    symmetry. exact E.
  - rewrite CameraMoveToTarget_0; [ reflexivity | | reflexivity ].
    apply apart_iff.
    pose proof (Vector3Length_nonneg (Vector3Subtract (target c) (position c))) as Hn.
    rewrite <- Vector3Distance_eq in Hn. lra.
Qed.

Section Rigid.

Variable c0 : Cam.

Local Abbreviation rigid c :=
  (Vector3Distance (position c) (target c)
     = Vector3Distance (position c0) (target c0)
   /\ Vector3Length (up c) = Vector3Length (up c0)).

Lemma rigid_forward : forall (c : Cam) (d : R) (w : bool),
  rigid c -> rigid (CameraMoveForward c d w).
Proof.
  intros c d w [H1 H2]. rewrite CameraMoveForward_translate.
  split; [ rewrite distance_translate; exact H1 | exact H2 ].
Qed.

Lemma rigid_right : forall (c : Cam) (d : R) (w : bool),
  rigid c -> rigid (CameraMoveRight c d w).
Proof.
  intros c d w [H1 H2]. rewrite CameraMoveRight_translate.
  split; [ rewrite distance_translate; exact H1 | exact H2 ].
Qed.

Lemma rigid_up : forall (c : Cam) (d : R),
  rigid c -> rigid (CameraMoveUp c d).
Proof.
  intros c d [H1 H2]. rewrite CameraMoveUp_translate.
  split; [ rewrite distance_translate; exact H1 | exact H2 ].
Qed.

Lemma rigid_yaw : forall (c : Cam) (a : R) (t : bool),
  rigid c -> rigid (CameraYaw c a t).
Proof.
  intros c a t [H1 H2].
  split; [ rewrite distance_yaw; exact H1 | rewrite CameraYaw_up; exact H2 ].
Qed.

Lemma rigid_pitch : forall (c : Cam) (a : R) (l t : bool),
  rigid c -> rigid (CameraPitch c a l t false).
Proof.
  intros c a l t [H1 H2].
  split; [ rewrite distance_pitch; exact H1 | ].
  destruct l; [ rewrite CameraPitch_clamped | ]; rewrite CameraPitch_up;
    exact H2.
Qed.

Lemma rigid_roll : forall (c : Cam) (a : R),
  rigid c -> rigid (CameraRoll c a).
Proof.
  intros c a [H1 H2]. split; [ exact H1 | ].
  rewrite <- H2. unfold CameraRoll, set_up. cbn [up].
  apply Vector3Length_sqlen_eq, Vector3RotateByAxisAngle_sqlen.
Qed.

Lemma rigid_zoom_0 : forall c : Cam,
  rigid c -> rigid (CameraMoveToTarget c 0).
Proof.
  intros c [H1 H2].
  split; [ rewrite distance_zoom_0; exact H1 | exact H2 ].
Qed.

End Rigid.

(** The rotations and the movements keep the distance between position
    and target and the length of the up vector: rl_UpdateCamera in
    CAMERA_FIRST_PERSON, for every input, and rl_UpdateCameraPro with a zero
    zoom, for every movement and rotation, return a camera with the same
    distance and the same length of up. *)
Theorem updates_are_rigid :
  forall (inp : Input R) (c : Cam) (movement rotation : V),
  let rigid (c' : Cam) :=
    Vector3Distance (position c') (target c')
      = Vector3Distance (position c) (target c)
    /\ Vector3Length (up c') = Vector3Length (up c) in
  rigid (rl_UpdateCamera inp c CAMERA_FIRST_PERSON)
  /\ rigid (rl_UpdateCameraPro c movement rotation 0).
Proof.
  intros inp c movement rotation rigid. unfold rigid. split.
  - change (rl_UpdateCamera inp c CAMERA_FIRST_PERSON)
      with (update_shared inp c false true false true false).
    apply (inv_shared inp
             (fun c' : Cam =>
                Vector3Distance (position c') (target c')
                  = Vector3Distance (position c) (target c)
                /\ Vector3Length (up c') = Vector3Length (up c))).
    + left. intros c' a H. apply rigid_roll, H.
    + intros c' d H. apply rigid_forward, H.
    + intros c' d H. apply rigid_right, H.
    + intros c' a H. apply rigid_yaw, H.
    + intros c' a H. apply rigid_pitch, H.
    + split; reflexivity.
  - unfold rl_UpdateCameraPro. cbv zeta.
    apply rigid_zoom_0, rigid_up, rigid_right, rigid_forward, rigid_roll,
      rigid_yaw, rigid_pitch.
    split; reflexivity.
Qed.

End Exact.

(** ** Polling the input *)

Module PlatformFacts.

Import List Strings.Byte.
Import Platform.

Local Open Scope Z_scope.

Lemma for_loop_reset_key_repeat : forall (n : nat) (i0 : Z) (kb : KeyboardData),
  currentKeyState (for_loop n i0 reset_key_repeat kb) = currentKeyState kb
  /\ previousKeyState (for_loop n i0 reset_key_repeat kb) = previousKeyState kb
  /\ keyPressedQueueCount (for_loop n i0 reset_key_repeat kb)
     = keyPressedQueueCount kb
  /\ charPressedQueueCount (for_loop n i0 reset_key_repeat kb)
     = charPressedQueueCount kb
  /\ forall j : Z,
       keyRepeatInFrame (for_loop n i0 reset_key_repeat kb) j
       = if (i0 <=? j) && (j <? i0 + Z.of_nat n) then 0
         else keyRepeatInFrame kb j.
Proof.
  induction n as [ | n IH]; intros i0 kb; cbn [for_loop].
  - repeat split. intros j.
    destruct (Z.leb_spec i0 j), (Z.ltb_spec j (i0 + Z.of_nat 0));
      cbn [andb]; try reflexivity; lia.
  - destruct (IH (i0 + 1) (reset_key_repeat i0 kb)) as (A & B & C & D & E).
    rewrite A, B, C, D. repeat split. intros j. rewrite E.
    cbn [reset_key_repeat keyRepeatInFrame]. unfold store.
    destruct (Z.leb_spec (i0 + 1) j), (Z.ltb_spec j (i0 + 1 + Z.of_nat n)),
      (Z.leb_spec i0 j), (Z.ltb_spec j (i0 + Z.of_nat (S n))),
      (Z.eqb_spec j i0); cbn [andb]; try reflexivity; lia.
Qed.

Lemma for_loop_register_key : forall (n : nat) (i0 : Z) (kb : KeyboardData),
  currentKeyState (for_loop n i0 register_key kb) = currentKeyState kb
  /\ keyPressedQueueCount (for_loop n i0 register_key kb)
     = keyPressedQueueCount kb
  /\ charPressedQueueCount (for_loop n i0 register_key kb)
     = charPressedQueueCount kb
  /\ forall j : Z,
       previousKeyState (for_loop n i0 register_key kb) j
       = (if (i0 <=? j) && (j <? i0 + Z.of_nat n) then currentKeyState kb j
          else previousKeyState kb j)
       /\ keyRepeatInFrame (for_loop n i0 register_key kb) j
          = (if (i0 <=? j) && (j <? i0 + Z.of_nat n) then 0
             else keyRepeatInFrame kb j).
Proof.
  induction n as [ | n IH]; intros i0 kb; cbn [for_loop].
  - repeat split; intros;
      destruct (Z.leb_spec i0 j), (Z.ltb_spec j (i0 + Z.of_nat 0));
      cbn [andb]; try reflexivity; lia.
  - destruct (IH (i0 + 1) (register_key i0 kb)) as (A & C & D & E).
    rewrite A, C, D. repeat split; destruct (E j) as [E1 E2];
      [ rewrite E1 | rewrite E2 ];
      cbn [register_key previousKeyState keyRepeatInFrame currentKeyState];
      unfold store;
      destruct (Z.leb_spec (i0 + 1) j), (Z.ltb_spec j (i0 + 1 + Z.of_nat n)),
        (Z.leb_spec i0 j), (Z.ltb_spec j (i0 + Z.of_nat (S n))),
        (Z.eqb_spec j i0); cbn [andb]; subst; try reflexivity; lia.
Qed.

Lemma for_loop_register_touch : forall (n : nat) (i0 : Z) (t : TouchData),
  currentTouchState (for_loop n i0 register_touch t) = currentTouchState t
  /\ forall j : Z,
       previousTouchState (for_loop n i0 register_touch t) j
       = if (i0 <=? j) && (j <? i0 + Z.of_nat n) then currentTouchState t j
         else previousTouchState t j.
Proof.
  induction n as [ | n IH]; intros i0 t; cbn [for_loop].
  - split; [ reflexivity | ]. intros j.
    destruct (Z.leb_spec i0 j), (Z.ltb_spec j (i0 + Z.of_nat 0));
      cbn [andb]; try reflexivity; lia.
  - destruct (IH (i0 + 1) (register_touch i0 t)) as (A & E).
    rewrite A. split; [ reflexivity | ]. intros j. rewrite E.
    cbn [register_touch previousTouchState currentTouchState]. unfold store.
    destruct (Z.leb_spec (i0 + 1) j), (Z.ltb_spec j (i0 + 1 + Z.of_nat n)),
      (Z.leb_spec i0 j), (Z.ltb_spec j (i0 + Z.of_nat (S n))),
      (Z.eqb_spec j i0); cbn [andb]; subst; try reflexivity; lia.
Qed.

Lemma byte_not_EOF : forall b : byte,
  (Z.of_N (Byte.to_N b) =? Memory.EOF) = false.
Proof.
  intros b. apply Z.eqb_neq. unfold Memory.EOF.
  pose proof (N2Z.is_nonneg (Byte.to_N b)). lia.
Qed.

Lemma to_char_escape : forall (char_signed : bool) (b : byte),
  (Memory.to_char char_signed (Z.of_N (Byte.to_N b)) =? 27) = Byte.eqb x1b b.
Proof. intros s b. destruct s, b; vm_compute; reflexivity. Qed.

Lemma kbhit_peeks : forall stdin : list byte,
  Memory.kbhit stdin = (match stdin with nil => 0 | _ :: _ => 1 end, stdin).
Proof.
  intros [ | b rest]; unfold Memory.kbhit, Memory.getchar.
  - reflexivity.
  - rewrite byte_not_EOF. cbn [negb]. unfold Memory.ungetc.
    rewrite N2Z.id, Byte.of_to_N. reflexivity.
Qed.

Lemma PollInputEvents_step : forall (MAXK MAXT : Z) (char_signed : bool)
    (core : CoreData) (stdin : list byte),
  Memory.rl_PollInputEvents MAXK MAXT char_signed (core, stdin)
  = match stdin with
    | nil => (poll_registers MAXK MAXT core, nil)
    | b :: rest =>
        (if Byte.eqb x1b b then
           mkCoreData (mkWindowData (ready (Window core)) true)
             (Input (poll_registers MAXK MAXT core))
         else poll_registers MAXK MAXT core, rest)
    end.
Proof.
  intros MAXK MAXT s core stdin. unfold Memory.rl_PollInputEvents.
  cbv zeta. rewrite kbhit_peeks. destruct stdin as [ | b rest].
  - reflexivity.
  - change (negb (1 =? 0)) with true. cbv iota.
    unfold Memory.getch, Memory.getchar. rewrite to_char_escape.
    destruct (Byte.eqb x1b b); reflexivity.
Qed.

(** One call of rl_PollInputEvents, in rcore_template.c and in
    rcore_memory.c alike, registers the previous state of the keys below
    260 only: the previous state of a key from 260 on, such as the arrow
    keys, is the one from before the call.  The current states are kept,
    the repeat flags are reset below MAX_KEYBOARD_KEYS and below 260, the
    two queue counts and the last gamepad button are reset, the previous
    touch states are registered below MAX_TOUCH_POINTS, and the window is
    left alone by the template. *)
Theorem PollInputEvents_registers : forall (MAXK MAXT : Z) (core : CoreData) (j : Z),
  let core' := Template.rl_PollInputEvents MAXK MAXT core in
  let kb := Keyboard (Input core) in
  let kb' := Keyboard (Input core') in
  Window core' = Window core
  /\ currentKeyState kb' j = currentKeyState kb j
  /\ previousKeyState kb' j
     = (if (0 <=? j) && (j <? 260) then currentKeyState kb j
        else previousKeyState kb j)
  /\ keyRepeatInFrame kb' j
     = (if (0 <=? j) && ((j <? MAXK) || (j <? 260)) then 0
        else keyRepeatInFrame kb j)
  /\ keyPressedQueueCount kb' = 0
  /\ charPressedQueueCount kb' = 0
  /\ lastButtonPressed (Gamepad (Input core')) = 0
  /\ previousTouchState (Touch (Input core')) j
     = (if (0 <=? j) && (j <? MAXT) then currentTouchState (Touch (Input core)) j
        else previousTouchState (Touch (Input core)) j)
  /\ forall (char_signed : bool) (stdin : list byte),
       Input (fst (Memory.rl_PollInputEvents MAXK MAXT char_signed (core, stdin)))
       = Input core'.
Proof.
  intros MAXK MAXT core j core' kb kb'.
  unfold kb', core', Template.rl_PollInputEvents, poll_registers, for_range.
  cbv zeta. cbn [Window Input Keyboard Gamepad Touch lastButtonPressed].
  fold kb.
  set (kb0 := mkKeyboardData (currentKeyState kb) (previousKeyState kb)
                (keyRepeatInFrame kb) 0 0).
  destruct (for_loop_reset_key_repeat (Z.to_nat MAXK) 0 kb0)
    as (A1 & B1 & C1 & D1 & E1).
  destruct (for_loop_register_key (Z.to_nat 260) 0
              (for_loop (Z.to_nat MAXK) 0 reset_key_repeat kb0))
    as (A2 & C2 & D2 & E2).
  destruct (E2 j) as [P2 R2].
  destruct (for_loop_register_touch (Z.to_nat MAXT) 0 (Touch (Input core)))
    as (_ & T).
  split; [ reflexivity | ].
  split; [ rewrite A2, A1; reflexivity | ].
  split.
  { rewrite P2, A1, B1. cbn [kb0 currentKeyState previousKeyState].
    destruct (Z.leb_spec 0 j), (Z.ltb_spec j (0 + Z.of_nat (Z.to_nat 260))),
      (Z.ltb_spec j 260); cbn [andb]; try reflexivity; lia. }
  split.
  { rewrite R2, E1. cbn [kb0 keyRepeatInFrame].
    destruct (Z.leb_spec 0 j), (Z.ltb_spec j (0 + Z.of_nat (Z.to_nat 260))),
      (Z.ltb_spec j (0 + Z.of_nat (Z.to_nat MAXK))),
      (Z.ltb_spec j 260), (Z.ltb_spec j MAXK);
      cbn [andb orb]; try reflexivity; lia. }
  split; [ rewrite C2, C1; reflexivity | ].
  split; [ rewrite D2, D1; reflexivity | ].
  split; [ reflexivity | ].
  split.
  { rewrite T.
    destruct (Z.leb_spec 0 j), (Z.ltb_spec j (0 + Z.of_nat (Z.to_nat MAXT))),
      (Z.ltb_spec j MAXT); cbn [andb]; try reflexivity; lia. }
  intros s stdin. rewrite PollInputEvents_step.
  destruct stdin as [ | b rest]; [ reflexivity | ].
  destruct (Byte.eqb x1b b); reflexivity.
Qed.

(** In rcore_memory.c every call of rl_PollInputEvents takes one waiting
    byte from the standard input, whether it is the escape key or not:
    after n frames rl_WindowShouldClose answers true exactly when it did
    before or one of the first n waiting bytes is 27, and what is left of
    the standard input is the rest.  The request to close is never taken
    back. *)
Theorem WindowShouldClose_after_frames :
  forall (MAXK MAXT : Z) (char_signed : bool) (n : nat)
         (core : CoreData) (stdin : list byte),
  Memory.rl_WindowShouldClose
    (fst (Memory.poll_frames MAXK MAXT char_signed n (core, stdin)))
  = Memory.rl_WindowShouldClose core || existsb (Byte.eqb x1b) (firstn n stdin)
  /\ snd (Memory.poll_frames MAXK MAXT char_signed n (core, stdin))
     = skipn n stdin.
Proof.
  intros MAXK MAXT s n. induction n as [ | n IH]; intros core stdin.
  - cbn [Memory.poll_frames firstn skipn existsb fst snd].
    rewrite orb_false_r. split; reflexivity.
  - cbn [Memory.poll_frames]. rewrite PollInputEvents_step.
    destruct stdin as [ | b rest].
    + destruct (IH (poll_registers MAXK MAXT core) nil) as [H1 H2].
      rewrite H1, H2, firstn_nil, skipn_nil.
      cbn [firstn skipn existsb]. split; reflexivity.
    + cbn [firstn skipn existsb].
      destruct (Byte.eqb x1b b).
      * destruct (IH (mkCoreData (mkWindowData (ready (Window core)) true)
                        (Input (poll_registers MAXK MAXT core))) rest)
          as [H1 H2].
        rewrite H1, H2. split; [ | reflexivity ].
        unfold Memory.rl_WindowShouldClose. cbn [Window ready shouldClose].
        destruct (ready (Window core)); cbn [orb];
          rewrite ?orb_true_r; reflexivity.
      * destruct (IH (poll_registers MAXK MAXT core) rest) as [H1 H2].
        rewrite H1, H2. split; reflexivity.
Qed.

End PlatformFacts.

(** ** What rounding does to the camera *)

Module Binary32Facts.

Import SpecFloat.
Import Binary32.

(** C5 (counterexample).  In binary32 two operations bring position and
    target together although they were apart before the call.  From the
    camera at (0,0,10) looking at the origin, CameraMoveForward by 1e9 gives
    position = target = (0,0,-1e9): the sum 10 - 1e9 rounds to -1e9.  From
    the position (100008,0,0) with the target (100000,0,0),
    CameraMoveToTarget by -8 brings the distance to 0, replaces it by
    0.001, and gives position = target: the sum 100000 + 0.001 rounds to
    100000, so that the distance after the call is 0 and not 0.001. *)
Lemma camera_operations_collapse :
  position cam0_f32 <> target cam0_f32
  /\ position cam_far_f32 <> target cam_far_f32
  /\ forall (sinf cosf : float32 -> float32)
            (atan2f : float32 -> float32 -> float32),
       let ops := Binary32Ops sinf cosf atan2f in
       let moved := CameraMoveForward cam0_f32 (of_Z 1000000000) false in
       let zoomed := CameraMoveToTarget cam_far_f32 (of_Z (-8)) in
       position moved = target moved
       /\ position zoomed = target zoomed
       /\ Vector3Distance (position zoomed) (target zoomed) = of_Z 0.
Proof.
  split; [ | split ].
  - intros H. apply (f_equal (@z float32)) in H. vm_compute in H.
    discriminate H.
  - intros H. apply (f_equal (@x float32)) in H. vm_compute in H.
    discriminate H.
  - intros sinf cosf atan2f. vm_compute. repeat split.
Qed.

(** C7 (counterexample).  In binary32, from the position (0,0,1) with the
    target at the origin, CameraMoveForward by 1e8 followed by
    CameraMoveForward by -1e8, with either moveInWorldPlane, ends with
    position and target both at (0,0,-1e8): after the first call position
    and target coincide (1 - 1e8 rounds to -1e8), the forward vector of the
    second call is zero, and the camera does not come back. *)
Lemma CameraMoveForward_round_trip_lost :
  (position cam_near_f32 = mkVector3 (of_Z 0) (of_Z 0) (of_Z 1)
   /\ target cam_near_f32 = mkVector3 (of_Z 0) (of_Z 0) (of_Z 0))
  /\ forall (sinf cosf : float32 -> float32)
            (atan2f : float32 -> float32 -> float32) (w : bool),
       let ops := Binary32Ops sinf cosf atan2f in
       let d := of_Z 100000000 in
       let c' := CameraMoveForward (CameraMoveForward cam_near_f32 d w) (fneg d) w in
       position c' = mkVector3 (of_Z 0) (of_Z 0) (of_Z (-100000000))
       /\ target c' = mkVector3 (of_Z 0) (of_Z 0) (of_Z (-100000000)).
Proof.
  split; [ split; reflexivity | ].
  intros sinf cosf atan2f w. destruct w; vm_compute; split; reflexivity.
Qed.

End Binary32Facts.
